(** * The blog build script: a shallow embedding and its properties

    The script under [public-site] reads markdown articles from
    [blog-content/], renders them, and writes one TypeScript module per
    article plus an [index.ts] into [src/data/blog/].  This file embeds its
    functions ([parseFrontmatter], [markdownToHtml], [processMarkdownFile],
    [generateTypeScriptFiles], [build], [deleteArticle], [main], ...) and
    proves properties of them.

    Conventions of the embedding.
    - A JavaScript string is a [list ascii] ([jsstring]): the bytes of its
      UTF-8 encoding, as the files are read and written.  The line
      terminators of the regular expressions (what [.] refuses, what [^] and
      [$] look at under the [m] flag) are LF, CR, U+2028 and U+2029, the last
      two as the three bytes of their encoding; [trim] removes the white
      space and the line terminators of ECMAScript.  A file is read as
      [readFileSync(path, 'utf-8')] reads it: bytes that are no UTF-8 become
      U+FFFD.  [toLowerCase] is embedded for ASCII texts; a run that lowers
      another text leaves what is embedded here ([Elsewhere]).
    - The script's directories are the fields of [FileSystem]; a file is
      addressed by its name inside its directory.  The script builds every
      path with [path.join(DIR, name)]: for a name that is a file name (not
      empty, not [.] or [..], without [/] and NUL) this is the entry [name]
      of [DIR]; a path made from any other name may lead out of [DIR], and a
      run that comes to use one leaves what is embedded here (the outcome
      [Elsewhere]).  Names are compared byte by byte (a case-sensitive file
      system).
    - Effects (file system, console, exit, exceptions, prompts) are threaded
      through the monad [M]. *)

From Stdlib Require Import Ascii String List ZArith Lia Bool.
From stdpp Require Import base option list strings pretty gmap fin_maps sorting.
From Equations Require Import Equations.
Import ListNotations.

Local Open Scope char_scope.
Local Open Scope list_scope.

(** ** JavaScript strings *)

Abbreviation jsstring := (list ascii) (only parsing).

(** The double quote, kept out of literals. *)
Definition dq : ascii := ascii_of_nat 34.

(** [js "..."] is the literal with every [~] standing for a double quote
    (the script itself never uses [~]). *)
Definition js (s : string) : jsstring :=
  map (fun c => if Ascii.eqb c "~" then dq else c) (list_ascii_of_string s).

Definition LF : ascii := ascii_of_nat 10.
Definition CR : ascii := ascii_of_nat 13.
Definition TAB : ascii := ascii_of_nat 9.
Definition NUL : ascii := ascii_of_nat 0.

(** The line terminators of one byte, LF and CR. *)
Definition is_line_terminator (c : ascii) : bool :=
  Ascii.eqb c LF || Ascii.eqb c CR.

(** The bytes of a character given by the numbers of its bytes. *)
Definition bytes (ns : list nat) : jsstring := map ascii_of_nat ns.

(** The line separator U+2028 and the paragraph separator U+2029. *)
Definition LS : jsstring := bytes [226; 128; 168].
Definition PS : jsstring := bytes [226; 128; 169].

(** A byte that continues a character of several bytes. *)
Definition is_continuation (c : ascii) : bool :=
  let n := nat_of_ascii c in Nat.leb 128 n && Nat.ltb n 192.

(** A character of one byte. *)
Definition is_ascii (c : ascii) : bool := Nat.ltb (nat_of_ascii c) 128.

Definition is_digit (c : ascii) : bool :=
  let n := nat_of_ascii c in Nat.leb 48 n && Nat.leb n 57.

Definition is_lower (c : ascii) : bool :=
  let n := nat_of_ascii c in Nat.leb 97 n && Nat.leb n 122.

Definition is_upper (c : ascii) : bool :=
  let n := nat_of_ascii c in Nat.leb 65 n && Nat.leb n 90.

Definition to_upper (c : ascii) : ascii :=
  if is_lower c then ascii_of_nat (nat_of_ascii c - 32) else c.

Definition to_lower (c : ascii) : ascii :=
  if is_upper c then ascii_of_nat (nat_of_ascii c + 32) else c.

Module Js.

(** [s.startsWith(p)] *)
Fixpoint startsWith (p s : jsstring) : bool :=
  match p, s with
  | [], _ => true
  | _ :: _, [] => false
  | a :: p', b :: s' => Ascii.eqb a b && startsWith p' s'
  end.

(** [s.endsWith(p)] *)
Definition endsWith (p s : jsstring) : bool :=
  startsWith (rev p) (rev s).

(** [s.indexOf(p)], [None] for -1. *)
Fixpoint indexOf (p s : jsstring) : option nat :=
  if startsWith p s then Some 0
  else match s with
       | [] => None
       | _ :: s' => S <$> indexOf p s'
       end.

(** [s.includes(p)] *)
Definition includes (p s : jsstring) : bool :=
  match indexOf p s with Some _ => true | None => false end.

(** ECMAScript WhiteSpace and LineTerminator, what [trim] removes: TAB, LF,
    VT, FF, CR, SPACE, U+00A0, U+1680, U+2000 to U+200A, U+2028, U+2029,
    U+202F, U+205F, U+3000 and U+FEFF. *)
Definition WHITE_SPACE : list jsstring :=
  map (fun n => bytes [n]) [9; 10; 11; 12; 13; 32]
  ++ [bytes [194; 160]; bytes [225; 154; 128]]
  ++ map (fun k => bytes [226; 128; 128 + k]) (seq 0 11)
  ++ [LS; PS; bytes [226; 128; 175]; bytes [226; 129; 159]; bytes [227; 128; 128];
      bytes [239; 187; 191]].

(** The length of the one of [seqs] a text begins with, 0 if there is
    none. *)
Definition space_at (seqs : list jsstring) (s : jsstring) : nat :=
  match List.find (fun ws => startsWith ws s) seqs with
  | Some ws => length ws
  | None => 0
  end.

(** The text without the [seqs] it begins with; [fuel] bounds their
    number. *)
Fixpoint strip (seqs : list jsstring) (fuel : nat) (s : jsstring) : jsstring :=
  match fuel with
  | 0 => s
  | S fuel' =>
      match space_at seqs s with
      | 0 => s
      | S n => strip seqs fuel' (drop (S n) s)
      end
  end.

Definition trimStart (s : jsstring) : jsstring := strip WHITE_SPACE (length s) s.

Definition trimEnd (s : jsstring) : jsstring :=
  rev (strip (map (@rev ascii) WHITE_SPACE) (length s) (rev s)).

(** [s.trim()] *)
Definition trim (s : jsstring) : jsstring := trimEnd (trimStart s).

(** [s.toLowerCase()] for a text of ASCII characters, where it lowers the
    letters A to Z; the lower case of other characters is not embedded
    ([None]).  The script lowers only the answers typed at its prompts. *)
Definition toLowerCase (s : jsstring) : option jsstring :=
  if forallb is_ascii s then Some (map to_lower s) else None.

(** The order of two texts byte by byte. *)
Fixpoint byte_leb (a b : jsstring) : bool :=
  match a, b with
  | [], _ => true
  | _ :: _, [] => false
  | x :: a', y :: b' =>
      Nat.ltb (nat_of_ascii x) (nat_of_ascii y)
      || (Nat.eqb (nat_of_ascii x) (nat_of_ascii y) && byte_leb a' b')
  end.

(** The bytes of U+FFFD, the replacement character. *)
Definition REPLACEMENT : jsstring := bytes [239; 191; 189].

(** The first byte of a character of several bytes: how many bytes follow
    it, and the bounds of the first of them (the others lie between 128 and
    191). *)
Definition lead_byte (c : ascii) : option (nat * nat * nat) :=
  let n := nat_of_ascii c in
  if Nat.leb 194 n && Nat.leb n 223 then Some (1, 128, 191)
  else if Nat.eqb n 224 then Some (2, 160, 191)
  else if Nat.eqb n 237 then Some (2, 128, 159)
  else if Nat.leb 225 n && Nat.leb n 239 then Some (2, 128, 191)
  else if Nat.eqb n 240 then Some (3, 144, 191)
  else if Nat.eqb n 244 then Some (3, 128, 143)
  else if Nat.leb 241 n && Nat.leb n 243 then Some (3, 128, 191)
  else None.

(** The [need] bytes that follow a first byte: those that are there, whether
    they are all there, and the text behind them. *)
Fixpoint following (need lo hi : nat) (s : jsstring) : jsstring * bool * jsstring :=
  match need with
  | 0 => ([], true, s)
  | S need' =>
      match s with
      | c :: s' =>
          if Nat.leb lo (nat_of_ascii c) && Nat.leb (nat_of_ascii c) hi then
            let '(taken, complete, rest) := following need' 128 191 s' in
            (c :: taken, complete, rest)
          else ([], false, s)
      | [] => ([], false, [])
      end
  end.

Fixpoint decode (fuel : nat) (s : jsstring) : jsstring :=
  match fuel, s with
  | S fuel', c :: s' =>
      if is_ascii c then c :: decode fuel' s'
      else match lead_byte c with
           | None => REPLACEMENT ++ decode fuel' s'
           | Some (need, lo, hi) =>
               let '(taken, complete, rest) := following need lo hi s' in
               (if complete then c :: taken else REPLACEMENT) ++ decode fuel' rest
           end
  | _, _ => []
  end.

(** [buffer.toString('utf-8')], the text of a file with the bytes [s]: what
    is UTF-8 is kept, and every longest part of an ill-formed sequence
    becomes U+FFFD. *)
Definition utf8 (s : jsstring) : jsstring := decode (length s) s.

(** [s.split(c)] for a one-character separator: never the empty list. *)
Fixpoint split (sep : ascii) (s : jsstring) : list jsstring :=
  match s with
  | [] => [[]]
  | c :: s' =>
      if Ascii.eqb c sep then [] :: split sep s'
      else match split sep s' with
           | l :: ls => (c :: l) :: ls
           | [] => [[c]]
           end
  end.

(** [xs.join(sep)] *)
Fixpoint join (sep : jsstring) (xs : list jsstring) : jsstring :=
  match xs with
  | [] => []
  | [x] => x
  | x :: xs' => x ++ sep ++ join sep xs'
  end.

Definition eqb (a b : jsstring) : bool := bool_decide (a = b).

End Js.

(** ** Regular-expression replacement

    [s.replace(/re/g, r)] scans [s] from the left; where the expression
    matches, the match is replaced and the scan goes on behind it; where it
    does not, one character is copied.  A matcher gives, for the text at the
    current position, the replacement and the number of characters the match
    takes beyond its first one (no expression of the script matches the empty
    string). *)

Definition matcher : Type := jsstring -> option (jsstring * nat).

Equations? replace_g (m : matcher) (s : jsstring) : jsstring by wf (length s) lt :=
  replace_g m [] := [];
  replace_g m (c :: s') with m (c :: s') := {
    | Some (out, n) := out ++ replace_g m (drop n s');
    | None := c :: replace_g m s' }.
Proof.
  all: simpl; try rewrite length_drop; lia.
Qed.

(** ECMAScript LineTerminator (LF, CR, U+2028, U+2029) at the head of a
    text: the number of bytes it takes, 0 when the text begins with none.
    It is what [.] refuses, and what [^] and [$] look at under the [m]
    flag. *)
Definition terminator (s : jsstring) : nat :=
  match s with
  | c :: _ =>
      if is_line_terminator c then 1
      else if Js.startsWith LS s || Js.startsWith PS s then 3
      else 0
  | [] => 0
  end.

(** How far the line at the head of a text goes (what a greedy run of [.]
    takes): the number of bytes before its first line terminator. *)
Fixpoint line_end (s : jsstring) : nat :=
  match s with
  | [] => 0
  | c :: s' =>
      match terminator (c :: s') with
      | 0 => S (line_end s')
      | S _ => 0
      end
  end.

(** [s.replace(/^P(.*$)/gm, A$1B)] for a pattern text [P] of one character at
    least.  The scan goes from left to right; [bol] says that it stands at
    the beginning of a line ([^] under the [m] flag: at the start of the text
    or behind a line terminator).  A match takes [P] and the rest of the line
    ([.] takes no line terminator, and [$] holds where the line ends), and
    the scan goes on behind it; where there is no match the scan copies one
    character, or one line terminator. *)
Equations? replace_lines (P A B : jsstring) (bol : bool) (s : jsstring) : jsstring
    by wf (length s) lt :=
  replace_lines P A B bol [] := [];
  replace_lines P A B bol (c :: s') with bol && Js.startsWith P (c :: s') := {
    | true :=
        let rest := drop (length P - 1) s' in
        A ++ take (line_end rest) rest ++ B
        ++ replace_lines P A B false (drop (line_end rest) rest);
    | false with terminator (c :: s') := {
        | 0 := c :: replace_lines P A B false s';
        | S k := c :: take k s' ++ replace_lines P A B true (drop k s') } }.
Proof.
  all: try subst rest; simpl; rewrite ?length_drop; lia.
Qed.

(** The lazy [(.*?)] followed by the closing marker [mk]: the shortest run of
    characters other than line terminators after which [mk] stands. *)
Fixpoint find_close (mk : jsstring) (t : jsstring) : option jsstring :=
  if Js.startsWith mk t then Some []
  else match t with
       | [] => None
       | c :: t' =>
           match terminator (c :: t') with
           | 0 => cons c <$> find_close mk t'
           | S _ => None
           end
       end.

(** [/MK(.*?)MK/] with replacement [A$1B]. *)
Definition emphasis_matcher (mk A B : jsstring) : matcher := fun s =>
  if Js.startsWith mk s then
    match find_close mk (drop (length mk) s) with
    | Some inner => Some (A ++ inner ++ B, length mk + length inner + length mk - 1)
    | None => None
    end
  else None.

(** A literal pattern replaced by a fixed string. *)
Definition literal_matcher (pat out : jsstring) : matcher := fun s =>
  if Js.startsWith pat s then Some (out, length pat - 1) else None.

(** The longest run of characters for which [p] holds, and what follows. *)
Fixpoint span_while (p : ascii -> bool) (s : jsstring) : jsstring * jsstring :=
  match s with
  | c :: s' => if p c then let '(a, b) := span_while p s' in (c :: a, b) else ([], s)
  | [] => ([], [])
  end.

Definition not_char (x : ascii) (c : ascii) : bool := negb (Ascii.eqb c x).

(** After the opening bracket: [text](url), the text class taken [min_text]
    times at least, the url once at least. Gives text, url and the length
    taken including the closing parenthesis. *)
Definition bracket_paren (min_text : nat) (t : jsstring) : option (jsstring * jsstring * nat) :=
  let '(text, r1) := span_while (not_char "]") t in
  if Nat.leb min_text (length text) then
    match r1 with
    | "]" :: "(" :: r2 =>
        let '(url, r3) := span_while (not_char ")") r2 in
        match url, r3 with
        | _ :: _, ")" :: _ => Some (text, url, length text + 2 + length url + 1)
        | _, _ => None
        end
    | _ => None
    end
  else None.

(** ** [markdownToHtml] *)

Module Html.
Definition H6_OPEN := js "<h6 class=~text-sm font-semibold text-primary mt-4 mb-2~>".
Definition H5_OPEN := js "<h5 class=~text-base font-semibold text-primary mt-4 mb-2~>".
Definition H4_OPEN := js "<h4 class=~text-lg font-bold text-primary mt-6 mb-3~>".
Definition H3_OPEN := js "<h3 class=~text-xl font-bold text-primary mt-8 mb-4~>".
Definition H2_OPEN := js "<h2 class=~text-2xl font-bold text-primary mt-10 mb-4~>".
Definition H1_OPEN := js "<h1 class=~text-3xl font-bold text-primary mt-12 mb-6~>".
Definition STRONG_EM_OPEN := js "<strong><em>".
Definition STRONG_EM_CLOSE := js "</em></strong>".
Definition STRONG_OPEN := js "<strong>".
Definition STRONG_CLOSE := js "</strong>".
Definition EM_OPEN := js "<em class=~text-accent~>".
Definition EM_CLOSE := js "</em>".
Definition QUOTE_OPEN :=
  js "<blockquote class=~border-l-4 border-accent pl-4 my-6 italic text-gray-600~>".
Definition QUOTE_CLOSE := js "</blockquote>".
(** The opening tag of a list item, which the wrapping pass looks for. *)
Definition LI_OPEN := js "<li class=~flex items-start gap-2~>".
Definition LI_BULLET := js "<span class=~text-accent~>•</span><span>".
Definition LI_END := js "</span></li>".
Definition LI_CLOSE := js "</li>".
Definition UL_OPEN := js "<ul class=~space-y-2 text-gray-600 my-4~>".
Definition UL_CLOSE := js "</ul>".
Definition P_OPEN := js "<p class=~text-gray-600 my-4~>".
Definition P_CLOSE := js "</p>".
Definition A_HREF := js "<a href=~".
Definition A_CLASS := js "~ class=~text-accent hover:underline~>".
Definition A_CLOSE := js "</a>".
Definition IMG_SRC := js "<img src=~".
Definition IMG_ALT := js "~ alt=~".
Definition IMG_CLASS := js "~ class=~rounded-lg my-6 w-full~ />".
End Html.

(** The six header passes, [h6] first. *)
Definition header_pass (level : nat) (open : jsstring) (s : jsstring) : jsstring :=
  replace_lines (repeat "#" level ++ js " ") open
    (js "</h" ++ [ascii_of_nat (48 + level)] ++ js ">") true s.

Definition headers (s : jsstring) : jsstring :=
  let s := header_pass 6 Html.H6_OPEN s in
  let s := header_pass 5 Html.H5_OPEN s in
  let s := header_pass 4 Html.H4_OPEN s in
  let s := header_pass 3 Html.H3_OPEN s in
  let s := header_pass 2 Html.H2_OPEN s in
  header_pass 1 Html.H1_OPEN s.

(** Bold and italic: three, two, one asterisk. *)
Definition triple_pass : jsstring -> jsstring :=
  replace_g (emphasis_matcher (js "***") Html.STRONG_EM_OPEN Html.STRONG_EM_CLOSE).
Definition double_pass : jsstring -> jsstring :=
  replace_g (emphasis_matcher (js "**") Html.STRONG_OPEN Html.STRONG_CLOSE).
Definition single_pass : jsstring -> jsstring :=
  replace_g (emphasis_matcher (js "*") Html.EM_OPEN Html.EM_CLOSE).

Definition emphasis (s : jsstring) : jsstring :=
  single_pass (double_pass (triple_pass s)).

Definition blockquote_pass : jsstring -> jsstring :=
  replace_lines (js "> ") Html.QUOTE_OPEN Html.QUOTE_CLOSE true.

(** List items: [/^- (.*$)/gm]. *)
Definition list_item (item : jsstring) : jsstring :=
  Html.LI_OPEN ++ Html.LI_BULLET ++ item ++ Html.LI_END.

Definition list_item_pass : jsstring -> jsstring :=
  replace_lines (js "- ") (Html.LI_OPEN ++ Html.LI_BULLET) Html.LI_END true.

(** One round of the group [<li class=...>.*?</li>\n?] at the head of
    [c :: t]: the number of characters it takes beyond [c].  Under the [s]
    flag the lazy [.*?] crosses line terminators, so it ends at the first
    closing tag wherever that is; the line feed is taken when it is there. *)
Definition li_fragment (s : jsstring) : option nat :=
  if Js.startsWith Html.LI_OPEN s then
    match Js.indexOf Html.LI_CLOSE (drop (length Html.LI_OPEN) s) with
    | Some k =>
        let n := length Html.LI_OPEN + k + length Html.LI_CLOSE in
        match drop n s with
        | c :: _ => if Ascii.eqb c LF then Some n else Some (n - 1)
        | [] => Some (n - 1)
        end
    | None => None
    end
  else None.

(** The greedy [( ... )+]: the total length of the rounds that follow one
    another at the head of the text, 0 when there is none. *)
Equations? li_run (s : jsstring) : nat by wf (length s) lt :=
  li_run [] := 0;
  li_run (c :: s') with li_fragment (c :: s') := {
    | Some n := S n + li_run (drop n s');
    | None := 0 }.
Proof.
  simpl. rewrite length_drop. lia.
Qed.

Definition ul_matcher : matcher := fun s =>
  match li_run s with
  | 0 => None
  | S n => Some (Html.UL_OPEN ++ take (S n) s ++ Html.UL_CLOSE, n)
  end.

(** Wrap consecutive list items in [ul]. *)
Definition ul_wrap_pass : jsstring -> jsstring := replace_g ul_matcher.

(** Paragraphs: wrap non-tagged lines. *)
Definition paragraph_line (line : jsstring) : jsstring :=
  let trimmed := Js.trim line in
  if Js.eqb trimmed []
     || Js.startsWith (js "<") trimmed
     || Js.startsWith (js "</") trimmed
     || Js.includes Html.LI_CLOSE trimmed
     || Js.includes Html.UL_CLOSE trimmed
  then line
  else Html.P_OPEN ++ trimmed ++ Html.P_CLOSE.

Definition paragraph_pass (s : jsstring) : jsstring :=
  Js.join [LF] (map paragraph_line (Js.split LF s)).

Definition empty_paragraph_pass : jsstring -> jsstring :=
  replace_g (literal_matcher (Html.P_OPEN ++ Html.P_CLOSE) []).

(** The link expression: a bracketed text of one character at least, none of
    them a closing bracket, then a parenthesised url of one character at
    least, none of them a closing parenthesis. *)
Definition link_matcher : matcher := fun s =>
  match s with
  | "[" :: t =>
      match bracket_paren 1 t with
      | Some (text, url, n) =>
          Some (Html.A_HREF ++ url ++ Html.A_CLASS ++ text ++ Html.A_CLOSE, n)
      | None => None
      end
  | _ => None
  end.

(** The image expression: [!], then the link expression with an alternative
    text that may be empty. *)
Definition image_matcher : matcher := fun s =>
  match s with
  | "!" :: "[" :: t =>
      match bracket_paren 0 t with
      | Some (alt, url, n) =>
          Some (Html.IMG_SRC ++ url ++ Html.IMG_ALT ++ alt ++ Html.IMG_CLASS, S n)
      | None => None
      end
  | _ => None
  end.

Definition markdownToHtml (markdown : jsstring) : jsstring :=
  let html := markdown in
  let html := headers html in
  let html := emphasis html in
  let html := blockquote_pass html in
  let html := list_item_pass html in
  let html := ul_wrap_pass html in
  let html := paragraph_pass html in
  let html := empty_paragraph_pass html in
  let html := replace_g link_matcher html in
  let html := replace_g image_matcher html in
  html.

(** ** [parseFrontmatter] *)

(** What a frontmatter property holds: a scalar or an array of items. *)
Inductive FmValue :=
| VStr (s : jsstring)
| VArr (items : list jsstring).

(** The frontmatter object: its own properties. *)
Abbreviation Frontmatter := (gmap (list ascii) FmValue) (only parsing).

(** What the script throws: [new Error(message)], or a [TypeError] of the
    runtime (calling a string method on a value that has none). *)
Inductive Exn :=
| Error (message : jsstring)
| TypeError (message : jsstring).

Definition exn_message (e : Exn) : jsstring :=
  match e with Error m | TypeError m => m end.

(** [obj[key] = v].  Assigning to [__proto__] creates no own property (it
    sets or ignores the prototype, and no property the script reads is
    inherited from an array). *)
Definition set_prop (key : jsstring) (v : FmValue) (obj : Frontmatter) : Frontmatter :=
  if Js.eqb key (js "__proto__") then obj else <[key := v]> obj.

(** The loop variables of [parseFrontmatter]. *)
Record ParseState := {
  frontmatter : Frontmatter;
  currentKey : jsstring;
  inArray : bool;
  arrayItems : list jsstring;
}.

(** One round of [for (const line of lines)]. *)
Definition parse_line (st : ParseState) (line : jsstring) : ParseState :=
  let trimmedLine := Js.trim line in
  if Js.eqb trimmedLine [] then st
  else if Js.startsWith (js "- ") trimmedLine && inArray st then
    {| frontmatter := frontmatter st; currentKey := currentKey st;
       inArray := true;
       arrayItems := arrayItems st ++ [Js.trim (drop 2 trimmedLine)] |}
  else
    let st :=
      if inArray st && negb (Js.startsWith (js "- ") trimmedLine) then
        {| frontmatter := set_prop (currentKey st) (VArr (arrayItems st)) (frontmatter st);
           currentKey := currentKey st; inArray := false; arrayItems := [] |}
      else st in
    match Js.indexOf (js ":") line with
    | Some (S k) =>
        let colonIndex := S k in
        let key := Js.trim (take colonIndex line) in
        let value := Js.trim (drop (colonIndex + 1) line) in
        if Js.eqb value [] then
          {| frontmatter := frontmatter st; currentKey := key;
             inArray := true; arrayItems := [] |}
        else
          {| frontmatter := set_prop key (VStr value) (frontmatter st);
             currentKey := currentKey st; inArray := inArray st;
             arrayItems := arrayItems st |}
    | _ => st
    end.

(** The frontmatter expression: the text opens with a line of three dashes;
    the header is the shortest text after it that is followed by a line feed,
    three dashes and a line feed; the body is everything behind. *)
Definition frontmatterRegex (content : jsstring) : option (jsstring * jsstring) :=
  if Js.startsWith (js "---" ++ [LF]) content then
    let rest := drop 4 content in
    match Js.indexOf ([LF] ++ js "---" ++ [LF]) rest with
    | Some k => Some (take k rest, drop (k + 5) rest)
    | None => None
    end
  else None.

Definition is_array (v : option FmValue) : bool :=
  match v with Some (VArr _) => true | _ => false end.

Definition parseFrontmatter (content : jsstring) : Exn + (Frontmatter * jsstring) :=
  match frontmatterRegex content with
  | None => inl (Error (js "Invalid frontmatter format"))
  | Some (frontmatterStr, body) =>
      let lines := Js.split LF frontmatterStr in
      let st := foldl parse_line
                  {| frontmatter := ∅; currentKey := []; inArray := false;
                     arrayItems := [] |} lines in
      let fm := if inArray st
                then set_prop (currentKey st) (VArr (arrayItems st)) (frontmatter st)
                else frontmatter st in
      let fm := if is_array (fm !! js "tags") then fm
                else <[js "tags" := VArr []]> fm in
      inr (fm, Js.trim body)
  end.

(** ** Articles and the text of the generated modules *)

(** What [processMarkdownFile] returns. *)
Record Article := {
  slug : option FmValue;
  meta : Frontmatter;
  html : jsstring;
}.

(** [s.replace(/c/g, out)] for an expression that is one character. *)
Definition replace_char (c : ascii) (out : jsstring) (s : jsstring) : jsstring :=
  flat_map (fun x => if Ascii.eqb x c then out else [x]) s.

Definition escapeTemplate (str : jsstring) : jsstring :=
  replace_char "$" (js "\$") (replace_char "`" (js "\`") str).

(** [/-([a-z])/g] with the letter made upper case. *)
Definition camelCase_matcher : matcher := fun s =>
  match s with
  | "-" :: c :: _ => if is_lower c then Some ([to_upper c], 1) else None
  | _ => None
  end.

(** [camelCase(str)]: [str.replace] exists on strings only. *)
Definition camelCase (str : option FmValue) : Exn + jsstring :=
  match str with
  | Some (VStr s) => inr (replace_g camelCase_matcher s)
  | Some (VArr _) => inl (TypeError (js "str.replace is not a function"))
  | None => inl (TypeError (js "Cannot read properties of undefined (reading 'replace')"))
  end.

(** A value inside a template literal: [String(v)]. *)
Definition to_string (v : option FmValue) : jsstring :=
  match v with
  | None => js "undefined"
  | Some (VStr s) => s
  | Some (VArr items) => Js.join (js ",") items
  end.

Definition hex_digit (n : nat) : ascii :=
  if Nat.ltb n 10 then ascii_of_nat (48 + n) else ascii_of_nat (87 + n).

(** One character inside a JSON string. *)
Definition json_char (c : ascii) : jsstring :=
  let n := nat_of_ascii c in
  if Ascii.eqb c dq then ["\"; dq]
  else if Ascii.eqb c "\" then js "\\"
  else if Nat.eqb n 8 then js "\b"
  else if Nat.eqb n 12 then js "\f"
  else if Nat.eqb n 10 then js "\n"
  else if Nat.eqb n 13 then js "\r"
  else if Nat.eqb n 9 then js "\t"
  else if Nat.ltb n 32 then js "\u00" ++ [hex_digit (n / 16); hex_digit (n mod 16)]
  else [c].

Definition json_string (s : jsstring) : jsstring :=
  [dq] ++ flat_map json_char s ++ [dq].

(** [JSON.stringify(v)] as a template literal prints it. *)
Definition JSON_stringify (v : option FmValue) : jsstring :=
  match v with
  | None => js "undefined"
  | Some (VStr s) => json_string s
  | Some (VArr items) => js "[" ++ Js.join (js ",") (map json_string items) ++ js "]"
  end.

(** Truthiness of a property: a missing one and the empty string are falsy. *)
Definition truthy (v : option FmValue) : bool :=
  match v with
  | None => false
  | Some (VStr s) => negb (Js.eqb s [])
  | Some (VArr _) => true
  end.

Definition field (a : Article) (name : string) : option FmValue :=
  meta a !! js name.

(** The eight property lines and the optional subtitle line, as both
    templates print them, each line behind [indent]. *)
Definition meta_lines (indent : jsstring) (a : Article) : jsstring :=
  indent ++ js "title: " ++ JSON_stringify (field a "title") ++ js ",
" ++ indent ++ js "slug: " ++ JSON_stringify (field a "slug") ++ js ",
" ++ indent ++ js "excerpt: " ++ JSON_stringify (field a "excerpt") ++ js ",
" ++ indent ++ js "featuredImage: " ++ JSON_stringify (field a "featuredImage") ++ js ",
" ++ indent ++ js "category: " ++ JSON_stringify (field a "category") ++ js ",
" ++ indent ++ js "publishDate: " ++ JSON_stringify (field a "publishDate") ++ js ",
" ++ indent ++ js "author: " ++ JSON_stringify (field a "author") ++ js ",
" ++ indent ++ js "tags: " ++ JSON_stringify (field a "tags") ++ js ",
" ++ indent ++
  (if truthy (field a "subtitle")
   then js "subtitle: " ++ JSON_stringify (field a "subtitle") ++ js ","
   else []).

(** The markup literal of an article module, between its back quotes. *)
Definition content_literal (a : Article) : jsstring :=
  js "`" ++ escapeTemplate (html a) ++ js "`".

(** [articleContent]: the text of the module of one article. *)
Definition articleContent (a : Article) : Exn + jsstring :=
  match camelCase (slug a) with
  | inl e => inl e
  | inr name =>
      inr (js "// Auto-generated - DO NOT EDIT
// Generated by: pnpm blog:build
// Source: blog-content/" ++ to_string (slug a) ++ js ".md

import type { BlogPost } from '../../types/blog'

export const " ++ name ++ js ": BlogPost = {
" ++ meta_lines (js "  ") a ++ js "
  content: " ++ content_literal a ++ js ",
}

export default " ++ name ++ js "
")
  end.

(** [xs.map(f)] for an [f] that may throw: the first exception wins. *)
Fixpoint map_throw {A B} (f : A -> Exn + B) (xs : list A) : Exn + list B :=
  match xs with
  | [] => inr []
  | x :: xs' =>
      match f x with
      | inl e => inl e
      | inr y => match map_throw f xs' with
                 | inl e => inl e
                 | inr ys => inr (y :: ys)
                 end
      end
  end.

Definition import_line (a : Article) : Exn + jsstring :=
  match camelCase (slug a) with
  | inl e => inl e
  | inr name => inr (js "import { " ++ name ++ js " } from './" ++ to_string (slug a) ++ js "'")
  end.

Definition mapping_line (a : Article) : Exn + jsstring :=
  match camelCase (slug a) with
  | inl e => inl e
  | inr name => inr (js "  '" ++ to_string (slug a) ++ js "': " ++ name ++ js ",")
  end.

Definition meta_entry (a : Article) : jsstring :=
  js "  {
" ++ meta_lines (js "    ") a ++ js "
  },".

Definition INDEX_FUNCTIONS : jsstring := js "// Get a single blog post by slug
export function getBlogPost(slug: string): BlogPost | undefined {
  return blogPosts[slug]
}

// Get all categories
export function getAllCategories(): string[] {
  const categories = new Set(blogPostsMeta.map((post) => post.category))
  return Array.from(categories).sort()
}

// Get all tags
export function getAllTags(): string[] {
  const tags = new Set(blogPostsMeta.flatMap((post) => post.tags))
  return Array.from(tags).sort()
}

export default blogPosts
".

(** [indexContent]: the text of [index.ts] for a sequence of articles. *)
Definition indexContent (articles : list Article) : Exn + jsstring :=
  match map_throw import_line articles with
  | inl e => inl e
  | inr imports =>
      match map_throw mapping_line articles with
      | inl e => inl e
      | inr mappings =>
          inr (js "// Auto-generated - DO NOT EDIT
// Generated by: pnpm blog:build

import type { BlogPostMeta, BlogPost } from '../../types/blog'

" ++ Js.join [LF] imports ++ js "

// All blog posts with full content
export const blogPosts: Record<string, BlogPost> = {
" ++ Js.join [LF] mappings ++ js "
}

// Blog posts metadata only (for listing pages)
export const blogPostsMeta: BlogPostMeta[] = [
" ++ Js.join [LF] (map meta_entry articles) ++ js "
]

" ++ INDEX_FUNCTIONS)
      end
  end.

(** [emptyIndex]: what [deleteArticle] writes when no markdown file is left. *)
Definition emptyIndex : jsstring := js "// Auto-generated - DO NOT EDIT
// Generated by: pnpm blog:build

import type { BlogPostMeta, BlogPost } from '../../types/blog'

// All blog posts with full content
export const blogPosts: Record<string, BlogPost> = {}

// Blog posts metadata only (for listing pages)
export const blogPostsMeta: BlogPostMeta[] = []

// Get a single blog post by slug
export function getBlogPost(slug: string): BlogPost | undefined {
  return blogPosts[slug]
}

// Get all categories
export function getAllCategories(): string[] {
  return []
}

// Get all tags
export function getAllTags(): string[] {
  return []
}

export default blogPosts
".

(** ** The world of the script: file system, console, standard input *)

Inductive Color := reset | bright | green | yellow | blue | red | cyan.

Inductive ConsoleLine :=
| Line (message : jsstring) (color : Color)
| Blank
| Question (query : jsstring).
(* [Line] is [log(message, color)], [Blank] is [console.log('')], and
   [Question] is the query of [rl.question], without its colour codes. *)

(** An entry of the images directory: a regular file or something else. *)
Inductive DirEntry :=
| RegularFile (bytes : jsstring)
| NotAFile.

(** The four directories of the script.  [None] is a directory that does not
    exist.  [blog_content] lists the regular files of [BLOG_CONTENT_DIR] in
    the order [readdirSync] gives them, each with its bytes; the output
    directories are maps from file name to content. *)
Record FileSystem := {
  BLOG_CONTENT_DIR : jsstring;
  blog_content : option (list (jsstring * jsstring));
  blog_images : option (list (jsstring * DirEntry));
  output_data : option (gmap (list ascii) (list ascii));
  public_images : option (gmap (list ascii) (list ascii));
}.

Record World := {
  fsys : FileSystem;
  console : list ConsoleLine;
  stdin : list jsstring;
}.

(** How a computation ends: with a value, by [process.exit], by an
    exception, waiting for an answer that never comes, or at a path that
    leads out of what the model holds of the disk ([Elsewhere]): from there
    on the model says nothing about the run. *)
Inductive Outcome (A : Type) :=
| Ret (a : A)
| Exit (code : Z)
| Throw (e : Exn)
| Blocked
| Elsewhere.
Arguments Ret {A} a.
Arguments Exit {A} code.
Arguments Throw {A} e.
Arguments Blocked {A}.
Arguments Elsewhere {A}.

Definition M (A : Type) : Type := World -> Outcome A * World.

#[global] Instance M_ret : MRet M := fun A a w => (Ret a, w).

#[global] Instance M_bind : MBind M := fun A B k m w =>
  match m w with
  | (Ret a, w') => k a w'
  | (Exit c, w') => (Exit c, w')
  | (Throw e, w') => (Throw e, w')
  | (Blocked, w') => (Blocked, w')
  | (Elsewhere, w') => (Elsewhere, w')
  end.

Definition throw {A} (e : Exn) : M A := fun w => (Throw e, w).
Definition elsewhere {A} : M A := fun w => (Elsewhere, w).
Definition process_exit {A} (code : Z) : M A := fun w => (Exit code, w).
Definition get_fs : M FileSystem := fun w => (Ret (fsys w), w).
Definition put_fs (fs : FileSystem) : M unit := fun w =>
  (Ret tt, {| fsys := fs; console := console w; stdin := stdin w |}).
Definition print (l : ConsoleLine) : M unit := fun w =>
  (Ret tt, {| fsys := fsys w; console := console w ++ [l]; stdin := stdin w |}).

(** [log(message, color)] and [console.log('')]. *)
Definition log (message : jsstring) (color : Color) : M unit := print (Line message color).
Definition console_log_empty : M unit := print Blank.

(** [rl.question(query, callback)]: the next line of standard input. *)
Definition question (query : jsstring) : M jsstring := fun w =>
  match stdin w with
  | answer :: rest =>
      (Ret answer, {| fsys := fsys w; console := console w ++ [Question query];
                      stdin := rest |})
  | [] => (Blocked, {| fsys := fsys w; console := console w ++ [Question query];
                       stdin := [] |})
  end.

Definition lift {A} (r : Exn + A) : M A :=
  match r with inl e => throw e | inr a => mret a end.

(** [for (const x of xs) body(x)] *)
Fixpoint for_each {A} (xs : list A) (body : A -> M unit) : M unit :=
  match xs with
  | [] => mret tt
  | x :: xs' => body x;; for_each xs' body
  end.

(** [xs.map(f)] with an effectful [f]. *)
Fixpoint map_M {A B} (f : A -> M B) (xs : list A) : M (list B) :=
  match xs with
  | [] => mret []
  | x :: xs' => y ← f x; ys ← map_M f xs'; mret (y :: ys)
  end.

(** ** File system calls *)

Definition set_output (m : gmap (list ascii) (list ascii)) (fs : FileSystem) : FileSystem :=
  {| BLOG_CONTENT_DIR := BLOG_CONTENT_DIR fs; blog_content := blog_content fs;
     blog_images := blog_images fs; output_data := Some m;
     public_images := public_images fs |}.

Definition set_public (m : gmap (list ascii) (list ascii)) (fs : FileSystem) : FileSystem :=
  {| BLOG_CONTENT_DIR := BLOG_CONTENT_DIR fs; blog_content := blog_content fs;
     blog_images := blog_images fs; output_data := output_data fs;
     public_images := Some m |}.

Definition ENOENT : Exn := Error (js "ENOENT: no such file or directory").

(** A name that [path.join(DIR, name)] leaves as it is, so that the path it
    gives is the entry [name] of [DIR]: not empty, not [.] or [..], without a
    separator and without a NUL, and no longer than a file name may be.
    (Paths are POSIX paths.) *)
Definition is_file_name (name : jsstring) : bool :=
  negb (Js.eqb name []) && negb (Js.eqb name (js ".")) && negb (Js.eqb name (js ".."))
  && forallb (fun c => negb (Ascii.eqb c "/") && negb (Ascii.eqb c NUL)) name
  && Nat.leb (length name) 255.

(** The output directory holds an entry of that name. *)
Definition output_exists (name : jsstring) (fs : FileSystem) : bool :=
  match output_data fs with
  | Some m => bool_decide (is_Some (m !! name))
  | None => false
  end.

(** [fs.existsSync(path.join(OUTPUT_DATA_DIR, name))].  A name the directory
    holds designates that entry (the maps of the model are not restricted to
    file names); of a name it does not hold the model knows that there is no
    such file when the name is a file name, and otherwise the path leads
    into a subdirectory or out of the directory, where the model holds
    nothing. *)
Definition existsSync_output (name : jsstring) : M bool :=
  fs ← get_fs;
  if output_exists name fs then mret true
  else if is_file_name name then mret false
  else elsewhere.

(** [fs.writeFileSync(path.join(OUTPUT_DATA_DIR, name), text)] *)
Definition write_output (name text : jsstring) : M unit :=
  if is_file_name name then
    fs ← get_fs;
    match output_data fs with
    | Some m => put_fs (set_output (<[name := text]> m) fs)
    | None => throw ENOENT
    end
  else elsewhere.

(** [fs.unlinkSync(path.join(OUTPUT_DATA_DIR, name))] *)
Definition unlink_output (name : jsstring) : M unit :=
  fs ← get_fs;
  match output_data fs with
  | Some m =>
      if bool_decide (is_Some (m !! name)) then put_fs (set_output (delete name m) fs)
      else if is_file_name name then throw ENOENT
      else elsewhere
  | None => if is_file_name name then throw ENOENT else elsewhere
  end.

(** [fs.readFileSync(path.join(BLOG_CONTENT_DIR, name), 'utf-8')] *)
Definition read_content (name : jsstring) : M jsstring :=
  fs ← get_fs;
  match blog_content fs with
  | Some entries =>
      match list_find (fun e => e.1 = name) entries with
      | Some (_, (_, file_bytes)) => mret (Js.utf8 file_bytes)
      | None => throw ENOENT
      end
  | None => throw ENOENT
  end.

(** ** The functions of the script *)

(** Get all markdown files: their names inside [BLOG_CONTENT_DIR]. *)
Definition getMarkdownFiles : M (list jsstring) :=
  fs ← get_fs;
  match blog_content fs with
  | None =>
      log (js "Blog content directory not found: " ++ BLOG_CONTENT_DIR fs) red;;
      mret []
  | Some entries =>
      mret (filter (fun file => Is_true (Js.endsWith (js ".md") file)) (entries.*1))
  end.

(** Copy images. *)
Definition copyImages : M unit :=
  fs ← get_fs;
  match blog_images fs with
  | None => log (js "No images directory found, skipping image copy") yellow
  | Some images =>
      (if public_images fs is None then put_fs (set_public ∅ fs) else mret tt);;
      for_each images (fun '(image, entry) =>
        match entry with
        | RegularFile bytes =>
            fs ← get_fs;
            put_fs (set_public (<[image := bytes]> (default ∅ (public_images fs))) fs);;
            log (js "  Copied: " ++ image) cyan
        | NotAFile => mret tt
        end)
  end.

(** The part of [processMarkdownFile] behind [readFileSync]. *)
Definition process_content (content : jsstring) : Exn + Article :=
  match parseFrontmatter content with
  | inl e => inl e
  | inr (frontmatter, body) =>
      let html := markdownToHtml body in
      let processedHtml := html in
      match frontmatter !! js "featuredImage" with
      | Some (VStr image) =>
          let frontmatter :=
            if negb (Js.eqb image []) && Js.startsWith (js "images/") image
            then <[js "featuredImage" := VStr (js "/images/blog/" ++ drop 7 image)]> frontmatter
            else frontmatter in
          inr {| slug := frontmatter !! js "slug"; meta := frontmatter;
                 html := processedHtml |}
      | Some (VArr _) =>
          inl (TypeError (js "frontmatter.featuredImage.startsWith is not a function"))
      | None =>
          inr {| slug := frontmatter !! js "slug"; meta := frontmatter;
                 html := processedHtml |}
      end
  end.

(** Process a single markdown file. *)
Definition processMarkdownFile (filePath : jsstring) : M Article :=
  content ← read_content filePath;
  lift (process_content content).

(** The name of the module file of an article. *)
Definition module_file (a : Article) : jsstring := to_string (slug a) ++ js ".ts".

(** Generate TypeScript files. *)
Definition generateTypeScriptFiles (articles : list Article) : M unit :=
  fs ← get_fs;
  (if output_data fs is None then put_fs (set_output ∅ fs) else mret tt);;
  for_each articles (fun article =>
    articleContent ← lift (articleContent article);
    write_output (module_file article) articleContent;;
    log (js "  Generated: " ++ module_file article) green);;
  indexContent ← lift (indexContent articles);
  write_output (js "index.ts") indexContent;;
  log (js "  Generated: index.ts") green.

(** [path.basename(file, '.md')] for the name of a markdown file: the name
    without the extension, except that a file named [.md] keeps its name. *)
Definition basename_md (file : jsstring) : jsstring :=
  if Js.eqb file (js ".md") then file
  else if Js.endsWith (js ".md") file then take (length file - 3) file
  else file.

Definition nat_to_js (n : nat) : jsstring := list_ascii_of_string (pretty n).

(** [/^\d+$/.test(s)] *)
Definition all_digits (s : jsstring) : bool :=
  negb (Js.eqb s []) && forallb is_digit s.

(** [parseInt(s, 10)] on a string of digits. *)
Definition parseInt (s : jsstring) : Z :=
  foldl (fun acc c => 10 * acc + Z.of_nat (nat_of_ascii c - 48))%Z 0%Z s.

(** The numbered list both prompts print. *)
Definition numbered (xs : list jsstring) : list jsstring :=
  imap (fun i x => js "  " ++ nat_to_js (i + 1) ++ js ". " ++ x) xs.

Definition box (c : Color) (middle : jsstring) : M unit :=
  log (js "╔══════════════════════════════════════════╗") c;;
  log middle c;;
  log (js "╚══════════════════════════════════════════╝") c.

(** [s.toLowerCase()] in a run: with a character outside ASCII the run
    leaves what is embedded here. *)
Definition lower_case (s : jsstring) : M jsstring :=
  match Js.toLowerCase s with
  | Some t => mret t
  | None => elsewhere
  end.

(** Interactive prompt. *)
Definition promptUser : M jsstring :=
  files ← getMarkdownFiles;
  (if bool_decide (length files = 0) then
     log (js "No markdown files found in blog-content/") red;;
     process_exit 1
   else mret tt);;
  let slugs := map basename_md files in
  console_log_empty;;
  box blue (js "║       JHO Blog Build Script              ║");;
  console_log_empty;;
  log (js "Available articles:") bright;;
  for_each (numbered slugs) (fun l => log l cyan);;
  console_log_empty;;
  answer ← question (js "Build [A]ll articles or enter article number/slug: ");
  trimmed ← lower_case (Js.trim answer);
  if Js.eqb trimmed (js "a") || Js.eqb trimmed (js "all") || Js.eqb trimmed [] then
    mret (js "all")
  else if all_digits trimmed then
    let index := (parseInt trimmed - 1)%Z in
    if ((0 <=? index) && (index <? Z.of_nat (length slugs)))%Z then
      match slugs !! Z.to_nat index with
      | Some s => mret s
      | None => mret []
      end
    else
      log (js "Invalid number. Please enter 1-" ++ nat_to_js (length slugs)) red;;
      process_exit 1
  else if bool_decide (trimmed ∈ slugs) then mret trimmed
  else
    log (js "Article not found: " ++ trimmed) red;;
    process_exit 1.

(** Main build function. *)
Definition build (target : jsstring) : M unit :=
  console_log_empty;;
  log (js "Starting blog build...") bright;;
  console_log_empty;;
  files ← getMarkdownFiles;
  if bool_decide (length files = 0) then
    log (js "No markdown files found!") red
  else
    let filesToProcess :=
      if Js.eqb target (js "all") then files
      else filter (fun f => basename_md f = target) files in
    if bool_decide (length filesToProcess = 0) then
      log (js "Article not found: " ++ target) red
    else
      log (js "Processing markdown files...") yellow;;
      articles ← map_M (fun file =>
                          log (js "  Reading: " ++ file) cyan;;
                          processMarkdownFile file) filesToProcess;
      console_log_empty;;
      log (js "Copying images...") yellow;;
      copyImages;;
      console_log_empty;;
      log (js "Generating TypeScript files...") yellow;;
      (if negb (Js.eqb target (js "all")) then
         fs ← get_fs;
         if output_exists (js "index.ts") fs then
           allArticles ← map_M processMarkdownFile files;
           generateTypeScriptFiles allArticles
         else generateTypeScriptFiles articles
       else generateTypeScriptFiles articles);;
      console_log_empty;;
      box green (js "║       Build completed successfully!      ║");;
      console_log_empty.

(** [file.replace('.ts', '')]: the first occurrence is removed. *)
Definition remove_first_ts (file : jsstring) : jsstring :=
  match Js.indexOf (js ".ts") file with
  | Some k => take k file ++ drop (k + 3) file
  | None => file
  end.

(** [fs.readdirSync(dir)] for a directory kept as a map from names: the
    names in the order of their bytes. *)
Definition readdir (m : gmap (list ascii) (list ascii)) : list jsstring :=
  merge_sort (fun a b => Is_true (Js.byte_leb a b)) ((map_to_list m).*1).

(** Get all generated TypeScript article files. *)
Definition getGeneratedArticles : M (list jsstring) :=
  fs ← get_fs;
  match output_data fs with
  | None => mret []
  | Some m =>
      mret (map remove_first_ts
              (filter (fun file => Is_true (Js.endsWith (js ".ts") file) ∧ file ≠ js "index.ts")
                 (readdir m)))
  end.

(** Delete an article. *)
Definition deleteArticle (slug : jsstring) : M unit :=
  let articlePath := slug ++ js ".ts" in
  found ← existsSync_output articlePath;
  if negb found then
    log (js "Article not found: " ++ slug) red
  else
    unlink_output articlePath;;
    log (js "  Deleted: " ++ slug ++ js ".ts") red;;
    files ← getMarkdownFiles;
    (if bool_decide (length files = 0) then
       write_output (js "index.ts") emptyIndex;;
       log (js "  Regenerated: index.ts (empty)") green
     else
       articles ← map_M processMarkdownFile files;
       generateTypeScriptFiles articles);;
    console_log_empty;;
    box green (js "║       Article deleted successfully!      ║");;
    console_log_empty.

(** Interactive delete prompt: [None] is [null]. *)
Definition promptDelete : M (option jsstring) :=
  articles ← getGeneratedArticles;
  if bool_decide (length articles = 0) then
    log (js "No articles to delete.") yellow;;
    mret None
  else
    console_log_empty;;
    box red (js "║       Delete Blog Article                ║");;
    console_log_empty;;
    log (js "Generated articles:") bright;;
    for_each (numbered articles) (fun l => log l cyan);;
    console_log_empty;;
    answer ← question (js "Enter article number/slug to delete (or 'c' to cancel): ");
    trimmed ← lower_case (Js.trim answer);
    if Js.eqb trimmed (js "c") || Js.eqb trimmed (js "cancel") || Js.eqb trimmed [] then
      log (js "Delete cancelled.") yellow;;
      mret None
    else if all_digits trimmed then
      let index := (parseInt trimmed - 1)%Z in
      if ((0 <=? index) && (index <? Z.of_nat (length articles)))%Z then
        mret (articles !! Z.to_nat index)
      else
        log (js "Invalid number. Please enter 1-" ++ nat_to_js (length articles)) red;;
        mret None
    else if bool_decide (trimmed ∈ articles) then mret (Some trimmed)
    else
      log (js "Article not found: " ++ trimmed) red;;
      mret None.

Inductive Action := ActBuild | ActDelete.

(** Interactive mode - choose action. *)
Definition promptAction : M Action :=
  console_log_empty;;
  box blue (js "║       JHO Blog Build Script              ║");;
  console_log_empty;;
  log (js "What would you like to do?") bright;;
  log (js "  [B] Build articles (default)") cyan;;
  log (js "  [D] Delete an article") cyan;;
  console_log_empty;;
  answer ← question (js "Choose action [B/d]: ");
  trimmed ← lower_case (Js.trim answer);
  if Js.eqb trimmed (js "d") || Js.eqb trimmed (js "delete") then mret ActDelete
  else mret ActBuild.

(** [if (slug) await deleteArticle(slug)]: [null] and the empty string are
    falsy. *)
Definition delete_if_truthy (slug : option jsstring) : M unit :=
  match slug with
  | Some (c :: s) => deleteArticle (c :: s)
  | _ => mret tt
  end.

Definition args_include (flag : string) (args : list jsstring) : bool :=
  bool_decide (js flag ∈ args).

Definition is_delete_slug_flag (a : jsstring) : bool :=
  Js.eqb a (js "-d") || Js.eqb a (js "--delete-slug").

(** [args[args.findIndex(is_delete_slug_flag) + 1]]: [None] is [undefined]. *)
Fixpoint after_delete_flag (args : list jsstring) : option jsstring :=
  match args with
  | [] => None
  | a :: rest => if is_delete_slug_flag a then head rest else after_delete_flag rest
  end.

(** CLI entry point; [args] is [process.argv.slice(2)]. *)
Definition main (args : list jsstring) : M unit :=
  if args_include "--delete" args then
    slug ← promptDelete;
    delete_if_truthy slug
  else if args_include "-d" args || args_include "--delete-slug" args then
    match after_delete_flag args with
    | Some (c :: s) =>
        if Js.startsWith (js "-") (c :: s) then
          log (js "Please provide an article slug to delete") red;;
          process_exit 1
        else deleteArticle (c :: s)
    | _ =>
        log (js "Please provide an article slug to delete") red;;
        process_exit 1
    end
  else if args_include "--all" args || args_include "-a" args then
    build (js "all")
  else
    match args with
    | arg0 :: _ =>
        if negb (Js.startsWith (js "-") arg0) then build arg0
        else
          action ← promptAction;
          match action with
          | ActDelete => slug ← promptDelete; delete_if_truthy slug
          | ActBuild => target ← promptUser; build target
          end
    | [] =>
        action ← promptAction;
        match action with
        | ActDelete => slug ← promptDelete; delete_if_truthy slug
        | ActBuild => target ← promptUser; build target
        end
    end.

(** [main().catch(error => { log(`Error: ${error.message}`, 'red'); process.exit(1) })] *)
Definition script (args : list jsstring) : M unit := fun w =>
  match main args w with
  | (Throw e, w') => (log (js "Error: " ++ exn_message e) red;; process_exit 1) w'
  | r => r
  end.

(** The exit status of the process: 0 when [main] returns, the code of
    [process.exit] otherwise; none while the process waits for input, and
    none that the model knows of for a run that leaves it. *)
Definition exit_status {A} (o : Outcome A) : option Z :=
  match o with
  | Ret _ => Some 0%Z
  | Exit c => Some c
  | Throw _ => Some 1%Z
  | Blocked => None
  | Elsewhere => None
  end.

(** ** Pure views of the world, used to state the properties *)

Definition add_line (l : ConsoleLine) (w : World) : World :=
  {| fsys := fsys w; console := console w ++ [l]; stdin := stdin w |}.

Definition add_lines (ls : list ConsoleLine) (w : World) : World :=
  {| fsys := fsys w; console := console w ++ ls; stdin := stdin w |}.

Definition with_fs (fs : FileSystem) (w : World) : World :=
  {| fsys := fs; console := console w; stdin := stdin w |}.

(** The names [getMarkdownFiles] returns. *)
Definition markdown_files (fs : FileSystem) : list jsstring :=
  match blog_content fs with
  | None => []
  | Some entries =>
      filter (fun file => Is_true (Js.endsWith (js ".md") file)) (entries.*1)
  end.

(** What [getMarkdownFiles] prints. *)
Definition markdown_files_log (fs : FileSystem) : list ConsoleLine :=
  match blog_content fs with
  | None => [Line (js "Blog content directory not found: " ++ BLOG_CONTENT_DIR fs) red]
  | Some _ => []
  end.

(** What [processMarkdownFile] makes of a file of the content directory. *)
Definition load (fs : FileSystem) (file : jsstring) : Exn + Article :=
  match blog_content fs with
  | Some entries =>
      match list_find (fun e => e.1 = file) entries with
      | Some (_, (_, file_bytes)) => process_content (Js.utf8 file_bytes)
      | None => inl ENOENT
      end
  | None => inl ENOENT
  end.

Definition outcome_of {A} (r : Exn + A) : Outcome A :=
  match r with inl e => Throw e | inr a => Ret a end.


(** A line of a text. *)
Definition has_line (l text : jsstring) : Prop := l ∈ Js.split LF text.

(** A run of the script that names a slug which is not there: the delete
    flag with a slug (one whose module name is a file name) that has no
    generated module, or a bare slug that has no markdown file. *)
Inductive missing_slug_invocation (fs : FileSystem) : list jsstring -> jsstring -> Prop :=
| delete_flag_missing (args : list jsstring) (slug : jsstring) :
    args_include "--delete" args = false ->
    args_include "-d" args || args_include "--delete-slug" args = true ->
    after_delete_flag args = Some slug ->
    slug <> [] ->
    Js.startsWith (js "-") slug = false ->
    is_file_name (slug ++ js ".ts") = true ->
    output_exists (slug ++ js ".ts") fs = false ->
    missing_slug_invocation fs args slug
| bare_slug_missing (slug : jsstring) (rest : list jsstring) :
    args_include "--delete" (slug :: rest) = false ->
    args_include "-d" (slug :: rest) || args_include "--delete-slug" (slug :: rest) = false ->
    args_include "--all" (slug :: rest) || args_include "-a" (slug :: rest) = false ->
    Js.startsWith (js "-") slug = false ->
    slug <> js "all" ->
    (forall f, f ∈ markdown_files fs -> basename_md f <> slug) ->
    missing_slug_invocation fs (slug :: rest) slug.

(** The writes of a run, in order, applied to a directory. *)
Definition write_all (ws : list (jsstring * jsstring))
    (m : gmap (list ascii) (list ascii)) : gmap (list ascii) (list ascii) :=
  foldl (fun m kv => <[kv.1 := kv.2]> m) m ws.

(** A directory after writes: created when it was missing. *)
Definition written (ws : option (list (jsstring * jsstring)))
    (dir : option (gmap (list ascii) (list ascii))) : option (gmap (list ascii) (list ascii)) :=
  match ws with
  | None => dir
  | Some ws => Some (write_all ws (default ∅ dir))
  end.

(** The world after writes to the public images ([pw]) and to the generated
    modules ([ow]) and after printing [l]. *)
Definition upd_fs (pw ow : option (list (jsstring * jsstring))) (fs : FileSystem) : FileSystem :=
  let fs := match pw with
            | None => fs
            | Some ws => set_public (write_all ws (default ∅ (public_images fs))) fs
            end in
  match ow with
  | None => fs
  | Some ws => set_output (write_all ws (default ∅ (output_data fs))) fs
  end.

Definition upd (pw ow : option (list (jsstring * jsstring))) (l : list ConsoleLine)
    (w : World) : World :=
  {| fsys := upd_fs pw ow (fsys w); console := console w ++ l; stdin := stdin w |}.

(** Two runs of writes, one after the other. *)
Definition then_writes (a b : option (list (jsstring * jsstring))) :
    option (list (jsstring * jsstring)) :=
  match a, b with
  | None, _ => b
  | _, None => a
  | Some x, Some y => Some (x ++ y)
  end.

(** What the script reads and never writes. *)
Definition sources (fs : FileSystem) :
    jsstring * option (list (jsstring * jsstring)) * option (list (jsstring * DirEntry)) :=
  (BLOG_CONTENT_DIR fs, blog_content fs, blog_images fs).

(** A computation whose effect is a fixed outcome, fixed writes and fixed
    console lines in every world with the sources [s]. *)
Definition writer {A} (s : jsstring * option (list (jsstring * jsstring))
                           * option (list (jsstring * DirEntry))) (m : M A) : Prop :=
  exists pw ow (o : Outcome A) l,
    forall w, sources (fsys w) = s -> m w = (o, upd pw ow l w).

(** What stops a run of writes: an exception, or a name that is no file
    name. *)
Inductive Stop :=
| Thrown (e : Exn)
| NoFileName.

Definition stopped {A} (st : Stop) : Outcome A :=
  match st with Thrown e => Throw e | NoFileName => Elsewhere end.

(** The module files [generateTypeScriptFiles] writes before the index, and
    what stops it, if anything: the exception of an article without a
    string slug, or a module name that is no file name. *)
Fixpoint article_writes (articles : list Article) :
    list (jsstring * jsstring) * option Stop :=
  match articles with
  | [] => ([], None)
  | a :: rest =>
      match articleContent a with
      | inl e => ([], Some (Thrown e))
      | inr text =>
          if is_file_name (module_file a) then
            let '(ws, e) := article_writes rest in ((module_file a, text) :: ws, e)
          else ([], Some NoFileName)
      end
  end.

(** All the writes of [generateTypeScriptFiles], and how it ends. *)
Definition generate_writes (articles : list Article) :
    list (jsstring * jsstring) * Outcome unit :=
  match article_writes articles with
  | (ws, Some st) => (ws, stopped st)
  | (ws, None) =>
      match indexContent articles with
      | inl e => (ws, Throw e)
      | inr text => (ws ++ [(js "index.ts", text)], Ret tt)
      end
  end.

Definition generated_line (kv : jsstring * jsstring) : ConsoleLine :=
  Line (js "  Generated: " ++ kv.1) green.

(** The files [copyImages] copies. *)
Fixpoint image_writes (images : list (jsstring * DirEntry)) : list (jsstring * jsstring) :=
  match images with
  | [] => []
  | (image, RegularFile bytes) :: rest => (image, bytes) :: image_writes rest
  | (_, NotAFile) :: rest => image_writes rest
  end.

Definition copied_line (kv : jsstring * jsstring) : ConsoleLine :=
  Line (js "  Copied: " ++ kv.1) cyan.

(** A file of the output directory, if the directory and the file exist. *)
Definition output_file (fs : FileSystem) (name : jsstring) : option jsstring :=
  output_data fs ≫= fun m => m !! name.

(** The header delimiters: the opening line, and the closing line with the
    line feed that ends the header. *)
Definition FM_OPEN : jsstring := js "---" ++ [LF].
Definition FM_CLOSE : jsstring := [LF] ++ js "---" ++ [LF].

(** The text begins with a header between the two delimiters. *)
Definition has_delimiter_pair (content : jsstring) : Prop :=
  exists header body, content = FM_OPEN ++ header ++ FM_CLOSE ++ body.

(** A delimiter line as a reader of the file sees it: three dashes and
    nothing else, whether the lines of the file end with a line feed or with
    a carriage return and a line feed. *)
Definition delimiter_line (line : jsstring) : bool :=
  Js.eqb line (js "---") || Js.eqb line (js "---" ++ [CR]).

(** The text begins with a delimiter pair: its first line is a delimiter
    line, and so is a later line. *)
Definition begins_with_delimiter_pair (content : jsstring) : bool :=
  match Js.split LF content with
  | first :: rest => delimiter_line first && existsb delimiter_line rest
  | [] => false
  end.

(** The delimiter pair [parseFrontmatter] asks for, on the lines of the text
    (what a line feed separates): the first line is [---], and so is a later
    line that is neither the second line nor the last one: a header line
    stands before it, and a line feed behind it. *)
Definition header_delimited (content : jsstring) : bool :=
  match Js.split LF content with
  | first :: _ :: rest =>
      Js.eqb first (js "---") && existsb (fun l => Js.eqb l (js "---")) (removelast rest)
  | _ => false
  end.

(** ** How the generated module reads its markup literal

    The value of an untagged template literal (ECMAScript, Template Literal
    Lexical Components), from the character behind the opening back quote:
    the string the literal denotes and the text behind the closing back
    quote, or the reason why there is none. *)

Inductive Cooked :=
| Value (value rest : jsstring)
| SyntaxError
| Unterminated
| Substitution
| Unmodelled.

Definition push (cs : jsstring) (r : Cooked) : Cooked :=
  match r with
  | Value v rest => Value (cs ++ v) rest
  | other => other
  end.

Definition hex_value (c : ascii) : option nat :=
  let n := nat_of_ascii c in
  if is_digit c then Some (n - 48)
  else if Nat.leb 97 n && Nat.leb n 102 then Some (n - 87)
  else if Nat.leb 65 n && Nat.leb n 70 then Some (n - 55)
  else None.

(** The UTF-8 bytes of a code point below 65536. *)
Definition utf8 (n : nat) : jsstring :=
  if Nat.ltb n 128 then [ascii_of_nat n]
  else if Nat.ltb n 2048 then [ascii_of_nat (192 + n / 64); ascii_of_nat (128 + n mod 64)]
  else [ascii_of_nat (224 + n / 4096); ascii_of_nat (128 + (n / 64) mod 64);
        ascii_of_nat (128 + n mod 64)].

(** The character a backslash followed by [c] denotes, for [c] other than a
    digit, [x], [u] and the line terminators. *)
Definition single_escape (c : ascii) : ascii :=
  if Ascii.eqb c "b" then ascii_of_nat 8
  else if Ascii.eqb c "f" then ascii_of_nat 12
  else if Ascii.eqb c "n" then LF
  else if Ascii.eqb c "r" then CR
  else if Ascii.eqb c "t" then TAB
  else if Ascii.eqb c "v" then ascii_of_nat 11
  else c.

Fixpoint cook_template (s : jsstring) : Cooked :=
  match s with
  | [] => Unterminated
  | c :: s1 =>
      if Ascii.eqb c "`" then Value [] s1
      else if Ascii.eqb c "$" then
        match s1 with
        | "{" :: _ => Substitution
        | _ => push [c] (cook_template s1)
        end
      else if Ascii.eqb c "\" then
        match s1 with
        | [] => Unterminated
        | e :: s2 =>
            if Ascii.eqb e LF then cook_template s2
            else if Ascii.eqb e CR then
              match s2 with
              | l :: s3 => if Ascii.eqb l LF then cook_template s3 else cook_template s2
              | [] => cook_template s2
              end
            else if Ascii.eqb e "x" then
              match s2 with
              | h1 :: h2 :: s3 =>
                  match hex_value h1, hex_value h2 with
                  | Some a, Some b => push (utf8 (16 * a + b)) (cook_template s3)
                  | _, _ => SyntaxError
                  end
              | _ => SyntaxError
              end
            else if Ascii.eqb e "u" then
              match s2 with
              | "{" :: _ => Unmodelled
              | h1 :: h2 :: h3 :: h4 :: s3 =>
                  match hex_value h1, hex_value h2, hex_value h3, hex_value h4 with
                  | Some a, Some b, Some c', Some d =>
                      push (utf8 (4096 * a + 256 * b + 16 * c' + d)) (cook_template s3)
                  | _, _, _, _ => SyntaxError
                  end
              | _ => SyntaxError
              end
            else if Ascii.eqb e "0" then
              match s2 with
              | d :: _ =>
                  if is_digit d then SyntaxError
                  else push [ascii_of_nat 0] (cook_template s2)
              | [] => push [ascii_of_nat 0] (cook_template s2)
              end
            else if is_digit e then SyntaxError
            else push [single_escape e] (cook_template s2)
        end
      else if Ascii.eqb c CR then
        match s1 with
        | l :: s2 => if Ascii.eqb l LF then push [LF] (cook_template s2)
                     else push [LF] (cook_template s1)
        | [] => push [LF] (cook_template s1)
        end
      else push [c] (cook_template s1)
  end.

(** What the generated module holds as [content] for a markup: the value of
    the literal [escapeTemplate] is put into. *)
Definition content_value (markup : jsstring) : Cooked :=
  cook_template (escapeTemplate markup ++ js "`").

(** What [escapeTemplate] makes of one character. *)
Definition escape_char (c : ascii) : jsstring :=
  if Ascii.eqb c "`" then js "\`" else if Ascii.eqb c "$" then js "\$" else [c].

(** The four line terminators. *)
Definition is_terminator (t : jsstring) : Prop :=
  t = [LF] \/ t = [CR] \/ t = LS \/ t = PS.

(** A text that does not begin in the middle of a character. *)
Definition starts_char (x : jsstring) : bool :=
  match x with
  | c :: _ => negb (is_continuation c)
  | [] => true
  end.

(** A text that stays on one line: it holds no line terminator. *)
Definition one_line (s : jsstring) : Prop := line_end s = length s.

(** A text that ends where a line ends: the empty text, or one that ends with
    a line terminator. *)
Definition ends_line (s : jsstring) : Prop :=
  s = [] \/ exists p t, is_terminator t /\ s = p ++ t.

(** One line under [/^P(.*$)/] with replacement [A$1B]. *)
Definition line_rule (P A B : jsstring) (line : jsstring) : jsstring :=
  if Js.startsWith P line then A ++ drop (length P) line ++ B else line.

(** The text a line pattern begins with, as the script has them: some
    characters, none of them a line terminator or the first byte of one. *)
Definition line_pattern (P : jsstring) : Prop :=
  P <> [] /\ Forall (fun c => is_line_terminator c = false /\ c <> ascii_of_nat 226) P.

(** A matcher that looks no further than the line it starts on: it matches
    neither at a line terminator nor inside one, what it does in front of a
    line terminator does not depend on what follows, and a match lies within
    the text. *)
Record line_local (m : matcher) : Prop := {
  no_match_at_terminator t k s :
    is_terminator t -> k < length t -> m (drop k t ++ s) = None;
  match_within_line c s1 x :
    terminator x <> 0 -> m (c :: s1 ++ x) = m (c :: s1);
  match_fits s out n : m s = Some (out, n) -> n < length s;
}.

(** A marker: asterisks, one at least. *)
Definition is_marker (mk : jsstring) : Prop := mk <> [] /\ Forall (fun c => c = "*"%char) mk.

(** The number of asterisks of a text. *)
Definition stars (s : jsstring) : nat := length (filter (fun c => c = "*"%char) s).

(** The two list passes together. *)
Definition list_passes (s : jsstring) : jsstring := ul_wrap_pass (list_item_pass s).

(** A run of list-item lines in markdown, and its item fragments. *)
Definition list_block (items : list jsstring) : jsstring :=
  Js.join [LF] (map (fun item => js "- " ++ item) items).

Definition list_items_html (items : list jsstring) : jsstring :=
  Js.join [LF] (map list_item items).

(** An item text that stays on its line and holds no closing tag of a list
    item. *)
Definition plain_item (item : jsstring) : Prop :=
  one_line item /\ Js.includes Html.LI_CLOSE item = false.

(** How often a text occurs in another. *)
Fixpoint occurrences (p s : jsstring) : nat :=
  match s with
  | [] => 0
  | _ :: s' => (if Js.startsWith p s then 1 else 0) + occurrences p s'
  end.

(** The slug of the article is a string (not missing, not a list). *)
Definition has_string_slug (a : Article) : bool :=
  match slug a with Some (VStr _) => true | _ => false end.

(** The tags of a heading of a level from 1 to 6. *)
Definition heading_open (level : nat) : jsstring :=
  match level with
  | 1 => Html.H1_OPEN
  | 2 => Html.H2_OPEN
  | 3 => Html.H3_OPEN
  | 4 => Html.H4_OPEN
  | 5 => Html.H5_OPEN
  | _ => Html.H6_OPEN
  end.

Definition heading_close (level : nat) : jsstring :=
  js "</h" ++ [ascii_of_nat (48 + level)] ++ js ">".

(** A computation that leaves every file as it is, however it ends. *)
Definition keeps_files {A} (m : M A) : Prop :=
  forall w, fsys (m w).2 = fsys w.

(** The answers that cancel the delete prompt. *)
Definition cancels (answer : jsstring) : bool :=
  match Js.toLowerCase (Js.trim answer) with
  | Some trimmed =>
      Js.eqb trimmed (js "c") || Js.eqb trimmed (js "cancel") || Js.eqb trimmed []
  | None => false
  end.

(** The characters with a meaning of their own for the inline passes. *)
Definition special : list ascii := ["*"; "<"; "!"; "["; "]"; ")"]%char.

(** A text of one line without any of the special characters. *)
Definition plain_text (s : jsstring) : Prop :=
  one_line s /\ Forall (fun c => c ∉ special) s.

(** A matcher that looks only at texts that start with [x]. *)
Definition triggered_by (x : ascii) (m : matcher) : Prop :=
  forall c t, c <> x -> m (c :: t) = None.

(** A computation that, when it leaves the process, leaves it with
    status 1. *)
Definition exits_with_1 {A} (m : M A) : Prop :=
  forall w c, (m w).1 = Exit c -> c = 1%Z.


(** ** Sample worlds *)

Module Sample.

Definition hello_md : jsstring := js "---
title: Hello World
slug: hello-world
excerpt: A first post
featuredImage: images/hello.png
category: News
publishDate: 2024-01-01
author: Staff
tags:
  - faith
  - family
---
# Hello

- one
- two
".

Definition hello : Article :=
  match process_content hello_md with
  | inr a => a
  | inl _ => {| slug := None; meta := ∅; html := [] |}
  end.

Definition hello_ts : jsstring :=
  match articleContent hello with inr t => t | inl _ => [] end.

Definition hello_index : jsstring :=
  match indexContent [hello] with inr t => t | inl _ => [] end.

(** One article on disk, already built. *)
Definition built : FileSystem :=
  {| BLOG_CONTENT_DIR := js "/site/blog-content";
     blog_content := Some [(js "hello-world.md", hello_md)];
     blog_images := None;
     output_data := Some {[ js "hello-world.ts" := hello_ts; js "index.ts" := hello_index ]};
     public_images := None |}.

(** The generated modules are still there, the markdown files are gone. *)
Definition orphaned : FileSystem :=
  {| BLOG_CONTENT_DIR := js "/site/blog-content";
     blog_content := Some [];
     blog_images := None;
     output_data := Some {[ js "hello-world.ts" := hello_ts; js "index.ts" := hello_index ]};
     public_images := None |}.

Definition world (fs : FileSystem) : World :=
  {| fsys := fs; console := []; stdin := [] |}.

End Sample.

(** A built site to which a markdown file without a header was added. *)
Module Broken.

Definition draft_md : jsstring := js "# Draft

no header yet
".

Definition disk : FileSystem :=
  {| BLOG_CONTENT_DIR := js "/site/blog-content";
     blog_content := Some [(js "hello-world.md", Sample.hello_md); (js "draft.md", draft_md)];
     blog_images := Some [(js "hello.png", RegularFile (js "PNG")); (js "raw", NotAFile)];
     output_data := Some {[ js "hello-world.ts" := Sample.hello_ts;
                            js "index.ts" := Sample.hello_index ]};
     public_images := None |}.

End Broken.

(** * Properties *)

(** Literals stay folded in goals. *)
#[local] Opaque js.

(** ** Running the monad *)

Lemma bind_run {A B} (m : M A) (k : A -> M B) (w : World) :
  (m ≫= k) w =
    match m w with
    | (Ret a, w') => k a w'
    | (Exit c, w') => (Exit c, w')
    | (Throw e, w') => (Throw e, w')
    | (Blocked, w') => (Blocked, w')
    | (Elsewhere, w') => (Elsewhere, w')
    end.
Proof. reflexivity. Qed.

Lemma bind_ret {A B} (m : M A) (k : A -> M B) (w w' : World) (a : A) :
  m w = (Ret a, w') -> (m ≫= k) w = k a w'.
Proof. intros H. rewrite bind_run, H. reflexivity. Qed.

Lemma bind_throw {A B} (m : M A) (k : A -> M B) (w w' : World) (e : Exn) :
  m w = (Throw e, w') -> (m ≫= k) w = (Throw e, w').
Proof. intros H. rewrite bind_run, H. reflexivity. Qed.

Lemma getMarkdownFiles_run (w : World) :
  getMarkdownFiles w =
    (Ret (markdown_files (fsys w)), add_lines (markdown_files_log (fsys w)) w).
Proof.
  unfold getMarkdownFiles, markdown_files, markdown_files_log, add_lines.
  rewrite bind_run. simpl. destruct w as [fs c i]; simpl.
  destruct (blog_content fs); simpl; [|reflexivity].
  unfold mret, M_ret. rewrite app_nil_r. reflexivity.
Qed.

Lemma processMarkdownFile_run (file : jsstring) (w : World) :
  processMarkdownFile file w = (outcome_of (load (fsys w) file), w).
Proof.
  unfold processMarkdownFile, read_content, load.
  rewrite !bind_run. simpl.
  destruct (blog_content (fsys w)) as [entries|]; simpl; [|reflexivity].
  destruct (list_find _ entries) as [[i [n text]]|]; simpl; [|reflexivity].
  destruct (process_content (Js.utf8 text)); reflexivity.
Qed.

Lemma map_M_processMarkdownFile_run (files : list jsstring) (w : World) :
  map_M processMarkdownFile files w = (outcome_of (map_throw (load (fsys w)) files), w).
Proof.
  induction files as [|f files IH]; simpl; [reflexivity|].
  rewrite bind_run, processMarkdownFile_run.
  destruct (load (fsys w) f) as [e|a]; simpl; [reflexivity|].
  rewrite bind_run, IH.
  destruct (map_throw (load (fsys w)) files); reflexivity.
Qed.

(** Closed decidable facts by evaluation. *)
Ltac decide_by_compute :=
  match goal with
  | |- ?P => refine (@bool_decide_unpack P _ _); vm_compute; exact I
  end.

(** ** Deleting a slug that has no module *)

Lemma existsSync_output_true (name : jsstring) (w : World) :
  output_exists name (fsys w) = true -> existsSync_output name w = (Ret true, w).
Proof.
  intros H. unfold existsSync_output. rewrite bind_run. simpl. by rewrite H.
Qed.

Lemma existsSync_output_false (name : jsstring) (w : World) :
  is_file_name name = true -> output_exists name (fsys w) = false ->
  existsSync_output name w = (Ret false, w).
Proof.
  intros Hn H. unfold existsSync_output. rewrite bind_run. simpl. by rewrite H, Hn.
Qed.

Lemma deleteArticle_missing_run (slug : jsstring) (w : World) :
  is_file_name (slug ++ js ".ts") = true ->
  output_exists (slug ++ js ".ts") (fsys w) = false ->
  deleteArticle slug w =
    (Ret tt, add_line (Line (js "Article not found: " ++ slug) red) w).
Proof.
  intros Hn H. unfold deleteArticle.
  rewrite bind_run, existsSync_output_false by done. reflexivity.
Qed.

(** C4. When the module name of the slug is a file name and the output
    directory holds no such module, [deleteArticle] prints the not-found
    line and returns, and the file system it leaves is the one it found: the
    index file and every generated module hold what they held, and nothing
    else on disk has changed. *)
Theorem deleteArticle_missing_leaves_output (slug : jsstring) (w : World) :
  is_file_name (slug ++ js ".ts") = true ->
  output_exists (slug ++ js ".ts") (fsys w) = false ->
  exists w',
    deleteArticle slug w = (Ret tt, w') /\
    console w' = console w ++ [Line (js "Article not found: " ++ slug) red] /\
    fsys w' = fsys w /\
    output_file (fsys w') (js "index.ts") = output_file (fsys w) (js "index.ts") /\
    (forall name, output_file (fsys w') name = output_file (fsys w) name).
Proof.
  intros Hn H. eexists. split; [by apply deleteArticle_missing_run|].
  repeat split.
Qed.

Lemma deleteArticle_missing_witness :
  is_file_name (js "missing-slug" ++ js ".ts") = true /\
  output_exists (js "missing-slug" ++ js ".ts") (fsys (Sample.world Sample.built)) = false /\
  exists w',
    deleteArticle (js "missing-slug") (Sample.world Sample.built) = (Ret tt, w') /\
    console w' = [Line (js "Article not found: " ++ js "missing-slug") red] /\
    fsys w' = Sample.built.
Proof.
  assert (Hn : is_file_name (js "missing-slug" ++ js ".ts") = true) by (vm_compute; reflexivity).
  assert (H : output_exists (js "missing-slug" ++ js ".ts")
                (fsys (Sample.world Sample.built)) = false) by (vm_compute; reflexivity).
  split; [exact Hn|]. split; [exact H|].
  destruct (deleteArticle_missing_leaves_output (js "missing-slug")
              (Sample.world Sample.built) Hn H) as (w' & Hrun & Hc & Hfs & _).
  exists w'. split; [exact Hrun|]. split; [exact Hc | exact Hfs].
Defined.

Lemma unlink_output_run (name : jsstring) (w : World) (m : gmap (list ascii) (list ascii)) :
  output_data (fsys w) = Some m -> is_Some (m !! name) ->
  unlink_output name w = (Ret tt, with_fs (set_output (delete name m) (fsys w)) w).
Proof.
  intros Hm Hn. unfold unlink_output. rewrite bind_run. simpl. rewrite Hm.
  rewrite bool_decide_true by done. reflexivity.
Qed.

Lemma write_output_run (name text : jsstring) (w : World) (m : gmap (list ascii) (list ascii)) :
  is_file_name name = true ->
  output_data (fsys w) = Some m ->
  write_output name text w = (Ret tt, with_fs (set_output (<[name := text]> m) (fsys w)) w).
Proof.
  intros Hn Hm. unfold write_output. rewrite Hn, bind_run. simpl. rewrite Hm. reflexivity.
Qed.

Lemma write_output_elsewhere (name text : jsstring) (w : World) :
  is_file_name name = false -> write_output name text w = (Elsewhere, w).
Proof. intros Hn. unfold write_output. by rewrite Hn. Qed.

Lemma index_is_file_name : is_file_name (js "index.ts") = true.
Proof. vm_compute. reflexivity. Qed.

Lemma output_exists_true (name : jsstring) (fs : FileSystem) :
  output_exists name fs = true <-> exists m, output_data fs = Some m /\ is_Some (m !! name).
Proof.
  unfold output_exists. destruct (output_data fs) as [m|].
  - rewrite bool_decide_eq_true. split; [eauto|]. intros (m' & [= <-] & H). done.
  - split; [done|]. intros (m' & [=] & _).
Qed.

(** C8. When the module of the slug exists and no markdown file is left,
    [deleteArticle] returns normally and [index.ts] then holds [emptyIndex]:
    a module that declares an empty [blogPosts] mapping and an empty
    [blogPostsMeta] listing and whose category and tag functions return the
    empty array. *)
Theorem delete_last_article_writes_empty_index (slug : jsstring) (w : World) :
  output_exists (slug ++ js ".ts") (fsys w) = true ->
  markdown_files (fsys w) = [] ->
  exists w', deleteArticle slug w = (Ret tt, w') /\
    (exists m', output_data (fsys w') = Some m' /\ m' !! js "index.ts" = Some emptyIndex) /\
    has_line (js "export const blogPosts: Record<string, BlogPost> = {}") emptyIndex /\
    has_line (js "export const blogPostsMeta: BlogPostMeta[] = []") emptyIndex /\
    Js.includes (js "export function getAllCategories(): string[] {
  return []
}") emptyIndex = true /\
    Js.includes (js "export function getAllTags(): string[] {
  return []
}") emptyIndex = true.
Proof.
  intros Hex Hmd.
  apply output_exists_true in Hex as Hex'. destruct Hex' as (m & Hm & Hn).
  unfold deleteArticle. rewrite bind_run, existsSync_output_true by done. cbn [negb].
  rewrite bind_run, (unlink_output_run _ _ m Hm Hn).
  rewrite bind_run. simpl.
  rewrite bind_run, getMarkdownFiles_run. simpl. change (markdown_files (set_output _ (fsys w))) with (markdown_files (fsys w)). rewrite Hmd. simpl.
  do 2 rewrite bind_run.
  rewrite (write_output_run _ _ _ (delete (slug ++ js ".ts") m) index_is_file_name)
    by reflexivity.
  eexists. split; [reflexivity|]. simpl.
  split; [eexists; split; [reflexivity|apply lookup_insert_eq]|].
  repeat split; try (vm_compute; reflexivity);
    unfold has_line; decide_by_compute.
Qed.
Lemma delete_last_article_witness :
  output_exists (js "hello-world" ++ js ".ts") (fsys (Sample.world Sample.orphaned)) = true /\
  markdown_files (fsys (Sample.world Sample.orphaned)) = [] /\
  exists w', deleteArticle (js "hello-world") (Sample.world Sample.orphaned) = (Ret tt, w') /\
    exists m', output_data (fsys w') = Some m' /\ m' !! js "index.ts" = Some emptyIndex.
Proof.
  assert (H1 : output_exists (js "hello-world" ++ js ".ts")
                 (fsys (Sample.world Sample.orphaned)) = true) by (vm_compute; reflexivity).
  assert (H2 : markdown_files (fsys (Sample.world Sample.orphaned)) = [])
    by (vm_compute; reflexivity).
  split; [exact H1|]. split; [exact H2|].
  destruct (delete_last_article_writes_empty_index _ _ H1 H2) as (w' & Hrun & Hidx & _).
  exists w'. split; [exact Hrun | exact Hidx].
Defined.

Lemma filter_none {A} (P : A -> Prop) `{forall x, Decision (P x)} (l : list A) :
  (forall x, x ∈ l -> ~ P x) -> filter P l = [].
Proof.
  induction l as [|x l IH]; intros Hl; [reflexivity|].
  rewrite filter_cons_False by (apply Hl; left).
  apply IH. intros y Hy. apply Hl. by right.
Qed.

Lemma Js_eqb_ne (a b : jsstring) : a <> b -> Js.eqb a b = false.
Proof. intros H. unfold Js.eqb. by rewrite bool_decide_false. Qed.

Lemma Js_eqb_eq (a b : jsstring) : Js.eqb a b = true <-> a = b.
Proof. unfold Js.eqb. apply bool_decide_eq_true. Qed.

Lemma build_missing_run (target : jsstring) (w : World) :
  target <> js "all" ->
  (forall f, f ∈ markdown_files (fsys w) -> basename_md f <> target) ->
  build target w =
    (Ret tt,
     add_lines
       ([Blank; Line (js "Starting blog build...") bright; Blank]
        ++ markdown_files_log (fsys w)
        ++ [Line (if bool_decide (length (markdown_files (fsys w)) = 0)
                  then js "No markdown files found!"
                  else js "Article not found: " ++ target) red]) w).
Proof.
  intros Hall Hnone. unfold build.
  do 3 (rewrite bind_run; simpl).
  rewrite bind_run, getMarkdownFiles_run. simpl.
  unfold add_lines, log, print; simpl.
  case_bool_decide as Hlen.
  - simpl. rewrite <- !app_assoc. reflexivity.
  - rewrite !(Js_eqb_ne target (js "all")) by done.
    rewrite (filter_none _ _ Hnone). simpl.
    rewrite <- !app_assoc. reflexivity.
Qed.

(** C1 does not hold of the script. A run that names, behind the delete
    flag, a slug that has no generated module, or, as a bare argument other
    than [all], a slug that has no markdown file, does report the error (a
    red line, printed last: the not-found line of the slug, or that there
    are no markdown files) and leaves the file system as it was; but then
    [main] returns, and the exit status of the process is 0, not the
    non-zero status the claim demands. *)
Theorem missing_slug_reported_exit_zero (args : list jsstring) (slug : jsstring) (w : World) :
  missing_slug_invocation (fsys w) args slug ->
  exists w' msg,
    script args w = (Ret tt, w') /\
    exit_status (script args w).1 = Some 0%Z /\
    fsys w' = fsys w /\
    last (console w') = Some (Line msg red) /\
    (msg = js "Article not found: " ++ slug \/ msg = js "No markdown files found!").
Proof.
  intros [args' slug' Hdel Hd Hafter Hne Hdash Hname Hout
         | slug' rest Hdel Hd Hall Hdash Hnall Hnone].
  - destruct slug' as [|c s]; [done|].
    assert (Hrun : script args' w =
      (Ret tt, add_line (Line (js "Article not found: " ++ c :: s) red) w)).
    { unfold script, main. rewrite Hdel, Hd, Hafter, Hdash.
      rewrite deleteArticle_missing_run by done. reflexivity. }
    eexists _, _. rewrite Hrun. simpl.
    split; [reflexivity|]. split; [reflexivity|]. split; [reflexivity|].
    split; [apply last_snoc|]. by left.
  - assert (Hrun : script (slug' :: rest) w = build slug' w).
    { unfold script, main. rewrite Hdel, Hd, Hall, Hdash. simpl.
      rewrite (build_missing_run _ _ Hnall Hnone). reflexivity. }
    rewrite Hrun, (build_missing_run _ _ Hnall Hnone).
    eexists _, _. split; [reflexivity|]. split; [reflexivity|]. split; [reflexivity|].
    split.
    + unfold add_lines; cbn [console]. rewrite !app_assoc. apply last_snoc.
    + case_bool_decide; [by right | by left].
Qed.

Lemma missing_slug_invocation_sample :
  missing_slug_invocation (fsys (Sample.world Sample.built))
    [js "-d"; js "missing-slug"] (js "missing-slug").
Proof.
  apply delete_flag_missing; try (vm_compute; reflexivity). discriminate.
Defined.

Lemma missing_slug_witness :
  exists w' msg,
    script [js "-d"; js "missing-slug"] (Sample.world Sample.built) = (Ret tt, w') /\
    exit_status (script [js "-d"; js "missing-slug"] (Sample.world Sample.built)).1 = Some 0%Z /\
    fsys w' = fsys (Sample.world Sample.built) /\
    last (console w') = Some (Line msg red) /\
    (msg = js "Article not found: " ++ js "missing-slug" \/ msg = js "No markdown files found!").
Proof.
  exact (missing_slug_reported_exit_zero _ _ _ missing_slug_invocation_sample).
Defined.

(** Both kinds of run on the sample site: for the delete flag with a slug
    that has no module, and for a bare slug that has no markdown file, the
    process does not exit with a non-zero status. *)
Lemma missing_slug_exit_status_not_nonzero :
  missing_slug_invocation (fsys (Sample.world Sample.built))
    [js "-d"; js "missing-slug"] (js "missing-slug") /\
  missing_slug_invocation (fsys (Sample.world Sample.built))
    [js "no-such-article"] (js "no-such-article") /\
  ~ (exists c, exit_status (script [js "-d"; js "missing-slug"] (Sample.world Sample.built)).1
               = Some c /\ c <> 0%Z) /\
  ~ (exists c, exit_status (script [js "no-such-article"] (Sample.world Sample.built)).1
               = Some c /\ c <> 0%Z).
Proof.
  split; [exact missing_slug_invocation_sample|].
  split.
  { apply bare_slug_missing; try (vm_compute; reflexivity); [discriminate|].
    intros f Hf. vm_compute in Hf. apply list_elem_of_singleton in Hf as ->.
    vm_compute. discriminate. }
  split; intros (c & Hc & Hnz); vm_compute in Hc; congruence.
Qed.

(** The same error at the prompt does end the process with status 1:
    [promptUser] calls [process.exit(1)] for a slug it does not know. *)
Lemma unknown_slug_at_prompt_exits_1 :
  exit_status
    (script [] {| fsys := Sample.built; console := [];
                  stdin := [js "b"; js "no-such-article"] |}).1 = Some 1%Z /\
  last (console
          (script [] {| fsys := Sample.built; console := [];
                        stdin := [js "b"; js "no-such-article"] |}).2)
    = Some (Line (js "Article not found: no-such-article") red).
Proof. split; vm_compute; reflexivity. Qed.
(** ** Writes *)

Lemma write_all_snoc ws kv m :
  write_all (ws ++ [kv]) m = <[kv.1 := kv.2]> (write_all ws m).
Proof. unfold write_all. rewrite foldl_app. reflexivity. Qed.

Lemma write_all_app ws1 ws2 m :
  write_all (ws1 ++ ws2) m = write_all ws2 (write_all ws1 m).
Proof. unfold write_all. apply foldl_app. Qed.

Lemma write_all_union ws m :
  write_all ws m = list_to_map (reverse ws) ∪ m.
Proof.
  induction ws as [|kv ws IH] using rev_ind.
  - simpl. by rewrite (left_id_L ∅ (∪)).
  - rewrite write_all_snoc, IH, reverse_snoc. simpl.
    by rewrite insert_union_l.
Qed.

Lemma write_all_idem ws m : write_all ws (write_all ws m) = write_all ws m.
Proof.
  rewrite !write_all_union, (assoc_L (∪)), (idemp_L (∪)). reflexivity.
Qed.

Lemma write_all_lookup_notin ws m k :
  k ∉ ws.*1 -> write_all ws m !! k = m !! k.
Proof.
  induction ws as [|[k' v'] ws IH] using rev_ind; [done|].
  rewrite fmap_app, not_elem_of_app. simpl. intros [H1 H2].
  rewrite write_all_snoc. simpl. rewrite lookup_insert_ne; [by apply IH|].
  intros ->. apply H2. by left.
Qed.

Lemma write_all_lookup_in ws m k :
  k ∈ ws.*1 -> exists v, (k, v) ∈ ws /\ write_all ws m !! k = Some v /\
                         forall m', write_all ws m' !! k = Some v.
Proof.
  induction ws as [|[k' v'] ws IH] using rev_ind; [by intros ?%elem_of_nil|].
  rewrite fmap_app, elem_of_app. simpl. intros Hin.
  destruct (decide (k' = k)) as [->|Hne].
  - exists v'. split; [apply elem_of_app; right; by left|].
    split; [|intros m']; rewrite write_all_snoc; simpl; apply lookup_insert_eq.
  - destruct Hin as [Hin|Hin%list_elem_of_singleton]; [|done].
    destruct (IH Hin) as (v & Hv & Hl & Hl').
    exists v. split; [apply elem_of_app; by left|].
    split; [|intros m']; rewrite write_all_snoc; simpl; rewrite lookup_insert_ne by done; auto.
Qed.

Lemma upd_upd pw1 ow1 l1 pw2 ow2 l2 w :
  upd pw2 ow2 l2 (upd pw1 ow1 l1 w) =
  upd (then_writes pw1 pw2) (then_writes ow1 ow2) (l1 ++ l2) w.
Proof.
  unfold upd, upd_fs. simpl. rewrite app_assoc.
  destruct pw1, pw2, ow1, ow2; simpl; rewrite ?write_all_app; reflexivity.
Qed.

Lemma sources_upd pw ow l w : sources (fsys (upd pw ow l w)) = sources (fsys w).
Proof. destruct pw, ow; reflexivity. Qed.

Lemma upd_fs_idem pw ow fs : upd_fs pw ow (upd_fs pw ow fs) = upd_fs pw ow fs.
Proof.
  unfold upd_fs. destruct pw, ow; simpl; rewrite ?write_all_idem; reflexivity.
Qed.

Lemma upd_nothing w : upd None None [] w = w.
Proof. unfold upd, upd_fs. rewrite app_nil_r. by destruct w. Qed.

(** ** Writers *)

Lemma writer_ret {A} s (a : A) : writer s (mret a).
Proof. exists None, None, (Ret a), []. intros w _. by rewrite upd_nothing. Qed.

Lemma writer_bind {A B} s (m : M A) (k : A -> M B) :
  writer s m -> (forall a, writer s (k a)) -> writer s (m ≫= k).
Proof.
  intros (pw & ow & o & l & Hm) Hk. destruct o as [a|c|e| |].
  - destruct (Hk a) as (pw' & ow' & o' & l' & Hk').
    exists (then_writes pw pw'), (then_writes ow ow'), o', (l ++ l').
    intros w Hs. rewrite (bind_ret _ _ _ _ _ (Hm w Hs)).
    rewrite Hk' by (by rewrite sources_upd). by rewrite upd_upd.
  - exists pw, ow, (Exit c), l. intros w Hs. by rewrite bind_run, (Hm w Hs).
  - exists pw, ow, (Throw e), l. intros w Hs. by rewrite bind_run, (Hm w Hs).
  - exists pw, ow, Blocked, l. intros w Hs. by rewrite bind_run, (Hm w Hs).
  - exists pw, ow, Elsewhere, l. intros w Hs. by rewrite bind_run, (Hm w Hs).
Qed.

Lemma writer_print s (line : ConsoleLine) : writer s (print line).
Proof. exists None, None, (Ret tt), [line]. intros w _. reflexivity. Qed.

Lemma writer_log s msg c : writer s (log msg c).
Proof. apply writer_print. Qed.

Lemma writer_box s c middle : writer s (box c middle).
Proof. unfold box. repeat (apply writer_bind; [|intros _]); apply writer_log. Qed.

Lemma writer_getMarkdownFiles s : writer s getMarkdownFiles.
Proof.
  destruct s as [[d c] i].
  exists None, None,
    (Ret (markdown_files {| BLOG_CONTENT_DIR := d; blog_content := c; blog_images := i;
                            output_data := None; public_images := None |})),
    (markdown_files_log {| BLOG_CONTENT_DIR := d; blog_content := c; blog_images := i;
                           output_data := None; public_images := None |}).
  intros w Hs. rewrite getMarkdownFiles_run.
  unfold sources in Hs. injection Hs as <- <- <-. reflexivity.
Qed.

Lemma writer_map_M_process s (f : jsstring -> M unit) files :
  (forall file, writer s (f file)) ->
  writer s (map_M (fun file => f file;; processMarkdownFile file) files).
Proof.
  intros Hf. induction files as [|file files IH]; simpl; [apply writer_ret|].
  apply writer_bind.
  - apply writer_bind; [apply Hf|]. intros _.
    destruct s as [[d c] i].
    exists None, None,
      (outcome_of (load {| BLOG_CONTENT_DIR := d; blog_content := c; blog_images := i;
                           output_data := None; public_images := None |} file)), [].
    intros w Hs. rewrite processMarkdownFile_run, upd_nothing.
    unfold sources in Hs. injection Hs as <- <- <-. reflexivity.
  - intros a. apply writer_bind; [apply IH|]. intros ys. apply writer_ret.
Qed.
(** ** [generateTypeScriptFiles] and [copyImages] as writes *)

Lemma set_output_same fs m : output_data fs = Some m -> set_output m fs = fs.
Proof. destruct fs; simpl; intros ->; reflexivity. Qed.

Lemma set_public_same fs m : public_images fs = Some m -> set_public m fs = fs.
Proof. destruct fs; simpl; intros ->; reflexivity. Qed.

Lemma for_each_articles_run (articles : list Article) (w : World)
    (m : gmap (list ascii) (list ascii)) :
  output_data (fsys w) = Some m ->
  for_each articles (fun article =>
    articleContent ← lift (articleContent article);
    write_output (module_file article) articleContent;;
    log (js "  Generated: " ++ module_file article) green) w =
  (match (article_writes articles).2 with None => Ret tt | Some st => stopped st end,
   {| fsys := set_output (write_all (article_writes articles).1 m) (fsys w);
      console := console w ++ map generated_line (article_writes articles).1;
      stdin := stdin w |}).
Proof.
  revert w m. induction articles as [|a articles IH]; intros w m Hm; simpl.
  - rewrite app_nil_r, (set_output_same _ _ Hm). by destruct w.
  - rewrite !bind_run.
    destruct (articleContent a) as [e|text]; simpl.
    + rewrite app_nil_r, (set_output_same _ _ Hm). by destruct w.
    + destruct (is_file_name (module_file a)) eqn:Hn.
      * rewrite bind_run, (write_output_run _ _ _ m Hn Hm). simpl.
        rewrite (IH _ (<[module_file a := text]> m)) by reflexivity.
        destruct (article_writes articles) as [ws e]. simpl.
        rewrite <- app_assoc. reflexivity.
      * rewrite bind_run, (write_output_elsewhere _ _ _ Hn). simpl.
        rewrite app_nil_r, (set_output_same _ _ Hm). by destruct w.
Qed.

Lemma generateTypeScriptFiles_run (articles : list Article) (w : World) :
  generateTypeScriptFiles articles w =
    ((generate_writes articles).2,
     upd None (Some (generate_writes articles).1)
       (map generated_line (generate_writes articles).1) w).
Proof.
  unfold generateTypeScriptFiles, generate_writes.
  rewrite bind_run. simpl. rewrite bind_run.
  set (w1 := ((if output_data (fsys w) is None then put_fs (set_output ∅ (fsys w))
               else mret tt) w).2).
  assert (Hw1 : (if output_data (fsys w) is None then put_fs (set_output ∅ (fsys w))
                 else mret tt) w = (Ret tt, w1)).
  { subst w1. by destruct (output_data (fsys w)). }
  assert (Hm1 : output_data (fsys w1) = Some (default ∅ (output_data (fsys w)))).
  { subst w1. by destruct (output_data (fsys w)) eqn:E. }
  assert (Hfs : forall m, set_output m (fsys w1) = set_output m (fsys w)).
  { intros m. subst w1. by destruct (output_data (fsys w)). }
  assert (Hc : console w1 = console w /\ stdin w1 = stdin w).
  { subst w1. by destruct (output_data (fsys w)). }
  destruct Hc as [Hc Hi].
  rewrite Hw1. rewrite bind_run, (for_each_articles_run _ _ _ Hm1).
  rewrite Hfs, Hc, Hi.
  destruct (article_writes articles) as [ws [[e|]|]]; simpl; [reflexivity..|].
  rewrite bind_run.
  destruct (indexContent articles) as [e|text]; simpl; [reflexivity|].
  rewrite bind_run, (write_output_run _ _ _ _ index_is_file_name) by reflexivity.
  unfold upd, upd_fs. simpl. rewrite write_all_snoc, map_app, app_assoc. simpl.
  reflexivity.
Qed.

Lemma writer_generateTypeScriptFiles s articles : writer s (generateTypeScriptFiles articles).
Proof.
  eexists None, (Some _), _, _. intros w _. apply generateTypeScriptFiles_run.
Qed.

Lemma for_each_images_run (images : list (jsstring * DirEntry)) (w : World)
    (p : gmap (list ascii) (list ascii)) :
  public_images (fsys w) = Some p ->
  for_each images (fun '(image, entry) =>
    match entry with
    | RegularFile bytes =>
        fs ← get_fs;
        put_fs (set_public (<[image := bytes]> (default ∅ (public_images fs))) fs);;
        log (js "  Copied: " ++ image) cyan
    | NotAFile => mret tt
    end) w =
  (Ret tt,
   {| fsys := set_public (write_all (image_writes images) p) (fsys w);
      console := console w ++ map copied_line (image_writes images);
      stdin := stdin w |}).
Proof.
  revert w p. induction images as [|[image [bytes|]] images IH]; intros w p Hp; simpl.
  - rewrite app_nil_r, (set_public_same _ _ Hp). by destruct w.
  - rewrite !bind_run. simpl. rewrite Hp. simpl.
    rewrite (IH _ (<[image := bytes]> p)) by reflexivity. simpl.
    rewrite <- app_assoc. reflexivity.
  - rewrite bind_run. simpl. by apply IH.
Qed.

Lemma copyImages_run (w : World) :
  copyImages w =
    (Ret tt,
     match blog_images (fsys w) with
     | None => upd None None [Line (js "No images directory found, skipping image copy") yellow] w
     | Some images =>
         upd (Some (image_writes images)) None (map copied_line (image_writes images)) w
     end).
Proof.
  unfold copyImages. rewrite bind_run. simpl.
  destruct (blog_images (fsys w)) as [images|]; [|reflexivity].
  rewrite bind_run.
  destruct (public_images (fsys w)) as [p|] eqn:Hp; simpl.
  - rewrite (for_each_images_run _ _ p Hp). unfold upd, upd_fs. rewrite Hp. reflexivity.
  - rewrite (for_each_images_run _ _ ∅) by reflexivity.
    unfold upd, upd_fs. rewrite Hp. reflexivity.
Qed.

Lemma writer_copyImages s : writer s copyImages.
Proof.
  destruct s as [[d c] i].
  destruct i as [images|].
  - exists (Some (image_writes images)), None, (Ret tt), (map copied_line (image_writes images)).
    intros w Hs. rewrite copyImages_run.
    unfold sources in Hs. injection Hs as _ _ ->. reflexivity.
  - eexists None, None, (Ret tt), _.
    intros w Hs. rewrite copyImages_run.
    unfold sources in Hs. injection Hs as _ _ ->. reflexivity.
Qed.

Lemma writer_build_all s : writer s (build (js "all")).
Proof.
  unfold build.
  do 3 (apply writer_bind; [apply writer_print|intros _]).
  apply writer_bind; [apply writer_getMarkdownFiles|intros files].
  case_bool_decide; [apply writer_log|].
  replace (Js.eqb (js "all") (js "all")) with true by (vm_compute; reflexivity).
  case_bool_decide; [apply writer_log|].
  apply writer_bind; [apply writer_log|intros _].
  apply writer_bind.
  { apply (writer_map_M_process s (fun file => log (js "  Reading: " ++ file) cyan)).
    intros file. apply writer_log. }
  intros articles.
  apply writer_bind; [apply writer_print|intros _].
  apply writer_bind; [apply writer_log|intros _].
  apply writer_bind; [apply writer_copyImages|intros _].
  apply writer_bind; [apply writer_print|intros _].
  apply writer_bind; [apply writer_log|intros _].
  apply writer_bind; [simpl; apply writer_generateTypeScriptFiles|intros _].
  apply writer_bind; [apply writer_print|intros _].
  apply writer_bind; [apply writer_box|intros _].
  apply writer_print.
Qed.
(** ** Build-all is idempotent and a function of the sources *)

Lemma output_file_upd_fs pw ow fs name :
  output_file (upd_fs pw ow fs) name =
    match ow with
    | None => output_file fs name
    | Some ws => write_all ws (default ∅ (output_data fs)) !! name
    end.
Proof. unfold output_file, upd_fs. destruct pw, ow; reflexivity. Qed.

(** C7. Running build-all twice in succession leaves the file system exactly
    as the first run left it (every generated module and the index are
    byte-identical) and ends the same way; and in two worlds with the same
    markdown and image sources build-all ends the same way and every file of
    the output directory is either generated with the same bytes in both or
    left as it was in both. *)
Theorem build_all_idempotent :
  (forall w,
     (build (js "all") (build (js "all") w).2).1 = (build (js "all") w).1 /\
     fsys (build (js "all") (build (js "all") w).2).2 = fsys (build (js "all") w).2) /\
  (forall w w',
     sources (fsys w) = sources (fsys w') ->
     (build (js "all") w).1 = (build (js "all") w').1 /\
     forall name,
       output_file (fsys (build (js "all") w).2) name =
         output_file (fsys (build (js "all") w').2) name \/
       (output_file (fsys (build (js "all") w).2) name = output_file (fsys w) name /\
        output_file (fsys (build (js "all") w').2) name = output_file (fsys w') name)).
Proof.
  split.
  - intros w.
    destruct (writer_build_all (sources (fsys w))) as (pw & ow & o & l & H).
    rewrite (H w eq_refl). simpl.
    rewrite (H (upd pw ow l w)) by apply sources_upd. simpl.
    split; [reflexivity|apply upd_fs_idem].
  - intros w w' Hs.
    destruct (writer_build_all (sources (fsys w))) as (pw & ow & o & l & H).
    rewrite (H w eq_refl), (H w') by done. simpl.
    split; [reflexivity|]. intros name.
    rewrite !output_file_upd_fs. destruct ow as [ws|]; [|by right].
    destruct (decide (name ∈ ws.*1)) as [Hin|Hin].
    + left. destruct (write_all_lookup_in ws ∅ name Hin) as (v & _ & _ & Hv).
      by rewrite !Hv.
    + right. rewrite !write_all_lookup_notin by done.
      unfold output_file. by destruct (output_data (fsys w)), (output_data (fsys w')).
Qed.
(** ** [deleteArticle] when the module exists *)

Lemma article_writes_ok (articles : list Article) ws :
  article_writes articles = (ws, None) ->
  Forall2 (fun a kv => kv.1 = module_file a /\ articleContent a = inr kv.2) articles ws.
Proof.
  revert ws. induction articles as [|a articles IH]; intros ws; simpl.
  - intros [= <-]. constructor.
  - destruct (articleContent a) as [e|text] eqn:Ha; [intros [=]|].
    destruct (is_file_name (module_file a)); [|intros [=]].
    destruct (article_writes articles) as [ws' e']. intros [= <- ->].
    constructor; [by split|by apply IH].
Qed.

Lemma article_writes_file_names (articles : list Article) ws :
  article_writes articles = (ws, None) ->
  Forall (fun a => is_file_name (module_file a) = true) articles.
Proof.
  revert ws. induction articles as [|a articles IH]; intros ws; simpl.
  - constructor.
  - destruct (articleContent a) as [e|text] eqn:Ha; [intros [=]|].
    destruct (is_file_name (module_file a)) eqn:Hn; [|intros [=]].
    destruct (article_writes articles) as [ws' e']. intros [= <- ->].
    constructor; [done|by eapply IH].
Qed.

Lemma generate_writes_ok (articles : list Article) ws :
  generate_writes articles = (ws, Ret tt) ->
  exists aw text,
    ws = aw ++ [(js "index.ts", text)] /\
    indexContent articles = inr text /\
    Forall2 (fun a kv => kv.1 = module_file a /\ articleContent a = inr kv.2) articles aw.
Proof.
  unfold generate_writes.
  destruct (article_writes articles) as [aw [[e|]|]] eqn:Haw; [intros [=]..|].
  destruct (indexContent articles) as [e|text]; [intros [=]|].
  intros [= <-]. exists aw, text. split; [done|]. split; [done|].
  by apply article_writes_ok.
Qed.

Lemma map_throw_length {A B} (f : A -> Exn + B) xs ys :
  map_throw f xs = inr ys -> Forall2 (fun x y => f x = inr y) xs ys.
Proof.
  revert ys. induction xs as [|x xs IH]; intros ys; simpl.
  - intros [= <-]. constructor.
  - destruct (f x) as [e|y] eqn:Hx; [intros [=]|].
    destruct (map_throw f xs) as [e|ys']; [intros [=]|].
    intros [= <-]. constructor; [done|by apply IH].
Qed.




Lemma sources_load fs fs' : sources fs = sources fs' -> load fs = load fs'.
Proof. unfold sources, load. by intros [= _ -> _]. Qed.







(** The removal shows when no markdown file declares the slug any more: the
    module is gone for good. *)
Lemma delete_is_permanent_without_source :
  output_exists (js "hello-world" ++ js ".ts") (fsys (Sample.world Sample.orphaned)) = true /\
  output_file (fsys (deleteArticle (js "hello-world") (Sample.world Sample.orphaned)).2)
    (js "hello-world" ++ js ".ts") = None.
Proof. split; vm_compute; reflexivity. Qed.

(** ** String search *)

Lemma startsWith_app (p r : jsstring) : Js.startsWith p (p ++ r) = true.
Proof.
  induction p as [|a p IH]; [reflexivity|]. simpl.
  by rewrite Ascii.eqb_refl, IH.
Qed.

Lemma startsWith_true (p s : jsstring) :
  Js.startsWith p s = true <-> exists r, s = p ++ r.
Proof.
  split; [|intros [r ->]; apply startsWith_app].
  revert s. induction p as [|a p IH]; intros s; [by exists s|].
  destruct s as [|b s]; simpl; [done|].
  intros [Hab Hp]%andb_true_iff. apply Ascii.eqb_eq in Hab as ->.
  destruct (IH _ Hp) as [r ->]. by exists r.
Qed.

Lemma startsWith_drop (p s : jsstring) :
  Js.startsWith p s = true -> s = p ++ drop (length p) s.
Proof.
  intros [r ->]%startsWith_true. by rewrite drop_app_length.
Qed.

Lemma indexOf_Some (p s : jsstring) (k : nat) :
  Js.indexOf p s = Some k ->
  s = take k s ++ p ++ drop (k + length p) s /\ k <= length s.
Proof.
  revert k. induction s as [|c s IH]; intros k; simpl.
  - destruct (Js.startsWith p []) eqn:Hp; [|done].
    intros [= <-]. split; [|lia]. simpl. by apply startsWith_drop.
  - destruct (Js.startsWith p (c :: s)) eqn:Hp.
    + intros [= <-]. split; [|lia]. simpl. by apply startsWith_drop.
    + destruct (Js.indexOf p s) as [k'|]; [|done]. simpl. intros [= <-].
      destruct (IH k' eq_refl) as [E Hk]. split; [|lia]. simpl. by rewrite <- E.
Qed.

Lemma indexOf_None (p s : jsstring) :
  Js.indexOf p s = None -> forall a b, s <> a ++ p ++ b.
Proof.
  induction s as [|c s IH]; simpl.
  - destruct (Js.startsWith p []) eqn:Hp; [done|]. intros _ a b E.
    destruct a; simpl in E; [|done].
    rewrite E, startsWith_app in Hp. done.
  - destruct (Js.startsWith p (c :: s)) eqn:Hp; [done|].
    destruct (Js.indexOf p s) eqn:Hi; [done|]. intros _ a b E.
    destruct a as [|c' a]; simpl in E.
    + rewrite E, startsWith_app in Hp. done.
    + injection E as -> E. by apply (IH eq_refl a b).
Qed.

(** ** [parseFrontmatter] *)

Lemma frontmatterRegex_None (content : jsstring) :
  frontmatterRegex content = None <-> ~ has_delimiter_pair content.
Proof.
  unfold frontmatterRegex, has_delimiter_pair.
  change ([LF] ++ js "---" ++ [LF]) with FM_CLOSE. change (js "---" ++ [LF]) with FM_OPEN.
  destruct (Js.startsWith FM_OPEN content) eqn:Hs.
  - apply startsWith_drop in Hs. change (length FM_OPEN) with 4 in Hs.
    destruct (Js.indexOf FM_CLOSE (drop 4 content)) as [k|] eqn:Hi.
    + split; [done|]. intros H. exfalso. apply H.
      apply indexOf_Some in Hi as [E _].
      eexists _, _. rewrite Hs at 1. rewrite E at 1. reflexivity.
    + split; [|done]. intros _ (header & body & E).
      rewrite E in Hi. change 4 with (length FM_OPEN) in Hi.
      rewrite drop_app_length in Hi.
      by apply (indexOf_None _ _ Hi header body).
  - split; [|done]. intros _ (header & body & E).
    rewrite E, startsWith_app in Hs. done.
Qed.

Lemma frontmatterRegex_Some (content header body : jsstring) :
  frontmatterRegex content = Some (header, body) ->
  content = FM_OPEN ++ header ++ FM_CLOSE ++ body.
Proof.
  unfold frontmatterRegex.
  change ([LF] ++ js "---" ++ [LF]) with FM_CLOSE. change (js "---" ++ [LF]) with FM_OPEN.
  destruct (Js.startsWith FM_OPEN content) eqn:Hs; [|done].
  apply startsWith_drop in Hs. change (length FM_OPEN) with 4 in Hs. cbv zeta.
  destruct (Js.indexOf FM_CLOSE (drop 4 content)) as [k|] eqn:Hi; [|done].
  intros [= <- <-]. apply indexOf_Some in Hi as [E _].
  rewrite Hs at 1. rewrite E at 1. reflexivity.
Qed.

Lemma parseFrontmatter_matched (content header body : jsstring) :
  frontmatterRegex content = Some (header, body) ->
  exists fm, parseFrontmatter content = inr (fm, Js.trim body) /\
             is_array (fm !! js "tags") = true.
Proof.
  intros H. unfold parseFrontmatter. rewrite H. cbv beta iota zeta.
  eexists. split; [reflexivity|].
  match goal with |- context [if is_array ?x then _ else _] => destruct (is_array x) eqn:Ha end.
  - exact Ha.
  - by rewrite lookup_insert_eq.
Qed.

Lemma frontmatterRegex_first (header body : jsstring) :
  Js.indexOf FM_CLOSE (header ++ FM_CLOSE ++ body) = Some (length header) ->
  frontmatterRegex (FM_OPEN ++ header ++ FM_CLOSE ++ body) = Some (header, body).
Proof.
  intros Hi. unfold frontmatterRegex.
  change ([LF] ++ js "---" ++ [LF]) with FM_CLOSE. change (js "---" ++ [LF]) with FM_OPEN.
  rewrite startsWith_app. cbv zeta.
  replace (drop 4 (FM_OPEN ++ header ++ FM_CLOSE ++ body))
    with (header ++ FM_CLOSE ++ body) by (symmetry; apply (drop_app_length FM_OPEN)).
  rewrite Hi, take_app_length.
  replace (length header + 5) with (length header + length FM_CLOSE) by reflexivity.
  rewrite drop_app_add', drop_app_length by reflexivity. reflexivity.
Qed.

(** The lines of a text, and the text of its lines. *)
Lemma split_ne (sep : ascii) (s : jsstring) : Js.split sep s <> [].
Proof.
  destruct s as [|c s]; [done|]. cbn [Js.split].
  destruct (Ascii.eqb c sep); [done|]. by destruct (Js.split sep s).
Qed.

Lemma split_app_sep (sep : ascii) (a b : jsstring) :
  Js.split sep (a ++ sep :: b) = Js.split sep a ++ Js.split sep b.
Proof.
  induction a as [|c a IH]; cbn [app Js.split].
  - by rewrite Ascii.eqb_refl.
  - rewrite IH. destruct (Ascii.eqb c sep); [done|].
    pose proof (split_ne sep a). by destruct (Js.split sep a).
Qed.

Lemma split_without (sep : ascii) (s : jsstring) : sep ∉ s -> Js.split sep s = [s].
Proof.
  induction s as [|c s IH]; intros Hs; [reflexivity|].
  apply not_elem_of_cons in Hs as [Hc Hs]. cbn [Js.split].
  destruct (Ascii.eqb_spec c sep) as [E|_]; [done|]. by rewrite IH.
Qed.

Lemma join_cons_ne (sep x : jsstring) (xs : list jsstring) :
  xs <> [] -> Js.join sep (x :: xs) = x ++ sep ++ Js.join sep xs.
Proof. by destruct xs. Qed.

Lemma join_split (sep : ascii) (s : jsstring) : Js.join [sep] (Js.split sep s) = s.
Proof.
  induction s as [|c s IH]; [reflexivity|]. cbn [Js.split].
  destruct (Ascii.eqb_spec c sep) as [->|_].
  - rewrite join_cons_ne by apply split_ne. by rewrite IH.
  - pose proof (split_ne sep s). destruct (Js.split sep s) as [|l [|l' ls]]; [done|..].
    + simpl in *. by rewrite IH.
    + rewrite join_cons_ne by done. rewrite join_cons_ne in IH by done.
      cbn [app] in *. by rewrite IH.
Qed.

Lemma join_app (sep : jsstring) (xs ys : list jsstring) :
  xs <> [] -> ys <> [] ->
  Js.join sep (xs ++ ys) = Js.join sep xs ++ sep ++ Js.join sep ys.
Proof.
  intros Hx Hy. induction xs as [|x xs IH]; [done|].
  destruct xs as [|x' xs].
  - cbn [app]. by rewrite join_cons_ne.
  - change ((x :: x' :: xs) ++ ys) with (x :: (x' :: xs) ++ ys).
    rewrite join_cons_ne by done. rewrite IH by done.
    rewrite (join_cons_ne sep x (x' :: xs)) by done. by rewrite <- !app_assoc.
Qed.

Lemma existsb_dashes (ls : list jsstring) :
  existsb (fun l => Js.eqb l (js "---")) ls = true <-> js "---" ∈ ls.
Proof.
  rewrite existsb_exists. split.
  - intros (l & Hin & ->%Js_eqb_eq). by apply list_elem_of_In.
  - intros Hin. exists (js "---"). split; [by apply list_elem_of_In|by apply Js_eqb_eq].
Qed.

(** The delimiter pair of the frontmatter expression, on the lines of the
    text. *)
Lemma header_delimited_iff (content : jsstring) :
  header_delimited content = true <-> has_delimiter_pair content.
Proof.
  unfold header_delimited, has_delimiter_pair. split.
  - intros H. pose proof (join_split LF content) as Hjoin.
    destruct (Js.split LF content) as [|first [|h1 rest]]; [done..|].
    apply andb_true_iff in H as [->%Js_eqb_eq Hex].
    apply existsb_dashes, list_elem_of_split in Hex as (r1 & r2 & Hr).
    assert (Hrest : exists lst, rest = r1 ++ js "---" :: r2 ++ [lst]).
    { exists (List.last rest []).
      destruct (decide (rest = [])) as [->|Hne]; [by destruct r1|].
      rewrite (app_removelast_last [] Hne) at 1. rewrite Hr, <- app_assoc. reflexivity. }
    destruct Hrest as [lst ->].
    exists (Js.join [LF] (h1 :: r1)), (Js.join [LF] (r2 ++ [lst])).
    rewrite <- Hjoin.
    rewrite join_cons_ne by done.
    change (h1 :: r1 ++ js "---" :: r2 ++ [lst])
      with ((h1 :: r1) ++ js "---" :: r2 ++ [lst]).
    rewrite join_app by done.
    rewrite (join_cons_ne _ (js "---")) by (by destruct r2).
    unfold FM_OPEN, FM_CLOSE. by rewrite <- !app_assoc.
  - intros (header & body & ->).
    assert (E : Js.split LF (FM_OPEN ++ header ++ FM_CLOSE ++ body)
                = [js "---"] ++ Js.split LF header ++ [js "---"] ++ Js.split LF body).
    { unfold FM_OPEN, FM_CLOSE. rewrite <- !app_assoc. cbn [app].
      change (js "---" ++ LF :: header ++ LF :: js "---" ++ LF :: body)
        with (js "---" ++ LF :: (header ++ LF :: (js "---" ++ LF :: body))).
      rewrite !split_app_sep. by rewrite (split_without LF (js "---")) by decide_by_compute. }
    rewrite E. pose proof (split_ne LF header) as Hh. pose proof (split_ne LF body) as Hb.
    destruct (Js.split LF header) as [|h1 hs]; [done|]. cbn [app].
    rewrite (proj2 (Js_eqb_eq _ _) eq_refl). cbn [andb]. apply existsb_dashes.
    rewrite removelast_app by done. apply elem_of_app. right.
    destruct (Js.split LF body); [done|]. by left.
Qed.

Lemma header_delimited_pair (content : jsstring) :
  header_delimited content = true -> begins_with_delimiter_pair content = true.
Proof.
  unfold header_delimited, begins_with_delimiter_pair.
  destruct (Js.split LF content) as [|first [|h1 rest]]; [done..|].
  intros [->%Js_eqb_eq Hex%existsb_dashes]%andb_true_iff.
  apply andb_true_iff. split; [reflexivity|].
  apply existsb_exists. exists (js "---"). split; [|reflexivity].
  right. apply list_elem_of_In.
  destruct (decide (rest = [])) as [->|Hne]; [by apply elem_of_nil in Hex|].
  rewrite (app_removelast_last [] Hne). apply elem_of_app. by left.
Qed.

(** C5, corrected. [parseFrontmatter] throws, and then the format error,
    exactly when the text lacks the delimiter pair of the frontmatter
    expression: a first line [---] and a later line [---] that is neither the
    second line nor the last one, the lines being what a line feed separates.
    A text with that pair begins with a delimiter pair; for it the parser
    returns a frontmatter object, whose [tags] is an array, and the body: the
    trimmed text behind the first closing delimiter. *)
Theorem parseFrontmatter_fails_iff_no_delimiters (content : jsstring) :
  (parseFrontmatter content = inl (Error (js "Invalid frontmatter format")) <->
   header_delimited content = false) /\
  ((exists e, parseFrontmatter content = inl e) <-> header_delimited content = false) /\
  (header_delimited content = true <->
   exists fm body, parseFrontmatter content = inr (fm, body) /\
                   is_array (fm !! js "tags") = true) /\
  (header_delimited content = true -> begins_with_delimiter_pair content = true) /\
  (header_delimited content = true <->
   exists header body, content = js "---" ++ [LF] ++ header ++ [LF] ++ js "---" ++ [LF] ++ body) /\
  (forall header body,
     content = js "---" ++ [LF] ++ header ++ [LF] ++ js "---" ++ [LF] ++ body ->
     Js.indexOf ([LF] ++ js "---" ++ [LF]) (header ++ [LF] ++ js "---" ++ [LF] ++ body)
       = Some (length header) ->
     exists fm, parseFrontmatter content = inr (fm, Js.trim body)).
Proof.
  assert (Hinl : forall e, parseFrontmatter content = inl e -> frontmatterRegex content = None).
  { intros e. unfold parseFrontmatter.
    destruct (frontmatterRegex content) as [[h b]|]; [intros [=]|done]. }
  assert (Hnone : frontmatterRegex content = None ->
                  parseFrontmatter content = inl (Error (js "Invalid frontmatter format"))).
  { intros H. unfold parseFrontmatter. by rewrite H. }
  assert (Hfalse : header_delimited content = false <-> frontmatterRegex content = None).
  { rewrite frontmatterRegex_None, <- header_delimited_iff.
    by destruct (header_delimited content). }
  assert (Hshape : forall header body,
             js "---" ++ [LF] ++ header ++ [LF] ++ js "---" ++ [LF] ++ body
             = FM_OPEN ++ header ++ FM_CLOSE ++ body).
  { intros header body. unfold FM_OPEN, FM_CLOSE. by rewrite <- !app_assoc. }
  split; [|split; [|split; [|split; [|split]]]].
  - rewrite Hfalse. split; [apply Hinl|apply Hnone].
  - rewrite Hfalse. split; [intros [e He]; by eapply Hinl|eauto].
  - rewrite header_delimited_iff. split.
    + intros Hp. destruct (frontmatterRegex content) as [[h b]|] eqn:Hr.
      * destruct (parseFrontmatter_matched _ _ _ Hr) as (fm & Hfm & Ht). eauto.
      * by apply frontmatterRegex_None in Hr.
    + intros (fm & body & Hfm & _).
      destruct (frontmatterRegex content) as [[h b]|] eqn:Hr.
      * exists h, b. by apply frontmatterRegex_Some.
      * rewrite (Hnone eq_refl) in Hfm. done.
  - apply header_delimited_pair.
  - rewrite header_delimited_iff. unfold has_delimiter_pair.
    split; intros (h & b & E); exists h, b; by rewrite E, Hshape.
  - intros header body -> Hi. rewrite Hshape.
    change ([LF] ++ js "---" ++ [LF]) with FM_CLOSE in Hi.
    replace (header ++ [LF] ++ js "---" ++ [LF] ++ body)
      with (header ++ FM_CLOSE ++ body) in Hi by (unfold FM_CLOSE; by rewrite <- !app_assoc).
    destruct (parseFrontmatter_matched _ _ _ (frontmatterRegex_first _ _ Hi)) as (fm & Hfm & _).
    eauto.
Qed.

(** C5 as stated fails: these texts begin with a delimiter pair, and
    [parseFrontmatter] throws the format error.  In the first no line stands
    between the two delimiters; in the second the closing delimiter ends the
    text; in the third the lines end with a carriage return and a line feed.
    The same header with a line feed behind the closing delimiter is read. *)
Lemma delimiter_pair_without_header_fails :
  begins_with_delimiter_pair (js "---
---
body") = true /\
  parseFrontmatter (js "---
---
body") = inl (Error (js "Invalid frontmatter format")) /\
  begins_with_delimiter_pair (js "---
title: T
---") = true /\
  parseFrontmatter (js "---
title: T
---") = inl (Error (js "Invalid frontmatter format")) /\
  begins_with_delimiter_pair
    (js "---" ++ [CR; LF] ++ js "title: T" ++ [CR; LF] ++ js "---" ++ [CR; LF] ++ js "body")
    = true /\
  parseFrontmatter
    (js "---" ++ [CR; LF] ++ js "title: T" ++ [CR; LF] ++ js "---" ++ [CR; LF] ++ js "body")
    = inl (Error (js "Invalid frontmatter format")) /\
  parseFrontmatter (js "---
title: T
---
") = inr (<[js "tags" := VArr []]> (<[js "title" := VStr (js "T")]> ∅), []).
Proof.
  repeat split; vm_compute; reflexivity.
Qed.
(** ** The markup literal *)

Lemma escapeTemplate_cons (c : ascii) (s : jsstring) :
  escapeTemplate (c :: s) = escape_char c ++ escapeTemplate s.
Proof.
  unfold escapeTemplate, replace_char, escape_char. simpl.
  rewrite flat_map_app. f_equal.
  destruct (Ascii.eqb c "`") eqn:Hb.
  - reflexivity.
  - simpl. rewrite app_nil_r. reflexivity.
Qed.

(** Markup without a backslash and without a carriage return is read back
    from the generated literal as it was. *)
Lemma escapeTemplate_reads_back (s rest : jsstring) :
  "\"%char ∉ s -> CR ∉ s ->
  cook_template (escapeTemplate s ++ "`"%char :: rest) = Value s rest.
Proof.
  induction s as [|c s IH]; intros Hb Hc.
  - reflexivity.
  - apply not_elem_of_cons in Hb as [Hb1 Hb2]. apply not_elem_of_cons in Hc as [Hc1 Hc2].
    rewrite escapeTemplate_cons. unfold escape_char.
    destruct (Ascii.eqb c "`") eqn:E1.
    { apply Ascii.eqb_eq in E1 as ->. change (js "\`") with ["\"%char; "`"%char].
      simpl. rewrite IH by done. reflexivity. }
    destruct (Ascii.eqb c "$") eqn:E2.
    { apply Ascii.eqb_eq in E2 as ->. change (js "\$") with ["\"%char; "$"%char].
      simpl. rewrite IH by done. reflexivity. }
    simpl. rewrite E1, E2.
    rewrite (proj2 (Ascii.eqb_neq c "\")) by congruence.
    rewrite (proj2 (Ascii.eqb_neq c CR)) by congruence.
    rewrite IH by done. reflexivity.
Qed.

(** C2 fails on the code: [escapeTemplate] leaves a backslash as it is, so
    the literal of a markup with a backslash denotes another string (the
    backslash and [t] of [C:\temp] are read as a tab) or is no literal at all
    (the [\u] of [C:\users] is an ill-formed escape). *)
Theorem escapeTemplate_leaves_backslash :
  escapeTemplate (js "\") = js "\" /\
  escapeTemplate (markdownToHtml (js "C:\temp")) = markdownToHtml (js "C:\temp") /\
  content_value (markdownToHtml (js "C:\temp")) =
    Value (Html.P_OPEN ++ js "C:" ++ [TAB] ++ js "emp" ++ Html.P_CLOSE) [] /\
  content_value (markdownToHtml (js "C:\temp")) <> Value (markdownToHtml (js "C:\temp")) [] /\
  content_value (markdownToHtml (js "C:\users")) = SyntaxError.
Proof.
  repeat split; try (vm_compute; reflexivity).
  vm_compute. discriminate.
Qed.
(** ** Line terminators *)

Lemma is_terminator_head (t x : jsstring) : is_terminator t -> terminator (t ++ x) = length t.
Proof. intros [->|[->|[->| ->]]]; reflexivity. Qed.

Lemma is_terminator_ne (t : jsstring) : is_terminator t -> t <> [].
Proof. by intros [->|[->|[->| ->]]]. Qed.

Lemma terminator_le (s : jsstring) : terminator s <= length s.
Proof.
  destruct s as [|c s]; [done|]. unfold terminator.
  destruct (is_line_terminator c); [simpl; lia|].
  destruct (Js.startsWith LS (c :: s)) eqn:E1.
  { destruct s as [|d [|e s]]; simpl in *; rewrite ?andb_false_r in E1; try done. lia. }
  destruct (Js.startsWith PS (c :: s)) eqn:E2; [|simpl; lia].
  destruct s as [|d [|e s]]; simpl in *; rewrite ?andb_false_r in E2; try done. lia.
Qed.

Lemma terminator_starts_char (x : jsstring) : terminator x <> 0 -> starts_char x = true.
Proof.
  destruct x as [|c x]; [done|]. unfold terminator, starts_char.
  destruct c as [[] [] [] [] [] [] [] []]; try reflexivity; simpl; done.
Qed.

Lemma starts_char_terminator (t x : jsstring) : is_terminator t -> starts_char (t ++ x) = true.
Proof. intros [->|[->|[->| ->]]]; reflexivity. Qed.

Lemma eqb_continuation (n : nat) (d : ascii) :
  is_continuation (ascii_of_nat n) = true -> is_continuation d = false ->
  Ascii.eqb (ascii_of_nat n) d = false.
Proof.
  intros Hn Hd. destruct (Ascii.eqb_spec (ascii_of_nat n) d) as [<-|]; [congruence|done].
Qed.

(** What stands at the head of a text does not depend on what is appended,
    if that does not begin in the middle of a character. *)
Lemma startsWith_sep_app (sep u x : jsstring) :
  sep = LS \/ sep = PS -> u <> [] -> starts_char x = true ->
  Js.startsWith sep (u ++ x) = Js.startsWith sep u.
Proof.
  intros Hsep Hu Hx.
  assert (H128 : forall d, is_continuation d = false -> Ascii.eqb (ascii_of_nat 128) d = false).
  { intros d. by apply eqb_continuation. }
  assert (H168 : forall d, is_continuation d = false -> Ascii.eqb (ascii_of_nat 168) d = false).
  { intros d. by apply eqb_continuation. }
  assert (H169 : forall d, is_continuation d = false -> Ascii.eqb (ascii_of_nat 169) d = false).
  { intros d. by apply eqb_continuation. }
  destruct u as [|c [|d [|e u]]]; [done|..].
  - destruct x as [|y x]; [by rewrite app_nil_r|].
    simpl in Hx. apply negb_true_iff in Hx.
    destruct Hsep as [-> | ->]; cbn [app Js.startsWith LS PS bytes map];
      rewrite (H128 y Hx), ?andb_false_r; reflexivity.
  - destruct x as [|y x]; [by rewrite app_nil_r|].
    simpl in Hx. apply negb_true_iff in Hx.
    destruct Hsep as [-> | ->]; cbn [app Js.startsWith LS PS bytes map].
    + rewrite (H168 y Hx), ?andb_false_r; reflexivity.
    + rewrite (H169 y Hx), ?andb_false_r; reflexivity.
  - destruct Hsep as [-> | ->]; reflexivity.
Qed.

Lemma terminator_app (u x : jsstring) :
  u <> [] -> starts_char x = true -> terminator (u ++ x) = terminator u.
Proof.
  intros Hu Hx. destruct u as [|c u]; [done|].
  change (terminator ((c :: u) ++ x)) with
    (if is_line_terminator c then 1
     else if Js.startsWith LS ((c :: u) ++ x) || Js.startsWith PS ((c :: u) ++ x) then 3
     else 0).
  rewrite !startsWith_sep_app by (done || auto). reflexivity.
Qed.

Lemma line_end_le (s : jsstring) : line_end s <= length s.
Proof.
  induction s as [|c s IH]; [done|]. cbn [line_end].
  destruct (terminator (c :: s)); simpl; lia.
Qed.

Lemma line_end_cons (c : ascii) (s : jsstring) :
  line_end (c :: s) = match terminator (c :: s) with 0 => S (line_end s) | S _ => 0 end.
Proof. reflexivity. Qed.

Lemma one_line_nil : one_line [].
Proof. reflexivity. Qed.

Lemma one_line_cons (c : ascii) (s : jsstring) :
  one_line (c :: s) <-> terminator (c :: s) = 0 /\ one_line s.
Proof.
  unfold one_line. rewrite line_end_cons.
  destruct (terminator (c :: s)) eqn:E; simpl; split.
  - intros [= H]. by split.
  - intros [_ H]. by rewrite H.
  - done.
  - by intros [? _].
Qed.

Lemma line_end_terminator (x : jsstring) : terminator x <> 0 -> line_end x = 0.
Proof.
  destruct x as [|c x]; [done|]. rewrite line_end_cons.
  by destruct (terminator (c :: x)).
Qed.

Lemma line_end_app_one_line (u x : jsstring) :
  one_line u -> starts_char x = true -> line_end (u ++ x) = length u + line_end x.
Proof.
  intros Hu Hx. induction u as [|c u IH]; [done|].
  apply one_line_cons in Hu as [Hc Hu].
  change ((c :: u) ++ x) with (c :: u ++ x). rewrite line_end_cons.
  change (c :: u ++ x) with ((c :: u) ++ x). rewrite terminator_app, Hc by done.
  simpl. by rewrite IH.
Qed.

Lemma line_end_app_broken (u x : jsstring) :
  line_end u < length u -> starts_char x = true -> line_end (u ++ x) = line_end u.
Proof.
  intros Hu Hx. induction u as [|c u IH]; [simpl in Hu; lia|].
  change ((c :: u) ++ x) with (c :: u ++ x). rewrite !line_end_cons in *.
  change (c :: u ++ x) with ((c :: u) ++ x). rewrite terminator_app by done.
  destruct (terminator (c :: u)); [|done].
  rewrite IH; [done|]. simpl in Hu. lia.
Qed.

(** The first line of a text ends where it ends, whatever follows a line
    terminator behind it. *)
Lemma line_end_terminated (u x : jsstring) :
  terminator x <> 0 -> line_end (u ++ x) = line_end u.
Proof.
  intros Hx. pose proof (terminator_starts_char x Hx) as Hs.
  pose proof (line_end_le u) as Hle.
  destruct (decide (line_end u = length u)) as [E|E].
  - rewrite line_end_app_one_line, line_end_terminator by done. lia.
  - apply line_end_app_broken; [lia|done].
Qed.

Lemma one_line_app (u x : jsstring) :
  one_line u -> one_line x -> starts_char x = true -> one_line (u ++ x).
Proof.
  intros Hu Hx Hs. unfold one_line in *.
  rewrite line_end_app_one_line, length_app by done. lia.
Qed.

(** Bytes that are no line terminator and begin none. *)
Lemma terminator_ascii (c : ascii) (s : jsstring) :
  is_line_terminator c = false -> c <> ascii_of_nat 226 -> terminator (c :: s) = 0.
Proof.
  intros Hc He. unfold terminator. rewrite Hc.
  assert (E : Ascii.eqb (ascii_of_nat 226) c = false).
  { destruct (Ascii.eqb_spec (ascii_of_nat 226) c); [congruence|done]. }
  cbn [Js.startsWith LS PS bytes map]. by rewrite E.
Qed.

Lemma one_line_app_l (u x : jsstring) :
  Forall (fun c => is_line_terminator c = false /\ c <> ascii_of_nat 226) u ->
  one_line x -> one_line (u ++ x).
Proof.
  induction 1 as [|c u [Hc He] _ IH]; intros Hx; [done|].
  change ((c :: u) ++ x) with (c :: u ++ x).
  apply one_line_cons. split; [by apply terminator_ascii|by apply IH].
Qed.

Lemma one_line_drop (n : nat) (s : jsstring) : one_line s -> one_line (drop n s).
Proof.
  revert n. induction s as [|c s IH]; intros n Hs; [by rewrite drop_nil|].
  destruct n as [|n]; [done|]. apply one_line_cons in Hs as [_ Hs]. simpl. by apply IH.
Qed.

Lemma one_line_no_LF (s : jsstring) : one_line s -> LF ∉ s.
Proof.
  induction s as [|c s IH]; intros Hs; [apply not_elem_of_nil|].
  apply one_line_cons in Hs as [Hc Hs]. apply not_elem_of_cons. split; [|by apply IH].
  intros <-. done.
Qed.

Lemma one_line_bytes (s : jsstring) :
  Forall (fun c => is_line_terminator c = false /\ c <> ascii_of_nat 226) s -> one_line s.
Proof. intros H. rewrite <- (app_nil_r s). by apply one_line_app_l. Qed.

(** ** Replacement and lines *)

Lemma replace_g_cons (m : matcher) (c : ascii) (s : jsstring) :
  replace_g m (c :: s) =
    match m (c :: s) with
    | Some (out, n) => out ++ replace_g m (drop n s)
    | None => c :: replace_g m s
    end.
Proof.
  simp replace_g. destruct (m (c :: s)) as [[out n]|]; reflexivity.
Qed.

Lemma replace_g_nil (m : matcher) : replace_g m [] = [].
Proof. by simp replace_g. Qed.

(** A stretch of text in which the matcher finds nothing is copied. *)
Lemma replace_g_copy (m : matcher) (u x : jsstring) :
  (forall k, k < length u -> m (drop k u ++ x) = None) ->
  replace_g m (u ++ x) = u ++ replace_g m x.
Proof.
  induction u as [|c u IH]; intros H; [reflexivity|].
  change ((c :: u) ++ x) with (c :: u ++ x). rewrite replace_g_cons.
  pose proof (H 0 ltac:(simpl; lia)) as H0. cbn [drop app] in H0. rewrite H0.
  cbn [app]. f_equal. apply IH. intros k Hk. apply (H (S k)). simpl. lia.
Qed.

Lemma replace_g_line_local (m : matcher) (s1 t s2 : jsstring) :
  line_local m -> is_terminator t ->
  replace_g m (s1 ++ t ++ s2) = replace_g m s1 ++ t ++ replace_g m s2.
Proof.
  intros Hm Ht. remember (length s1) as k eqn:Hk.
  revert s1 Hk. induction k as [k IH] using lt_wf_ind. intros s1 Hk.
  destruct s1 as [|c s1].
  - rewrite replace_g_nil. cbn [app]. apply replace_g_copy.
    intros j Hj. by apply (no_match_at_terminator m Hm).
  - assert (Hx : terminator (t ++ s2) <> 0).
    { rewrite is_terminator_head by done. pose proof (is_terminator_ne t Ht).
      destruct t; simpl; [done|lia]. }
    change ((c :: s1) ++ t ++ s2) with (c :: s1 ++ t ++ s2).
    rewrite !replace_g_cons, (match_within_line m Hm) by done.
    destruct (m (c :: s1)) as [[out n]|] eqn:Hmatch.
    + apply (match_fits m Hm) in Hmatch. simpl in Hmatch.
      rewrite drop_app_le by lia.
      rewrite (IH (length (drop n s1))); [by rewrite <- app_assoc| |done].
      subst k. rewrite length_drop. simpl. lia.
    + cbn [app]. f_equal. apply (IH (length s1)); [subst k; simpl; lia|done].
Qed.

Lemma replace_lines_nil (P A B : jsstring) (b : bool) : replace_lines P A B b [] = [].
Proof. by simp replace_lines. Qed.

Lemma replace_lines_cons (P A B : jsstring) (b : bool) (c : ascii) (s : jsstring) :
  replace_lines P A B b (c :: s) =
    if b && Js.startsWith P (c :: s) then
      A ++ take (line_end (drop (length P - 1) s)) (drop (length P - 1) s) ++ B
      ++ replace_lines P A B false
           (drop (line_end (drop (length P - 1) s)) (drop (length P - 1) s))
    else match terminator (c :: s) with
         | 0 => c :: replace_lines P A B false s
         | S k => c :: take k s ++ replace_lines P A B true (drop k s)
         end.
Proof.
  simp replace_lines. destruct (b && Js.startsWith P (c :: s)); [reflexivity|].
  cbn. destruct (terminator (c :: s)); reflexivity.
Qed.

Lemma startsWith_length (p s : jsstring) : Js.startsWith p s = true -> length p <= length s.
Proof. intros [r ->]%startsWith_true. rewrite length_app. lia. Qed.

(** A text whose bytes begin no line terminator does not reach into one. *)
Lemma startsWith_before_terminator (P u x : jsstring) :
  Forall (fun c => is_line_terminator c = false /\ c <> ascii_of_nat 226) P ->
  P <> [] -> terminator x <> 0 ->
  Js.startsWith P (u ++ x) = Js.startsWith P u.
Proof.
  intros Hall. revert u. induction Hall as [|a P [Ha1 Ha2] Hall IH]; [done|].
  intros u _ Hx. destruct u as [|b u]; cbn [app Js.startsWith].
  - destruct x as [|y x]; [done|]. cbn [Js.startsWith].
    destruct (Ascii.eqb_spec a y) as [<-|_]; [|reflexivity].
    exfalso. apply Hx. by apply terminator_ascii.
  - destruct P as [|a' P']; [by destruct (Ascii.eqb a b)|].
    rewrite IH by done. reflexivity.
Qed.

Lemma terminator_head_ne (t x : jsstring) : is_terminator t -> terminator (t ++ x) <> 0.
Proof.
  intros Ht. rewrite is_terminator_head by done.
  destruct Ht as [->|[->|[->| ->]]]; simpl; lia.
Qed.

(** At a line terminator the scan copies it and stands at the beginning of a
    line. *)
Lemma replace_lines_terminator (P A B : jsstring) (b : bool) (t x : jsstring) :
  line_pattern P -> is_terminator t ->
  replace_lines P A B b (t ++ x) = t ++ replace_lines P A B true x.
Proof.
  intros [Hne Hall] Ht.
  pose proof (startsWith_before_terminator P [] (t ++ x) Hall Hne
                (terminator_head_ne t x Ht)) as Hs.
  cbn [app] in Hs. assert (Hs' : Js.startsWith P (t ++ x) = false).
  { rewrite Hs. by destruct P. }
  pose proof (is_terminator_head t x Ht) as Hk.
  destruct t as [|c t]; [by destruct (is_terminator_ne [] Ht)|].
  change ((c :: t) ++ x) with (c :: t ++ x) in *.
  rewrite replace_lines_cons, Hs', andb_false_r, Hk. cbn [length].
  by rewrite take_app_length, drop_app_length.
Qed.

(** The line passes act on each line by itself. *)
Lemma replace_lines_app (P A B : jsstring) (b : bool) (s1 t s2 : jsstring) :
  line_pattern P -> is_terminator t ->
  replace_lines P A B b (s1 ++ t ++ s2)
  = replace_lines P A B b s1 ++ t ++ replace_lines P A B true s2.
Proof.
  intros HP Ht. remember (length s1) as k eqn:Hk.
  revert b s1 Hk. induction k as [k IH] using lt_wf_ind. intros b s1 Hk.
  destruct s1 as [|c s1].
  - rewrite replace_lines_nil. cbn [app]. by apply replace_lines_terminator.
  - pose proof (terminator_head_ne t s2 Ht) as Hx.
    pose proof (terminator_starts_char _ Hx) as Hsc.
    destruct HP as [Hne Hall].
    change ((c :: s1) ++ t ++ s2) with (c :: s1 ++ t ++ s2).
    rewrite !replace_lines_cons.
    change (c :: s1 ++ t ++ s2) with ((c :: s1) ++ t ++ s2).
    rewrite (startsWith_before_terminator P (c :: s1) _ Hall Hne Hx).
    destruct (b && Js.startsWith P (c :: s1)) eqn:Hcond.
    + apply andb_true_iff in Hcond as [_ Hs]. apply startsWith_length in Hs.
      simpl in Hs. rewrite drop_app_le by lia.
      set (r := drop (length P - 1) s1).
      rewrite (line_end_terminated r _ Hx).
      pose proof (line_end_le r) as Hle.
      rewrite take_app_le, drop_app_le by done.
      rewrite (IH (length (drop (line_end r) r))); [by rewrite <- !app_assoc| |done].
      subst k r. rewrite !length_drop. simpl. lia.
    + rewrite terminator_app by done.
      pose proof (terminator_le (c :: s1)) as Hle.
      destruct (terminator (c :: s1)) as [|j] eqn:Hterm.
      * cbn [app]. f_equal. apply (IH (length s1)); [subst k; simpl; lia|done].
      * simpl in Hle. rewrite take_app_le, drop_app_le by lia.
        rewrite (IH (length (drop j s1))); [cbn [app]; by rewrite <- app_assoc| |done].
        subst k. rewrite length_drop. simpl. lia.
Qed.

(** In the middle of a line nothing is replaced. *)
Lemma replace_lines_rest_of_line (P A B : jsstring) (l : jsstring) :
  one_line l -> replace_lines P A B false l = l.
Proof.
  induction l as [|c l IH]; intros Hl; [apply replace_lines_nil|].
  apply one_line_cons in Hl as [Hc Hl].
  rewrite replace_lines_cons, Hc. cbn [andb]. by rewrite IH.
Qed.

Lemma replace_lines_one_line (P A B : jsstring) (l : jsstring) :
  P <> [] -> one_line l -> replace_lines P A B true l = line_rule P A B l.
Proof.
  intros HP Hl. unfold line_rule. destruct l as [|c l].
  { rewrite replace_lines_nil. by destruct P. }
  rewrite replace_lines_cons. cbn [andb].
  destruct (Js.startsWith P (c :: l)) eqn:Hs.
  - pose proof (startsWith_length _ _ Hs) as Hlen. simpl in Hlen.
    destruct P as [|a P]; [done|].
    replace (length (a :: P) - 1) with (length P) by (simpl; lia). cbn [length drop].
    pose proof (one_line_drop (length P) l
                  (proj2 (proj1 (one_line_cons c l) Hl))) as Hr.
    unfold one_line in Hr. rewrite Hr, firstn_all, drop_all, replace_lines_nil.
    by rewrite app_nil_r.
  - apply one_line_cons in Hl as [Hc Hl]. rewrite Hc.
    by rewrite replace_lines_rest_of_line.
Qed.

Lemma marker_bytes (mk : jsstring) :
  is_marker mk ->
  Forall (fun c => is_line_terminator c = false /\ c <> ascii_of_nat 226) mk.
Proof. intros [_ Hall]. eapply Forall_impl; [exact Hall|]. by intros c ->. Qed.

Lemma startsWith_marker_line (mk u x : jsstring) :
  is_marker mk -> terminator x <> 0 ->
  Js.startsWith mk (u ++ x) = Js.startsWith mk u.
Proof.
  intros Hmk Hx. apply startsWith_before_terminator; [by apply marker_bytes| |done].
  by destruct Hmk.
Qed.

Lemma find_close_line (mk u x : jsstring) :
  is_marker mk -> terminator x <> 0 ->
  find_close mk (u ++ x) = find_close mk u.
Proof.
  intros Hmk Hx. pose proof (terminator_starts_char x Hx) as Hsc.
  induction u as [|c u IH].
  - pose proof (startsWith_marker_line mk [] x Hmk Hx) as E. cbn [app] in E.
    cbn [app]. destruct x as [|y x]; [done|].
    cbn [find_close]. rewrite E.
    destruct mk as [|a mk]; [by destruct Hmk|]. cbn [Js.startsWith].
    by destruct (terminator (y :: x)).
  - change (find_close mk ((c :: u) ++ x)) with
      (if Js.startsWith mk ((c :: u) ++ x) then Some []
       else match terminator ((c :: u) ++ x) with
            | 0 => cons c <$> find_close mk (u ++ x)
            | S _ => None
            end).
    rewrite (startsWith_marker_line mk (c :: u) x Hmk Hx), IH.
    rewrite terminator_app by done. reflexivity.
Qed.

Lemma find_close_Some (mk t inner : jsstring) :
  find_close mk t = Some inner -> exists rest, t = inner ++ mk ++ rest.
Proof.
  revert inner. induction t as [|c t IH]; intros inner; cbn [find_close].
  - destruct (Js.startsWith mk []) eqn:Hs; [|done]. intros [= <-].
    apply startsWith_true in Hs as [r Hr]. by exists r.
  - destruct (Js.startsWith mk (c :: t)) eqn:Hs.
    + intros [= <-]. apply startsWith_true in Hs as [r Hr]. by exists r.
    + destruct (terminator (c :: t)); [|done].
      destruct (find_close mk t) as [inner'|]; [|done]. simpl. intros [= <-].
      destruct (IH _ eq_refl) as (rest & ->). by exists rest.
Qed.

Lemma emphasis_matcher_head (mk A B : jsstring) (c : ascii) (s : jsstring) :
  is_marker mk -> c <> "*"%char -> emphasis_matcher mk A B (c :: s) = None.
Proof.
  intros [Hne Hall] Hc. unfold emphasis_matcher.
  destruct Hall as [|a mk -> _]; [done|]. cbn [Js.startsWith].
  destruct (Ascii.eqb_spec "*" c) as [<-|_]; [done|reflexivity].
Qed.

Lemma emphasis_matcher_line_local (mk A B : jsstring) :
  is_marker mk -> line_local (emphasis_matcher mk A B).
Proof.
  intros Hmk. split.
  - intros t k s Ht Hk.
    destruct Ht as [->|[->|[->| ->]]];
      repeat (destruct k as [|k]; [by apply emphasis_matcher_head|]);
      simpl in Hk; lia.
  - intros c s1 x Hx. unfold emphasis_matcher.
    change (c :: s1 ++ x) with ((c :: s1) ++ x).
    rewrite (startsWith_marker_line mk (c :: s1) x Hmk Hx).
    destruct (Js.startsWith mk (c :: s1)) eqn:Hs; [|done].
    apply startsWith_length in Hs.
    rewrite drop_app_le by done. by rewrite find_close_line.
  - intros s out n. unfold emphasis_matcher.
    destruct (Js.startsWith mk s) eqn:Hs; [|done].
    apply startsWith_drop in Hs.
    destruct (find_close mk (drop (length mk) s)) as [inner|] eqn:Hf; [|done].
    intros [= <- <-]. apply find_close_Some in Hf as (rest & Hrest).
    rewrite Hs, Hrest, !length_app. destruct Hmk as [Hne _].
    destruct mk; [done|]. simpl. lia.
Qed.

Lemma is_marker_js_3 : is_marker (js "***").
Proof. change (js "***") with (repeat "*"%char 3). split; [done|]. repeat constructor. Qed.

Lemma is_marker_js_2 : is_marker (js "**").
Proof. change (js "**") with (repeat "*"%char 2). split; [done|]. repeat constructor. Qed.

Lemma is_marker_js_1 : is_marker (js "*").
Proof. change (js "*") with (repeat "*"%char 1). split; [done|]. repeat constructor. Qed.

Lemma LF_is_terminator : is_terminator [LF].
Proof. by left. Qed.

Lemma stars_app (a b : jsstring) : stars (a ++ b) = stars a + stars b.
Proof. unfold stars. by rewrite filter_app, length_app. Qed.

Lemma stars_marker (mk : jsstring) : is_marker mk -> stars mk = length mk.
Proof.
  intros [_ Hall]. unfold stars. induction Hall as [|c mk -> _ IH]; [done|].
  rewrite filter_cons_True by done. simpl. by rewrite IH.
Qed.

Lemma stars_none (s : jsstring) : "*"%char ∉ s -> stars s = 0.
Proof.
  intros H. unfold stars. induction s as [|c s IH]; [done|].
  apply not_elem_of_cons in H as [H1 H2].
  rewrite filter_cons_False by congruence. by apply IH.
Qed.

(** A match of an emphasis expression holds its marker twice. *)
Lemma emphasis_matcher_stars (mk A B s : jsstring) r :
  is_marker mk -> emphasis_matcher mk A B s = Some r -> 2 * length mk <= stars s.
Proof.
  intros Hmk. unfold emphasis_matcher.
  destruct (Js.startsWith mk s) eqn:Hs; [|done].
  apply startsWith_drop in Hs.
  destruct (find_close mk (drop (length mk) s)) as [inner|] eqn:Hf; [|done].
  intros _. apply find_close_Some in Hf as (rest & Hrest).
  rewrite Hs, Hrest, !stars_app, (stars_marker mk Hmk). lia.
Qed.

Lemma emphasis_pass_few_stars (mk A B s : jsstring) :
  is_marker mk -> stars s < 2 * length mk -> replace_g (emphasis_matcher mk A B) s = s.
Proof.
  intros Hmk. induction s as [|c s IH]; intros Hs; [apply replace_g_nil|].
  rewrite replace_g_cons.
  destruct (emphasis_matcher mk A B (c :: s)) as [r|] eqn:Hm.
  { apply emphasis_matcher_stars in Hm; [lia|done]. }
  f_equal. apply IH. change (c :: s) with ([c] ++ s) in Hs. rewrite stars_app in Hs. lia.
Qed.

Ltac star_arith :=
  rewrite ?stars_app;
  change (length (js "***")) with 3; change (length (js "**")) with 2;
  change (length (js "*")) with 1;
  change (stars (js "***")) with 3; change (stars (js "**")) with 2;
  change (stars (js "*")) with 1; change (stars []) with 0;
  lia.

Lemma emphasis_few_stars (s : jsstring) : stars s <= 1 -> emphasis s = s.
Proof.
  intros Hs. unfold emphasis, single_pass, double_pass, triple_pass.
  rewrite (emphasis_pass_few_stars (js "***") _ _ s is_marker_js_3) by star_arith.
  rewrite (emphasis_pass_few_stars (js "**") _ _ s is_marker_js_2) by star_arith.
  apply (emphasis_pass_few_stars (js "*") _ _ s is_marker_js_1). star_arith.
Qed.

Lemma emphasis_app (t s1 s2 : jsstring) :
  is_terminator t -> emphasis (s1 ++ t ++ s2) = emphasis s1 ++ t ++ emphasis s2.
Proof.
  intros Ht. unfold emphasis, single_pass, double_pass, triple_pass.
  rewrite (replace_g_line_local _ s1 t s2
             (emphasis_matcher_line_local _ _ _ is_marker_js_3) Ht).
  rewrite (replace_g_line_local _ _ t _
             (emphasis_matcher_line_local _ _ _ is_marker_js_2) Ht).
  apply (replace_g_line_local _ _ t _
           (emphasis_matcher_line_local _ _ _ is_marker_js_1) Ht).
Qed.

Lemma header_pattern (level : nat) : line_pattern (repeat "#"%char level ++ js " ").
Proof.
  split; [by destruct level|]. apply Forall_app. split.
  - apply Forall_forall. intros c Hc%list_elem_of_In%repeat_spec. by subst c.
  - change (js " ") with [" "%char]. by repeat constructor.
Qed.

Lemma quote_pattern : line_pattern (js "> ").
Proof. split; [done|]. change (js "> ") with [">"; " "]%char. by repeat constructor. Qed.

Lemma item_pattern : line_pattern (js "- ").
Proof. split; [done|]. change (js "- ") with ["-"; " "]%char. by repeat constructor. Qed.

Lemma header_pass_app (level : nat) (open t s1 s2 : jsstring) :
  is_terminator t ->
  header_pass level open (s1 ++ t ++ s2)
  = header_pass level open s1 ++ t ++ header_pass level open s2.
Proof. intros Ht. apply replace_lines_app; [apply header_pattern|done]. Qed.

Lemma headers_app (t s1 s2 : jsstring) :
  is_terminator t -> headers (s1 ++ t ++ s2) = headers s1 ++ t ++ headers s2.
Proof. intros Ht. unfold headers. by rewrite !header_pass_app. Qed.

Lemma list_item_pass_app (t s1 s2 : jsstring) :
  is_terminator t ->
  list_item_pass (s1 ++ t ++ s2) = list_item_pass s1 ++ t ++ list_item_pass s2.
Proof. intros Ht. apply replace_lines_app; [apply item_pattern|done]. Qed.

(** The single-asterisk pass on a line that holds two asterisks, side by
    side, at its beginning or at its end: they are read as a pair. *)
Lemma single_pass_pair_then (a : jsstring) :
  "*"%char ∉ a -> single_pass (js "**" ++ a) = Html.EM_OPEN ++ Html.EM_CLOSE ++ a.
Proof.
  intros Ha. unfold single_pass. change (js "**" ++ a) with ("*"%char :: "*"%char :: a).
  rewrite replace_g_cons.
  change (emphasis_matcher (js "*") Html.EM_OPEN Html.EM_CLOSE ("*"%char :: "*"%char :: a))
    with (Some (Html.EM_OPEN ++ [] ++ Html.EM_CLOSE, 1)).
  cbn [drop app]. rewrite <- app_assoc. do 2 f_equal.
  apply emphasis_pass_few_stars; [apply is_marker_js_1|].
  rewrite stars_none by done. star_arith.
Qed.

Lemma single_pass_then_pair (b rest : jsstring) :
  "*"%char ∉ b -> stars rest <= 1 ->
  single_pass (b ++ js "**" ++ rest) = b ++ Html.EM_OPEN ++ Html.EM_CLOSE ++ rest.
Proof.
  intros Hb Hrest. unfold single_pass. rewrite replace_g_copy.
  - f_equal. change (js "**" ++ rest) with ("*"%char :: "*"%char :: rest).
    rewrite replace_g_cons.
    change (emphasis_matcher (js "*") Html.EM_OPEN Html.EM_CLOSE
              ("*"%char :: "*"%char :: rest))
      with (Some (Html.EM_OPEN ++ [] ++ Html.EM_CLOSE, 1)).
    cbn [drop app]. rewrite <- app_assoc. do 2 f_equal.
    apply emphasis_pass_few_stars; [apply is_marker_js_1|]. star_arith.
  - intros k Hk. destruct (drop k b) as [|c r] eqn:E.
    { apply (f_equal length) in E. rewrite length_drop in E. simpl in E. lia. }
    cbn [app]. apply emphasis_matcher_head; [apply is_marker_js_1|].
    intros ->. apply Hb. rewrite <- (take_drop k b), E.
    apply elem_of_app. right. by left.
Qed.

(** C10, corrected. No emphasis pass matches across a line terminator (line
    feed, carriage return, U+2028, U+2029): each of the three passes, and
    their sequence, transforms the text before it and the text behind it
    separately.  So a pair of single asterisks with a line terminator between
    them is left as it is.  Double and triple markers on two lines are not
    read as a pair either, but they are not left as they are: the
    single-asterisk pass reads two asterisks side by side as an empty pair.
    The header, blockquote and list-item passes act on each line by
    itself. *)
Theorem emphasis_never_spans_lines (t : jsstring) :
  is_terminator t ->
  (forall s1 s2, triple_pass (s1 ++ t ++ s2) = triple_pass s1 ++ t ++ triple_pass s2) /\
  (forall s1 s2, double_pass (s1 ++ t ++ s2) = double_pass s1 ++ t ++ double_pass s2) /\
  (forall s1 s2, single_pass (s1 ++ t ++ s2) = single_pass s1 ++ t ++ single_pass s2) /\
  (forall s1 s2, emphasis (s1 ++ t ++ s2) = emphasis s1 ++ t ++ emphasis s2) /\
  (forall a b, "*"%char ∉ a -> "*"%char ∉ b ->
     emphasis (js "*" ++ a ++ t ++ b ++ js "*") = js "*" ++ a ++ t ++ b ++ js "*") /\
  (forall a b, "*"%char ∉ a -> "*"%char ∉ b ->
     emphasis (js "**" ++ a ++ t ++ b ++ js "**") =
       Html.EM_OPEN ++ Html.EM_CLOSE ++ a ++ t ++ b ++ Html.EM_OPEN ++ Html.EM_CLOSE) /\
  (forall a b, "*"%char ∉ a -> "*"%char ∉ b ->
     emphasis (js "***" ++ a ++ t ++ b ++ js "***") =
       Html.EM_OPEN ++ Html.EM_CLOSE ++ js "*" ++ a ++ t ++ b
       ++ Html.EM_OPEN ++ Html.EM_CLOSE ++ js "*") /\
  (forall s1 s2, headers (s1 ++ t ++ s2) = headers s1 ++ t ++ headers s2) /\
  (forall s1 s2,
     blockquote_pass (s1 ++ t ++ s2) = blockquote_pass s1 ++ t ++ blockquote_pass s2) /\
  (forall s1 s2,
     list_item_pass (s1 ++ t ++ s2) = list_item_pass s1 ++ t ++ list_item_pass s2).
Proof.
  intros Ht.
  split; [|split; [|split; [|split; [|split; [|split; [|split; [|split; [|split]]]]]]]].
  - intros s1 s2. apply replace_g_line_local; [|done].
    apply emphasis_matcher_line_local, is_marker_js_3.
  - intros s1 s2. apply replace_g_line_local; [|done].
    apply emphasis_matcher_line_local, is_marker_js_2.
  - intros s1 s2. apply replace_g_line_local; [|done].
    apply emphasis_matcher_line_local, is_marker_js_1.
  - intros s1 s2. by apply emphasis_app.
  - intros a b Ha Hb.
    rewrite (app_assoc (js "*") a), emphasis_app by done.
    rewrite !emphasis_few_stars; [by rewrite <- app_assoc| |].
    + rewrite stars_app, (stars_none b Hb). reflexivity.
    + rewrite stars_app, (stars_none a Ha). reflexivity.
  - intros a b Ha Hb.
    rewrite (app_assoc (js "**") a), emphasis_app by done.
    unfold emphasis, double_pass, triple_pass.
    pose proof (stars_none a Ha) as Sa. pose proof (stars_none b Hb) as Sb.
    rewrite !(emphasis_pass_few_stars (js "***") _ _ _ is_marker_js_3),
            !(emphasis_pass_few_stars (js "**") _ _ _ is_marker_js_2) by star_arith.
    rewrite (single_pass_pair_then a Ha).
    pose proof (single_pass_then_pair b [] Hb ltac:(star_arith)) as E.
    rewrite !app_nil_r in E. rewrite E. by rewrite <- !app_assoc.
  - intros a b Ha Hb.
    rewrite (app_assoc (js "***") a), emphasis_app by done.
    unfold emphasis, double_pass, triple_pass.
    pose proof (stars_none a Ha) as Sa. pose proof (stars_none b Hb) as Sb.
    rewrite !(emphasis_pass_few_stars (js "***") _ _ _ is_marker_js_3),
            !(emphasis_pass_few_stars (js "**") _ _ _ is_marker_js_2) by star_arith.
    change (js "***" ++ a) with (js "**" ++ js "*" ++ a).
    change (b ++ js "***") with (b ++ js "**" ++ js "*").
    rewrite (single_pass_then_pair b (js "*") Hb) by star_arith.
    unfold single_pass. change (js "**" ++ js "*" ++ a) with ("*"%char :: "*"%char :: js "*" ++ a).
    rewrite replace_g_cons.
    change (emphasis_matcher (js "*") Html.EM_OPEN Html.EM_CLOSE
              ("*"%char :: "*"%char :: js "*" ++ a))
      with (Some (Html.EM_OPEN ++ [] ++ Html.EM_CLOSE, 1)).
    cbn [drop]. rewrite drop_0.
    rewrite (emphasis_pass_few_stars (js "*") _ _ _ is_marker_js_1).
    + cbn [app]. by rewrite <- !app_assoc.
    + star_arith.
  - intros s1 s2. by apply headers_app.
  - intros s1 s2. apply replace_lines_app; [apply quote_pattern|done].
  - intros s1 s2. by apply list_item_pass_app.
Qed.

Lemma emphasis_never_spans_lines_witness :
  is_terminator LS /\
  emphasis (js "**a" ++ LS ++ js "b**") =
    Html.EM_OPEN ++ Html.EM_CLOSE ++ js "a" ++ LS ++ js "b" ++ Html.EM_OPEN ++ Html.EM_CLOSE.
Proof.
  assert (H : is_terminator LS) by (right; right; by left).
  split; [exact H|].
  refine (proj1 (proj2 (proj2 (proj2 (proj2 (proj2
            (emphasis_never_spans_lines LS H)))))) (js "a") (js "b") _ _);
    decide_by_compute.
Defined.

(** C10 as stated fails: the text between a pair of double markers holds a
    line feed, and the span is not left as it is; the same for triple
    markers.  (The same texts on one line become one [strong] element.) *)
Lemma marker_pair_across_lines_is_rewritten :
  js "**a
b**" = js "**" ++ js "a" ++ [LF] ++ js "b" ++ js "**" /\
  emphasis (js "**a
b**") <> js "**a
b**" /\
  markdownToHtml (js "**a
b**") =
    Html.EM_OPEN ++ Html.EM_CLOSE ++ js "a" ++ [LF]
    ++ Html.P_OPEN ++ js "b" ++ Html.EM_OPEN ++ Html.EM_CLOSE ++ Html.P_CLOSE /\
  emphasis (js "***a
b***") <> js "***a
b***" /\
  emphasis (js "**a b**") = Html.STRONG_OPEN ++ js "a b" ++ Html.STRONG_CLOSE.
Proof.
  split; [vm_compute; reflexivity|]. split; [vm_compute; discriminate|].
  split; [vm_compute; reflexivity|]. split; [vm_compute; discriminate|].
  vm_compute. reflexivity.
Qed.

(** ** The list passes *)

Lemma list_item_line (item : jsstring) :
  line_rule (js "- ") (Html.LI_OPEN ++ Html.LI_BULLET) Html.LI_END (js "- " ++ item)
  = list_item item.
Proof.
  unfold line_rule, list_item. rewrite startsWith_app, drop_app_length.
  by rewrite <- app_assoc.
Qed.

Lemma join_cons2 (sep x y : jsstring) (xs : list jsstring) :
  Js.join sep (x :: y :: xs) = x ++ sep ++ Js.join sep (y :: xs).
Proof. reflexivity. Qed.

Lemma list_item_pass_item (item : jsstring) :
  one_line item -> list_item_pass (js "- " ++ item) = list_item item.
Proof.
  intros Hx. unfold list_item_pass.
  rewrite replace_lines_one_line; [apply list_item_line|done|].
  apply one_line_app_l; [apply item_pattern|done].
Qed.

Lemma list_item_pass_block (items : list jsstring) :
  items <> [] -> Forall plain_item items ->
  list_item_pass (list_block items) = list_items_html items.
Proof.
  intros Hne Hall. unfold list_block, list_items_html.
  induction Hall as [|x items [Hx _] Hall IH]; [done|].
  destruct items as [|y items].
  - simpl. by apply list_item_pass_item.
  - rewrite !map_cons, !join_cons2.
    rewrite (list_item_pass_app [LF]) by apply LF_is_terminator.
    rewrite list_item_pass_item by done.
    rewrite <- map_cons, IH by done. reflexivity.
Qed.

Lemma indexOf_skip (p a s : jsstring) :
  (forall k, k < length a -> Js.startsWith p (drop k a ++ s) = false) ->
  Js.indexOf p (a ++ s) = (fun i => length a + i) <$> Js.indexOf p s.
Proof.
  induction a as [|c a IH]; intros H.
  - simpl. by destruct (Js.indexOf p s).
  - change (Js.indexOf p ((c :: a) ++ s)) with
      (if Js.startsWith p ((c :: a) ++ s) then Some 0 else S <$> Js.indexOf p (a ++ s)).
    pose proof (H 0 ltac:(simpl; lia)) as H0. cbn [drop] in H0. rewrite H0.
    rewrite IH; [by destruct (Js.indexOf p s)|].
    intros k Hk. apply (H (S k)). simpl. lia.
Qed.

Lemma startsWith_straddle (p u v : jsstring) :
  Js.startsWith p (u ++ v) = true ->
  Js.startsWith p u = true \/
  (length u < length p /\ Js.startsWith (drop (length u) p) v = true).
Proof.
  revert u. induction p as [|a p IH]; intros u; [by left|].
  destruct u as [|b u]; [right; split; [simpl; lia|done]|].
  cbn [app Js.startsWith]. intros [Hab Hp]%andb_true_iff.
  destruct (IH _ Hp) as [H|[H1 H2]].
  - left. by rewrite Hab, H.
  - right. split; [simpl; lia|done].
Qed.

Lemma includes_false_cons (p : jsstring) (c : ascii) (x : jsstring) :
  Js.includes p (c :: x) = false ->
  Js.startsWith p (c :: x) = false /\ Js.includes p x = false.
Proof.
  unfold Js.includes. cbn [Js.indexOf].
  destruct (Js.startsWith p (c :: x)); [done|].
  by destruct (Js.indexOf p x).
Qed.

Lemma LI_END_split : Html.LI_END = js "</span>" ++ Html.LI_CLOSE.
Proof. reflexivity. Qed.

Lemma indexOf_close_in_item (x rest : jsstring) :
  Js.includes Html.LI_CLOSE x = false ->
  Js.indexOf Html.LI_CLOSE (x ++ Html.LI_END ++ rest) = Some (length x + 7).
Proof.
  induction x as [|c x IH]; intros Hx.
  - rewrite LI_END_split, <- app_assoc. cbn [app].
    rewrite indexOf_skip.
    + change (Js.indexOf Html.LI_CLOSE (Html.LI_CLOSE ++ rest)) with
        (if Js.startsWith Html.LI_CLOSE (Html.LI_CLOSE ++ rest) then Some 0
         else match Html.LI_CLOSE ++ rest with
              | [] => None
              | _ :: s' => S <$> Js.indexOf Html.LI_CLOSE s'
              end).
      rewrite startsWith_app. reflexivity.
    + intros k Hk. change (length (js "</span>")) with 7 in Hk.
      do 7 (destruct k as [|k]; [reflexivity|]). lia.
  - apply includes_false_cons in Hx as [Hs Hx].
    change (Js.indexOf Html.LI_CLOSE ((c :: x) ++ Html.LI_END ++ rest)) with
      (if Js.startsWith Html.LI_CLOSE ((c :: x) ++ Html.LI_END ++ rest) then Some 0
       else S <$> Js.indexOf Html.LI_CLOSE (x ++ Html.LI_END ++ rest)).
    destruct (Js.startsWith Html.LI_CLOSE ((c :: x) ++ Html.LI_END ++ rest)) eqn:E.
    + apply startsWith_straddle in E as [E|[Hlen E]]; [congruence|].
      exfalso. change (length Html.LI_CLOSE) with 5 in Hlen.
      remember (length (c :: x)) as k eqn:Hk. simpl in Hk.
      destruct k as [|k]; [lia|].
      do 4 (destruct k as [|k]; [vm_compute in E; discriminate|]). lia.
    + rewrite IH by done. reflexivity.
Qed.

Lemma li_fragment_item (x rest : jsstring) :
  Js.includes Html.LI_CLOSE x = false ->
  li_fragment (list_item x ++ rest) =
    Some (match rest with
          | c :: _ => if Ascii.eqb c LF then length (list_item x)
                      else length (list_item x) - 1
          | [] => length (list_item x) - 1
          end).
Proof.
  intros Hx. unfold li_fragment, list_item.
  rewrite <- !app_assoc, startsWith_app, drop_app_length.
  rewrite indexOf_skip.
  - rewrite indexOf_close_in_item by done. cbn [fmap option_fmap option_map].
    replace (Html.LI_OPEN ++ Html.LI_BULLET ++ x ++ Html.LI_END ++ rest)
      with ((Html.LI_OPEN ++ Html.LI_BULLET ++ x ++ Html.LI_END) ++ rest)
      by (by rewrite <- !app_assoc).
    assert (Hlen : length (Html.LI_OPEN ++ Html.LI_BULLET ++ x ++ Html.LI_END) =
                   length Html.LI_OPEN + (length Html.LI_BULLET + (length x + 7))
                   + length Html.LI_CLOSE).
    { rewrite !length_app. change (length Html.LI_END) with 12.
      change (length Html.LI_CLOSE) with 5. lia. }
    rewrite (drop_app_length' (Html.LI_OPEN ++ Html.LI_BULLET ++ x ++ Html.LI_END) rest)
      by (by rewrite Hlen).
    rewrite Hlen. destruct rest as [|c r]; [reflexivity|].
    by destruct (Ascii.eqb c LF).
  - intros k Hk. change (length Html.LI_BULLET) with 42 in Hk.
    do 42 (destruct k as [|k]; [reflexivity|]). lia.
Qed.
Lemma li_run_step (s : jsstring) :
  li_run s =
    match li_fragment s with
    | Some n => S n + li_run (drop (S n) s)
    | None => 0
    end.
Proof.
  destruct s as [|c s]; [by simp li_run|].
  simp li_run. destruct (li_fragment (c :: s)); reflexivity.
Qed.

Lemma li_run_LF (s : jsstring) : li_run (LF :: s) = 0.
Proof. by rewrite li_run_step. Qed.

Lemma list_item_length (x : jsstring) : 1 <= length (list_item x).
Proof. unfold list_item. rewrite length_app. change (length Html.LI_OPEN) with 35. lia. Qed.

(** What a run of rounds takes behind a fragment: the line feed and the
    rounds that follow it, or the rounds that follow at once. *)
Lemma li_run_item (x rest : jsstring) :
  Js.includes Html.LI_CLOSE x = false ->
  li_run (list_item x ++ rest) =
    length (list_item x) +
    match rest with
    | c :: r => if Ascii.eqb c LF then 1 + li_run r else li_run rest
    | [] => 0
    end.
Proof.
  intros Hx. rewrite li_run_step, (li_fragment_item x rest Hx).
  pose proof (list_item_length x) as HL.
  destruct rest as [|c r].
  - replace (S (length (list_item x) - 1)) with (length (list_item x)) by lia.
    rewrite app_nil_r, drop_all. by rewrite li_run_step.
  - destruct (Ascii.eqb c LF) eqn:Hc.
    + replace (S (length (list_item x))) with (length (list_item x) + 1) at 2 by lia.
      rewrite drop_app_add. cbn [drop]. rewrite drop_0. lia.
    + replace (S (length (list_item x) - 1)) with (length (list_item x)) by lia.
      rewrite drop_app_length. lia.
Qed.

Lemma li_run_block (items : list jsstring) (rest : jsstring) :
  items <> [] -> Forall plain_item items ->
  li_run (list_items_html items ++ rest) =
    length (list_items_html items) +
    match rest with
    | c :: r => if Ascii.eqb c LF then 1 + li_run r else li_run rest
    | [] => 0
    end.
Proof.
  intros Hne Hall. unfold list_items_html.
  induction Hall as [|x items [_ Hx] Hall IH]; [done|].
  destruct items as [|y items].
  - simpl. by apply li_run_item.
  - rewrite !map_cons, join_cons2, <- !app_assoc. cbn [app].
    rewrite (li_run_item x _ Hx). rewrite Ascii.eqb_refl.
    rewrite <- map_cons, IH by done.
    rewrite !length_app. simpl. lia.
Qed.

Lemma ul_wrap_run (s : jsstring) (n : nat) :
  li_run s = S n ->
  ul_wrap_pass s =
    Html.UL_OPEN ++ take (S n) s ++ Html.UL_CLOSE ++ ul_wrap_pass (drop (S n) s).
Proof.
  intros H. destruct s as [|c s]; [by rewrite li_run_step in H|].
  unfold ul_wrap_pass. rewrite replace_g_cons. unfold ul_matcher at 1. rewrite H.
  by rewrite <- !app_assoc.
Qed.

Lemma ul_wrap_LF (s : jsstring) : ul_wrap_pass (LF :: s) = LF :: ul_wrap_pass s.
Proof.
  unfold ul_wrap_pass. rewrite replace_g_cons. unfold ul_matcher at 1.
  by rewrite li_run_LF.
Qed.

Lemma list_items_html_length (items : list jsstring) :
  items <> [] -> 1 <= length (list_items_html items).
Proof.
  destruct items as [|x [|y items]]; [done| |]; intros _; unfold list_items_html.
  - apply list_item_length.
  - rewrite map_cons, map_cons, join_cons2, length_app.
    pose proof (list_item_length x). lia.
Qed.


Lemma li_run_no_item (s : jsstring) : Js.startsWith Html.LI_OPEN s = false -> li_run s = 0.
Proof. intros H. rewrite li_run_step. unfold li_fragment. by rewrite H. Qed.

(** A stretch of text in which no list item begins is copied by the wrapping
    pass. *)
Lemma ul_wrap_copy (u x : jsstring) :
  (forall k, k < length u -> Js.startsWith Html.LI_OPEN (drop k u ++ x) = false) ->
  ul_wrap_pass (u ++ x) = u ++ ul_wrap_pass x.
Proof.
  intros H. apply replace_g_copy. intros k Hk. unfold ul_matcher.
  by rewrite li_run_no_item by auto.
Qed.

Lemma ul_wrap_nil : ul_wrap_pass [] = [].
Proof. apply replace_g_nil. Qed.

Lemma includes_false_drop (p s : jsstring) (k : nat) :
  Js.includes p s = false -> Js.startsWith p (drop k s) = false.
Proof.
  revert k. induction s as [|c s IH]; intros k H.
  - rewrite drop_nil. unfold Js.includes in H. simpl in H.
    by destruct (Js.startsWith p []).
  - apply includes_false_cons in H as [H1 H2].
    destruct k as [|k]; [done|]. by apply IH.
Qed.

Lemma startsWith_prefix (p u v : jsstring) :
  Js.startsWith p (u ++ v) = true -> length u <= length p -> u = take (length u) p.
Proof.
  intros [r E]%startsWith_true Hlen.
  apply (f_equal (take (length u))) in E.
  rewrite take_app_length, take_app_le in E by done. done.
Qed.

(** The last byte of a line terminator, which the opening tag of a list item
    does not hold. *)
Lemma terminator_last (t : jsstring) :
  is_terminator t -> exists w d, t = w ++ [d] /\ d ∉ Html.LI_OPEN.
Proof.
  intros [->|[->|[->| ->]]].
  - exists [], LF. split; [done|]. decide_by_compute.
  - exists [], CR. split; [done|]. decide_by_compute.
  - exists (bytes [226; 128]), (ascii_of_nat 168). split; [done|]. decide_by_compute.
  - exists (bytes [226; 128]), (ascii_of_nat 169). split; [done|]. decide_by_compute.
Qed.

(** No list item begins in a text that holds no opening tag and ends with a
    line terminator, whatever follows. *)
Lemma no_item_before (q t x : jsstring) (k : nat) :
  is_terminator t -> Js.includes Html.LI_OPEN (q ++ t) = false ->
  k < length (q ++ t) ->
  Js.startsWith Html.LI_OPEN (drop k (q ++ t) ++ x) = false.
Proof.
  intros Ht Hinc Hk.
  destruct (Js.startsWith Html.LI_OPEN (drop k (q ++ t) ++ x)) eqn:E; [|done].
  exfalso. pose proof E as E'.
  apply startsWith_straddle in E as [E|[Hlen _]].
  { by rewrite includes_false_drop in E. }
  apply startsWith_prefix in E'; [|lia].
  destruct (terminator_last t Ht) as (w & d & -> & Hd).
  apply Hd. rewrite app_assoc in E', Hk. rewrite length_app in Hk. simpl in Hk.
  rewrite drop_app_le in E' by lia.
  assert (Hin : d ∈ drop k (q ++ w) ++ [d]) by (apply elem_of_app; right; by left).
  rewrite E' in Hin. rewrite <- (take_drop (length (drop k (q ++ w) ++ [d])) Html.LI_OPEN).
  apply elem_of_app. by left.
Qed.

Lemma list_item_pass_nil : list_item_pass [] = [].
Proof. apply replace_lines_nil. Qed.

Lemma list_item_pass_ends_line (before x : jsstring) :
  ends_line before -> list_item_pass (before ++ x) = list_item_pass before ++ list_item_pass x.
Proof.
  intros [->|(p & t & Ht & ->)]; [by rewrite list_item_pass_nil|].
  rewrite <- app_assoc, (list_item_pass_app t) by done.
  pose proof (list_item_pass_app t p [] Ht) as E. rewrite app_nil_r in E.
  rewrite E, list_item_pass_nil, app_nil_r. by rewrite <- app_assoc.
Qed.

(** What stands before a run, lines without an item: the wrapping pass
    copies it and goes on behind it. *)
Lemma ul_wrap_before (before y : jsstring) :
  ends_line before -> Js.includes Html.LI_OPEN (list_item_pass before) = false ->
  ul_wrap_pass (list_item_pass before ++ y) = list_item_pass before ++ ul_wrap_pass y.
Proof.
  intros [->|(p & t & Ht & ->)] Hinc; [by rewrite list_item_pass_nil|].
  pose proof (list_item_pass_app t p [] Ht) as E.
  rewrite app_nil_r, list_item_pass_nil, app_nil_r in E. rewrite E in *.
  apply ul_wrap_copy. intros k Hk. by apply no_item_before.
Qed.

Lemma list_passes_before (before : jsstring) :
  ends_line before -> Js.includes Html.LI_OPEN (list_item_pass before) = false ->
  list_passes before = list_item_pass before.
Proof.
  intros H1 H2. unfold list_passes.
  pose proof (ul_wrap_before before [] H1 H2) as E.
  by rewrite ul_wrap_nil, !app_nil_r in E.
Qed.

Lemma ul_wrap_terminator (t y : jsstring) :
  is_terminator t -> ul_wrap_pass (t ++ y) = t ++ ul_wrap_pass y.
Proof.
  intros Ht. apply ul_wrap_copy. intros k Hk.
  destruct Ht as [->|[->|[->| ->]]];
    repeat (destruct k as [|k]; [reflexivity|]); simpl in Hk; lia.
Qed.

(** The run of fragments a block of items gives, and what the wrapping pass
    makes of it, by what follows. *)
Lemma ul_wrap_block_end (items : list jsstring) :
  items <> [] -> Forall plain_item items ->
  ul_wrap_pass (list_items_html items)
  = Html.UL_OPEN ++ list_items_html items ++ Html.UL_CLOSE.
Proof.
  intros Hne Hall. pose proof (list_items_html_length items Hne) as HL.
  pose proof (li_run_block items [] Hne Hall) as Hrun.
  rewrite app_nil_r, Nat.add_0_r in Hrun.
  destruct (length (list_items_html items)) as [|n] eqn:Hn; [lia|].
  rewrite (ul_wrap_run _ n Hrun), <- Hn, firstn_all, drop_all.
  by rewrite ul_wrap_nil, app_nil_r.
Qed.

Lemma ul_wrap_block_LF (items : list jsstring) (y : jsstring) :
  items <> [] -> Forall plain_item items ->
  Js.startsWith Html.LI_OPEN y = false ->
  ul_wrap_pass (list_items_html items ++ [LF] ++ y)
  = Html.UL_OPEN ++ list_items_html items ++ [LF] ++ Html.UL_CLOSE ++ ul_wrap_pass y.
Proof.
  intros Hne Hall Hy.
  pose proof (li_run_block items ([LF] ++ y) Hne Hall) as Hrun.
  cbn [app] in Hrun. cbv beta iota in Hrun.
  rewrite Ascii.eqb_refl, (li_run_no_item y Hy) in Hrun.
  replace (length (list_items_html items) + (1 + 0))
    with (S (length (list_items_html items))) in Hrun by lia.
  cbn [app]. rewrite (ul_wrap_run _ _ Hrun).
  replace (S (length (list_items_html items)))
    with (length (list_items_html items) + 1) by lia.
  rewrite take_app_add, drop_app_add.
  cbn [take drop]. rewrite ?take_0, ?drop_0, <- !app_assoc. reflexivity.
Qed.

Lemma ul_wrap_block_other (items : list jsstring) (t y : jsstring) :
  items <> [] -> Forall plain_item items ->
  is_terminator t -> t <> [LF] ->
  ul_wrap_pass (list_items_html items ++ t ++ y)
  = Html.UL_OPEN ++ list_items_html items ++ Html.UL_CLOSE ++ t ++ ul_wrap_pass y.
Proof.
  intros Hne Hall Ht HLF. pose proof (list_items_html_length items Hne) as HL.
  pose proof (li_run_block items (t ++ y) Hne Hall) as Hrun.
  assert (Hrest : match t ++ y with
                  | c :: r => if Ascii.eqb c LF then 1 + li_run r else li_run (t ++ y)
                  | [] => 0
                  end = 0).
  { destruct Ht as [->|[->|[->| ->]]]; [done|..]; reflexivity. }
  rewrite Hrest, Nat.add_0_r in Hrun.
  destruct (length (list_items_html items)) as [|n] eqn:Hn; [lia|].
  rewrite (ul_wrap_run _ n Hrun), <- Hn, take_app_length, drop_app_length.
  by rewrite ul_wrap_terminator.
Qed.

(** C6, corrected. A run of adjacent list-item lines, joined by line feeds,
    whose item texts hold no closing tag of a list item, is wrapped in one
    container that holds the fragment of every item.  The run stands at the
    beginning of the text or behind lines that leave no list item; it ends
    with the text, or with a line feed in front of a line that is no list
    item (the container takes that line feed), or with another line
    terminator (which the container does not take, and behind which the next
    item line begins a container of its own).  What follows the run goes
    through the list passes by itself.  Three [- item] lines give one
    container with three fragments; [- item], a blank line and [- item] give
    two containers with one fragment each. *)
Theorem list_run_wrapped_in_one_container (before : jsstring) (items : list jsstring) :
  items <> [] -> Forall plain_item items ->
  ends_line before -> Js.includes Html.LI_OPEN (list_item_pass before) = false ->
  list_passes (before ++ list_block items) =
    list_passes before ++ Html.UL_OPEN ++ list_items_html items ++ Html.UL_CLOSE /\
  (forall rest,
     Js.startsWith Html.LI_OPEN (list_item_pass rest) = false ->
     list_passes (before ++ list_block items ++ [LF] ++ rest) =
       list_passes before ++ Html.UL_OPEN ++ list_items_html items ++ [LF]
       ++ Html.UL_CLOSE ++ list_passes rest) /\
  (forall t rest,
     is_terminator t -> t <> [LF] ->
     list_passes (before ++ list_block items ++ t ++ rest) =
       list_passes before ++ Html.UL_OPEN ++ list_items_html items
       ++ Html.UL_CLOSE ++ t ++ list_passes rest) /\
  list_passes before = list_item_pass before /\
  markdownToHtml (js "- item
- item
- item") =
    Html.UL_OPEN ++ list_items_html [js "item"; js "item"; js "item"] ++ Html.UL_CLOSE /\
  markdownToHtml (js "- item

- item") =
    Html.UL_OPEN ++ list_item (js "item") ++ [LF] ++ Html.UL_CLOSE ++ [LF]
    ++ Html.UL_OPEN ++ list_item (js "item") ++ Html.UL_CLOSE.
Proof.
  intros Hne Hall Hb Hinc.
  pose proof (list_passes_before before Hb Hinc) as Hbefore.
  split; [|split; [|split; [|split; [|split]]]].
  - rewrite Hbefore. unfold list_passes.
    rewrite list_item_pass_ends_line, ul_wrap_before by done.
    by rewrite list_item_pass_block, ul_wrap_block_end.
  - intros rest Hrest. rewrite Hbefore. unfold list_passes.
    rewrite list_item_pass_ends_line, ul_wrap_before by done.
    rewrite (list_item_pass_app [LF]) by apply LF_is_terminator.
    by rewrite list_item_pass_block, ul_wrap_block_LF.
  - intros t rest Ht HLF. rewrite Hbefore. unfold list_passes.
    rewrite list_item_pass_ends_line, ul_wrap_before by done.
    rewrite (list_item_pass_app t) by done.
    by rewrite list_item_pass_block, ul_wrap_block_other.
  - exact Hbefore.
  - vm_compute. reflexivity.
  - vm_compute. reflexivity.
Qed.

Lemma plain_item_sample : Forall plain_item [js "item"; js "item"; js "item"].
Proof.
  assert (H : plain_item (js "item")) by (split; vm_compute; reflexivity).
  repeat (apply Forall_cons; split; [exact H|]). apply Forall_nil_2.
Qed.

Lemma list_run_witness :
  [js "item"; js "item"; js "item"] <> [] /\
  Forall plain_item [js "item"; js "item"; js "item"] /\
  ends_line (js "# Title" ++ [LF]) /\
  Js.includes Html.LI_OPEN (list_item_pass (js "# Title" ++ [LF])) = false /\
  list_passes ((js "# Title" ++ [LF]) ++ list_block [js "item"; js "item"; js "item"]
               ++ [LF] ++ js "more") =
    list_passes (js "# Title" ++ [LF])
    ++ Html.UL_OPEN ++ list_items_html [js "item"; js "item"; js "item"] ++ [LF]
    ++ Html.UL_CLOSE ++ list_passes (js "more").
Proof.
  assert (H1 : [js "item"; js "item"; js "item"] <> []) by discriminate.
  assert (H2 : ends_line (js "# Title" ++ [LF])).
  { right. exists (js "# Title"), [LF]. split; [by left|done]. }
  assert (H3 : Js.includes Html.LI_OPEN (list_item_pass (js "# Title" ++ [LF])) = false)
    by (vm_compute; reflexivity).
  split; [exact H1|]. split; [exact plain_item_sample|].
  split; [exact H2|]. split; [exact H3|].
  apply (proj1 (proj2 (list_run_wrapped_in_one_container _ _ H1 plain_item_sample H2 H3))).
  vm_compute. reflexivity.
Defined.

(** C6 as stated fails: two adjacent list-item lines, the first with a
    closing tag in its text, end up in two containers; and so do two
    list-item lines when a carriage return and a line feed end the first. *)
Lemma list_run_split_by_closing_tag :
  list_block [js "a</li>b"; js "c"] = js "- a</li>b
- c" /\
  occurrences Html.UL_OPEN (list_passes (list_block [js "a</li>b"; js "c"])) = 2 /\
  occurrences Html.UL_OPEN (markdownToHtml (list_block [js "a</li>b"; js "c"])) = 2 /\
  list_passes (list_block [js "a</li>b"; js "c"]) =
    Html.UL_OPEN ++ Html.LI_OPEN ++ Html.LI_BULLET ++ js "a</li>" ++ Html.UL_CLOSE
    ++ js "b</span></li>" ++ [LF]
    ++ Html.UL_OPEN ++ list_item (js "c") ++ Html.UL_CLOSE /\
  list_passes (js "- a" ++ [CR; LF] ++ js "- b") =
    Html.UL_OPEN ++ list_item (js "a") ++ Html.UL_CLOSE ++ [CR; LF]
    ++ Html.UL_OPEN ++ list_item (js "b") ++ Html.UL_CLOSE /\
  occurrences Html.UL_OPEN (markdownToHtml (js "- a" ++ [CR; LF] ++ js "- b")) = 2.
Proof.
  repeat split; vm_compute; reflexivity.
Qed.

Lemma li_run_not_tag (c : ascii) (s : jsstring) : c <> "<"%char -> li_run (c :: s) = 0.
Proof.
  intros Hc. apply li_run_no_item.
  destruct (Js.startsWith Html.LI_OPEN (c :: s)) eqn:E; [|reflexivity].
  apply startsWith_true in E as [r E].
  change Html.LI_OPEN with ("<"%char :: tl Html.LI_OPEN) in E.
  injection E as E _. done.
Qed.

Lemma ul_wrap_plain (p rest : jsstring) :
  "<"%char ∉ p -> ul_wrap_pass (p ++ rest) = p ++ ul_wrap_pass rest.
Proof.
  induction p as [|c p IH]; intros Hp; [reflexivity|].
  apply not_elem_of_cons in Hp as [Hc Hp].
  cbn [app]. unfold ul_wrap_pass. rewrite replace_g_cons. unfold ul_matcher at 1.
  rewrite li_run_not_tag by done. f_equal. by apply IH.
Qed.

(** A line without a tag that is no list item passes the list passes as it
    is, and so does not touch the runs before and behind it. *)
Lemma list_passes_plain_line (p rest : jsstring) :
  one_line p ->
  "<"%char ∉ p ->
  Js.startsWith (js "- ") p = false ->
  list_passes (p ++ LF :: rest) = p ++ LF :: list_passes rest.
Proof.
  intros Hline Htag Hitem. unfold list_passes.
  change (p ++ LF :: rest) with (p ++ [LF] ++ rest).
  rewrite (list_item_pass_app [LF]) by apply LF_is_terminator.
  unfold list_item_pass at 1.
  rewrite (replace_lines_one_line _ _ _ p) by done.
  unfold line_rule. rewrite Hitem. cbn [app].
  rewrite (ul_wrap_plain p _ Htag), ul_wrap_LF. reflexivity.
Qed.

Lemma escapeTemplate_reads_back_witness :
  ("\"%char ∉ js "a`b$c") /\ (CR ∉ js "a`b$c") /\
  cook_template (escapeTemplate (js "a`b$c") ++ "`"%char :: []) = Value (js "a`b$c") [].
Proof.
  assert (H1 : "\"%char ∉ js "a`b$c") by decide_by_compute.
  assert (H2 : CR ∉ js "a`b$c") by decide_by_compute.
  split; [exact H1|]. split; [exact H2|].
  exact (escapeTemplate_reads_back (js "a`b$c") [] H1 H2).
Defined.

Lemma list_passes_plain_line_witness :
  list_passes (js "intro" ++ LF :: js "- a") =
    js "intro" ++ LF :: Html.UL_OPEN ++ list_item (js "a") ++ Html.UL_CLOSE.
Proof.
  rewrite (list_passes_plain_line (js "intro") (js "- a")).
  - vm_compute. reflexivity.
  - vm_compute. reflexivity.
  - decide_by_compute.
  - vm_compute. reflexivity.
Defined.
(** * Further properties *)

(** ** Fatal errors *)

(** The delete flag without a slug behind it, or with an empty one or one
    that looks like a flag, prints the request for a slug and ends the
    process with status 1; nothing is read from the prompts and nothing on
    disk is touched. *)
Theorem delete_flag_without_slug_exits_1 (args : list jsstring) (w : World) :
  args_include "--delete" args = false ->
  args_include "-d" args || args_include "--delete-slug" args = true ->
  (after_delete_flag args = None \/ after_delete_flag args = Some [] \/
   exists s, after_delete_flag args = Some s /\ Js.startsWith (js "-") s = true) ->
  script args w =
    (Exit 1, add_line (Line (js "Please provide an article slug to delete") red) w) /\
  exit_status (script args w).1 = Some 1%Z.
Proof.
  intros Hdel Hd Hslug.
  assert (Hrun : script args w =
    (Exit 1, add_line (Line (js "Please provide an article slug to delete") red) w)).
  { unfold script, main. rewrite Hdel, Hd.
    destruct Hslug as [-> | [-> | (s & -> & Hs)]]; [reflexivity..|].
    destruct s as [|c s]; [reflexivity|]. rewrite Hs. reflexivity. }
  by rewrite Hrun.
Qed.

Lemma delete_flag_without_slug_witness :
  script [js "-d"] (Sample.world Sample.built) =
    (Exit 1, add_line (Line (js "Please provide an article slug to delete") red)
               (Sample.world Sample.built)) /\
  script [js "--delete-slug"; js "--all"] (Sample.world Sample.built) =
    (Exit 1, add_line (Line (js "Please provide an article slug to delete") red)
               (Sample.world Sample.built)).
Proof.
  split.
  - apply (delete_flag_without_slug_exits_1 [js "-d"] (Sample.world Sample.built));
      [vm_compute; reflexivity..|]. left. vm_compute. reflexivity.
  - apply (delete_flag_without_slug_exits_1 [js "--delete-slug"; js "--all"]
             (Sample.world Sample.built)); [vm_compute; reflexivity..|].
    right; right. exists (js "--all"). split; vm_compute; reflexivity.
Defined.

Lemma map_throw_fails {A B} (f : A -> Exn + B) (xs : list A) (x : A) (e : Exn) :
  x ∈ xs -> f x = inl e ->
  exists x' e', x' ∈ xs /\ f x' = inl e' /\ map_throw f xs = inl e'.
Proof.
  induction xs as [|y xs IH]; [by intros ?%elem_of_nil|].
  intros Hx He. simpl.
  destruct (f y) as [e1|b] eqn:Hy.
  - exists y, e1. split; [by left|done].
  - apply elem_of_cons in Hx as [->|Hx]; [congruence|].
    destruct (IH Hx He) as (x' & e' & Hx' & He' & Hm).
    exists x', e'. split; [by right|]. split; [done|]. by rewrite Hm.
Qed.

Lemma map_M_reading_run (files : list jsstring) (w : World) :
  exists ls,
    map_M (fun file => log (js "  Reading: " ++ file) cyan;; processMarkdownFile file) files w
    = (outcome_of (map_throw (load (fsys w)) files), add_lines ls w).
Proof.
  revert w. induction files as [|f files IH]; intros w; simpl.
  - exists []. unfold add_lines. rewrite app_nil_r. by destruct w.
  - rewrite !bind_run. simpl. rewrite processMarkdownFile_run. simpl.
    destruct (load (fsys w) f) as [e|a]; simpl.
    + by exists [Line (js "  Reading: " ++ f) cyan].
    + rewrite bind_run.
      destruct (IH {| fsys := fsys w;
                      console := console w ++ [Line (js "  Reading: " ++ f) cyan];
                      stdin := stdin w |}) as (ls & ->). simpl.
      exists (Line (js "  Reading: " ++ f) cyan :: ls).
      unfold add_lines. simpl. rewrite <- app_assoc. simpl.
      by destruct (map_throw (load (fsys w)) files).
Qed.

(** When a markdown file of the content directory cannot be processed (its
    header is malformed, or its image field is a list), build-all ends the
    process with status 1 after printing the message of such a file as an
    error, and the file system is untouched: no image is copied, no
    module and no index is written. *)
Theorem build_all_aborts_on_bad_article
    (args : list jsstring) (w : World) (file : jsstring) (e : Exn) :
  args_include "--delete" args = false ->
  args_include "-d" args || args_include "--delete-slug" args = false ->
  args_include "--all" args || args_include "-a" args = true ->
  file ∈ markdown_files (fsys w) ->
  load (fsys w) file = inl e ->
  exists w' file' e',
    script args w = (Exit 1, w') /\
    fsys w' = fsys w /\
    file' ∈ markdown_files (fsys w) /\ load (fsys w) file' = inl e' /\
    last (console w') = Some (Line (js "Error: " ++ exn_message e') red).
Proof.
  intros Hdel Hd Hall Hfile He.
  destruct (map_throw_fails _ _ _ _ Hfile He) as (file' & e' & Hfile' & He' & Hmap).
  assert (Hne : length (markdown_files (fsys w)) <> 0).
  { destruct (markdown_files (fsys w)); [by apply elem_of_nil in Hfile|done]. }
  assert (Hbuild : exists ls, build (js "all") w = (Throw e', add_lines ls w)).
  { unfold build. do 3 (rewrite bind_run; simpl).
    rewrite bind_run, getMarkdownFiles_run. simpl.
    rewrite bool_decide_false by done.
    replace (Js.eqb (js "all") (js "all")) with true by (vm_compute; reflexivity).
    rewrite bool_decide_false by done.
    rewrite bind_run. simpl. rewrite bind_run.
    match goal with |- context [map_M ?f ?fs ?w0] =>
      destruct (map_M_reading_run fs w0) as (ls & ->) end.
    simpl. rewrite Hmap. simpl. eexists. unfold add_lines. simpl.
    rewrite <- !app_assoc. reflexivity. }
  destruct Hbuild as (ls & Hbuild).
  exists (add_line (Line (js "Error: " ++ exn_message e') red) (add_lines ls w)), file', e'.
  split; [|split; [done|]; split; [done|]; split; [done|apply last_snoc]].
  unfold script, main. rewrite Hdel, Hd, Hall, Hbuild. reflexivity.
Qed.

Lemma build_all_aborts_witness :
  js "draft.md" ∈ markdown_files (fsys (Sample.world Broken.disk)) /\
  load (fsys (Sample.world Broken.disk)) (js "draft.md")
    = inl (Error (js "Invalid frontmatter format")) /\
  exists w', script [js "--all"] (Sample.world Broken.disk) = (Exit 1, w') /\
             fsys w' = Broken.disk.
Proof.
  assert (H1 : js "draft.md" ∈ markdown_files (fsys (Sample.world Broken.disk))).
  { vm_compute. right. left. }
  assert (H2 : load (fsys (Sample.world Broken.disk)) (js "draft.md")
               = inl (Error (js "Invalid frontmatter format"))) by (vm_compute; reflexivity).
  split; [exact H1|]. split; [exact H2|].
  destruct (build_all_aborts_on_bad_article [js "--all"] (Sample.world Broken.disk)
              (js "draft.md") _ eq_refl eq_refl eq_refl H1 H2)
    as (w' & _ & _ & Hrun & Hfs & _).
  exists w'. split; [exact Hrun | exact Hfs].
Defined.

(** When the module of the slug exists but a markdown file on disk cannot be
    processed, [deleteArticle] has already removed the module when the
    exception of the first such file is thrown: the module is gone, every
    other file of the output directory, the index among them, is as it was,
    and the index is not regenerated. *)
Theorem deleteArticle_not_atomic_on_bad_article
    (slug : jsstring) (w : World) (m : gmap (list ascii) (list ascii))
    (file : jsstring) (e : Exn) :
  output_data (fsys w) = Some m ->
  is_Some (m !! (slug ++ js ".ts")) ->
  file ∈ markdown_files (fsys w) ->
  load (fsys w) file = inl e ->
  exists w' file' e',
    deleteArticle slug w = (Throw e', w') /\
    file' ∈ markdown_files (fsys w) /\ load (fsys w) file' = inl e' /\
    output_data (fsys w') = Some (delete (slug ++ js ".ts") m) /\
    output_file (fsys w') (slug ++ js ".ts") = None /\
    (forall name, name <> slug ++ js ".ts" ->
       output_file (fsys w') name = output_file (fsys w) name).
Proof.
  intros Hm Hn Hfile He.
  destruct (map_throw_fails _ _ _ _ Hfile He) as (file' & e' & Hfile' & He' & Hmap).
  assert (Hne : length (markdown_files (fsys w)) <> 0).
  { destruct (markdown_files (fsys w)); [by apply elem_of_nil in Hfile|done]. }
  assert (Hex : output_exists (slug ++ js ".ts") (fsys w) = true).
  { apply output_exists_true. eauto. }
  unfold deleteArticle. rewrite bind_run, existsSync_output_true by done. cbn [negb].
  rewrite bind_run, (unlink_output_run _ _ m Hm Hn).
  rewrite bind_run. simpl.
  rewrite bind_run, getMarkdownFiles_run. simpl.
  change (markdown_files (set_output _ (fsys w))) with (markdown_files (fsys w)).
  rewrite bool_decide_false by done.
  rewrite bind_run, bind_run, map_M_processMarkdownFile_run. simpl.
  change (load (set_output _ (fsys w))) with (load (fsys w)).
  rewrite Hmap. simpl.
  eexists _, file', e'. split; [reflexivity|]. simpl.
  split; [done|]. split; [done|]. split; [reflexivity|].
  unfold output_file. simpl. rewrite Hm. simpl.
  split; [apply lookup_delete_eq|].
  intros name Hname. by rewrite lookup_delete_ne.
Qed.

Lemma deleteArticle_not_atomic_witness :
  exists w' e',
    deleteArticle (js "hello-world") (Sample.world Broken.disk) = (Throw e', w') /\
    output_file (fsys w') (js "hello-world" ++ js ".ts") = None /\
    output_file (fsys w') (js "index.ts") = Some Sample.hello_index.
Proof.
  destruct (deleteArticle_not_atomic_on_bad_article (js "hello-world")
              (Sample.world Broken.disk)
              {[ js "hello-world.ts" := Sample.hello_ts; js "index.ts" := Sample.hello_index ]}
              (js "draft.md") (Error (js "Invalid frontmatter format")))
    as (w' & file' & e' & Hrun & _ & _ & _ & Hgone & Hrest).
  - reflexivity.
  - vm_compute. eauto.
  - vm_compute. right. left.
  - vm_compute. reflexivity.
  - exists w', e'. split; [exact Hrun|]. split; [exact Hgone|].
    rewrite Hrest; [vm_compute; reflexivity|]. vm_compute. discriminate.
Defined.

(** ** What [generateTypeScriptFiles] needs and what it leaves on failure *)

Lemma camelCase_string (a : Article) :
  has_string_slug a = true -> exists name, camelCase (slug a) = inr name.
Proof.
  unfold has_string_slug. destruct (slug a) as [[s|items]|]; [|done..].
  intros _. simpl. eauto.
Qed.

Lemma camelCase_not_string (a : Article) :
  has_string_slug a = false -> exists msg, camelCase (slug a) = inl (TypeError msg).
Proof.
  unfold has_string_slug. destruct (slug a) as [[s|items]|]; [done|..]; intros _; simpl; eauto.
Qed.

Lemma map_throw_all {A B} (f : A -> Exn + B) (xs : list A) :
  (forall x, x ∈ xs -> exists y, f x = inr y) -> exists ys, map_throw f xs = inr ys.
Proof.
  induction xs as [|x xs IH]; intros H; simpl; [eauto|].
  destruct (H x) as [y ->]; [by left|].
  destruct IH as [ys ->]; [|eauto]. intros x' Hx'. apply H. by right.
Qed.

Lemma article_writes_all (articles : list Article) :
  Forall (fun a => is_file_name (module_file a) = true) articles ->
  forallb has_string_slug articles = true -> (article_writes articles).2 = None.
Proof.
  induction 1 as [|a articles Hn _ IH]; [done|]. simpl.
  intros [Ha Hall]%andb_true_iff.
  unfold articleContent. destruct (camelCase_string a Ha) as [name ->]. rewrite Hn.
  specialize (IH Hall). by destruct (article_writes articles).
Qed.

Lemma article_writes_some (articles : list Article) :
  Forall (fun a => is_file_name (module_file a) = true) articles ->
  forallb has_string_slug articles = false ->
  exists msg, (article_writes articles).2 = Some (Thrown (TypeError msg)).
Proof.
  induction 1 as [|a articles Hn _ IH]; [done|]. simpl.
  destruct (has_string_slug a) eqn:Ha; simpl.
  - intros Hall. unfold articleContent. destruct (camelCase_string a Ha) as [name ->].
    rewrite Hn. destruct (IH Hall) as [msg Hmsg]. exists msg.
    by destruct (article_writes articles).
  - intros _. unfold articleContent. destruct (camelCase_not_string a Ha) as [msg ->].
    by exists msg.
Qed.

Lemma indexContent_all (articles : list Article) :
  forallb has_string_slug articles = true -> exists text, indexContent articles = inr text.
Proof.
  intros Hall. unfold indexContent.
  assert (H : forall a, a ∈ articles -> has_string_slug a = true).
  { intros a Ha. rewrite forallb_forall in Hall. apply Hall. by apply list_elem_of_In. }
  destruct (map_throw_all import_line articles) as [imports ->].
  { intros a Ha. unfold import_line. destruct (camelCase_string a (H a Ha)) as [n ->]. eauto. }
  destruct (map_throw_all mapping_line articles) as [mappings ->].
  { intros a Ha. unfold mapping_line. destruct (camelCase_string a (H a Ha)) as [n ->]. eauto. }
  eauto.
Qed.

(** For articles whose module names are file names, [generateTypeScriptFiles]
    returns normally exactly when the slug of every article is a string; an
    article whose slug is missing or is a list makes it throw a type
    error. *)
Theorem generateTypeScriptFiles_needs_string_slugs (articles : list Article) (w : World) :
  Forall (fun a => is_file_name (module_file a) = true) articles ->
  ((generateTypeScriptFiles articles w).1 = Ret tt <->
   forallb has_string_slug articles = true) /\
  (forallb has_string_slug articles = false ->
   exists msg, (generateTypeScriptFiles articles w).1 = Throw (TypeError msg)).
Proof.
  intros Hnames.
  rewrite generateTypeScriptFiles_run. simpl. unfold generate_writes.
  destruct (forallb has_string_slug articles) eqn:Hall.
  - pose proof (article_writes_all _ Hnames Hall) as Hw.
    destruct (indexContent_all _ Hall) as [text Ht].
    destruct (article_writes articles) as [ws e]. simpl in Hw. subst e. rewrite Ht. simpl.
    split; [done|]. intros [=].
  - destruct (article_writes_some _ Hnames Hall) as [msg Hw].
    destruct (article_writes articles) as [ws e]. simpl in Hw. subst e. simpl.
    split; [split; [intros [=]|intros [=]]|]. intros _. by exists msg.
Qed.

Lemma generateTypeScriptFiles_needs_string_slugs_witness :
  (generateTypeScriptFiles [Sample.hello] (Sample.world Sample.orphaned)).1 = Ret tt /\
  exists msg,
    (generateTypeScriptFiles [Sample.hello; {| slug := None; meta := ∅; html := [] |}]
       (Sample.world Sample.orphaned)).1 = Throw (TypeError msg).
Proof.
  split.
  - apply (generateTypeScriptFiles_needs_string_slugs [Sample.hello]).
    + repeat constructor.
    + vm_compute. reflexivity.
  - apply (generateTypeScriptFiles_needs_string_slugs
             [Sample.hello; {| slug := None; meta := ∅; html := [] |}]).
    + repeat constructor.
    + vm_compute. reflexivity.
Defined.

Lemma article_writes_names (articles : list Article) (name : jsstring) :
  name ∈ (article_writes articles).1.*1 -> name ∈ map module_file articles.
Proof.
  induction articles as [|a articles IH]; simpl; [done|].
  destruct (articleContent a) as [e|text]; simpl; [by intros ?%elem_of_nil|].
  destruct (is_file_name (module_file a)); [|by intros ?%elem_of_nil].
  destruct (article_writes articles) as [ws e]. simpl in *.
  intros [->|H]%elem_of_cons; [by left|]. right. by apply IH.
Qed.

(** When [generateTypeScriptFiles] throws, it has written at most modules of
    its articles: every other file of the output directory, the index
    included unless an article is itself named [index], is what it was
    before. *)
Theorem generateTypeScriptFiles_failure_keeps_index
    (articles : list Article) (w : World) (e : Exn) (name : jsstring) :
  (generateTypeScriptFiles articles w).1 = Throw e ->
  name ∉ map module_file articles ->
  output_file (fsys (generateTypeScriptFiles articles w).2) name = output_file (fsys w) name.
Proof.
  rewrite generateTypeScriptFiles_run. cbn [fst snd]. unfold upd. cbn [fsys].
  unfold generate_writes.
  intros Hfail Hname. rewrite output_file_upd_fs.
  assert (Hws : name ∉ (article_writes articles).1.*1).
  { intros H. by apply Hname, article_writes_names. }
  destruct (article_writes articles) as [ws [st|]]; simpl in *.
  - rewrite write_all_lookup_notin by done.
    unfold output_file. by destruct (output_data (fsys w)).
  - destruct (indexContent articles) as [e'|text]; simpl in *; [|done].
    rewrite write_all_lookup_notin by done.
    unfold output_file. by destruct (output_data (fsys w)).
Qed.

Lemma generateTypeScriptFiles_failure_witness :
  (generateTypeScriptFiles [Sample.hello; {| slug := None; meta := ∅; html := [] |}]
     (Sample.world Sample.orphaned)).1 =
    Throw (TypeError (js "Cannot read properties of undefined (reading 'replace')")) /\
  output_file (fsys (generateTypeScriptFiles
                       [Sample.hello; {| slug := None; meta := ∅; html := [] |}]
                       (Sample.world Sample.orphaned)).2) (js "index.ts")
    = Some Sample.hello_index.
Proof.
  assert (H : (generateTypeScriptFiles [Sample.hello; {| slug := None; meta := ∅; html := [] |}]
                 (Sample.world Sample.orphaned)).1 =
              Throw (TypeError (js "Cannot read properties of undefined (reading 'replace')"))).
  { vm_compute. reflexivity. }
  split; [exact H|].
  rewrite (generateTypeScriptFiles_failure_keeps_index _ _ _ (js "index.ts") H).
  - vm_compute. reflexivity.
  - decide_by_compute.
Defined.

(** ** Copying images *)

Lemma image_writes_elem (images : list (jsstring * DirEntry)) (name bytes : jsstring) :
  (name, bytes) ∈ image_writes images <-> (name, RegularFile bytes) ∈ images.
Proof.
  induction images as [|[n [b|]] images IH]; simpl.
  - split; by intros ?%elem_of_nil.
  - rewrite !elem_of_cons, IH. split; intros [H|H]; auto; left; congruence.
  - rewrite elem_of_cons, IH. split; [auto|]. by intros [?|?].
Qed.

Lemma image_writes_names (images : list (jsstring * DirEntry)) (name : jsstring) :
  name ∈ (image_writes images).*1 -> name ∈ images.*1.
Proof.
  induction images as [|[n [b|]] images IH]; simpl; [done|..].
  - intros [->|H]%elem_of_cons; [by left|]. right. by apply IH.
  - intros H. right. by apply IH.
Qed.

Lemma image_writes_NoDup (images : list (jsstring * DirEntry)) :
  NoDup (images.*1) -> NoDup ((image_writes images).*1).
Proof.
  induction images as [|[n [b|]] images IH]; simpl; [done|..].
  - intros [Hn Hnd]%NoDup_cons. apply NoDup_cons. split; [|by apply IH].
    intros H. by apply Hn, image_writes_names.
  - intros [_ Hnd]%NoDup_cons. by apply IH.
Qed.

Lemma NoDup_fst_unique {A B} (l : list (A * B)) (k : A) (v v' : B) :
  NoDup (l.*1) -> (k, v) ∈ l -> (k, v') ∈ l -> v = v'.
Proof.
  induction l as [|[k0 v0] l IH]; simpl; [by intros _ ?%elem_of_nil|].
  intros [Hk Hnd]%NoDup_cons [H1|H1]%elem_of_cons [H2|H2]%elem_of_cons.
  - congruence.
  - injection H1 as -> ->. exfalso. apply Hk. apply list_elem_of_fmap. by exists (k0, v').
  - injection H2 as -> ->. exfalso. apply Hk. apply list_elem_of_fmap. by exists (k0, v).
  - by apply IH.
Qed.

(** With an images directory whose entries have distinct names,
    [copyImages] returns normally, and afterwards the public images
    directory exists, holds every regular file of the images directory under
    its name with its bytes, and holds under every other name what it held
    before; entries that are no regular files are skipped, and the generated
    modules are not touched. *)
Theorem copyImages_copies_regular_files
    (w : World) (images : list (jsstring * DirEntry)) :
  blog_images (fsys w) = Some images ->
  NoDup (images.*1) ->
  exists w' pub,
    copyImages w = (Ret tt, w') /\
    public_images (fsys w') = Some pub /\
    output_data (fsys w') = output_data (fsys w) /\
    (forall name bytes, (name, RegularFile bytes) ∈ images -> pub !! name = Some bytes) /\
    (forall name, (forall bytes, (name, RegularFile bytes) ∉ images) ->
       pub !! name = public_images (fsys w) ≫= fun old => old !! name).
Proof.
  intros Himg Hnd. rewrite copyImages_run, Himg.
  eexists _, _. split; [reflexivity|]. split; [reflexivity|]. split; [reflexivity|].
  split.
  - intros name bytes Hin. apply image_writes_elem in Hin.
    destruct (write_all_lookup_in (image_writes images)
                (default ∅ (public_images (fsys w))) name) as (v & Hv & Hl & _).
    { apply list_elem_of_fmap. by exists (name, bytes). }
    rewrite Hl. f_equal.
    apply (NoDup_fst_unique (image_writes images) name v bytes);
      [by apply image_writes_NoDup|done..].
  - intros name Hnot. rewrite write_all_lookup_notin.
    + by destruct (public_images (fsys w)).
    + intros ((n & b) & -> & Hin)%list_elem_of_fmap. simpl in *.
      apply image_writes_elem in Hin. by apply (Hnot b).
Qed.

Lemma copyImages_witness :
  exists w' pub,
    copyImages (Sample.world Broken.disk) = (Ret tt, w') /\
    public_images (fsys w') = Some pub /\
    pub !! js "hello.png" = Some (js "PNG") /\
    pub !! js "raw" = None.
Proof.
  destruct (copyImages_copies_regular_files (Sample.world Broken.disk)
              [(js "hello.png", RegularFile (js "PNG")); (js "raw", NotAFile)])
    as (w' & pub & Hrun & Hpub & _ & Hin & Hout).
  - reflexivity.
  - decide_by_compute.
  - exists w', pub. split; [exact Hrun|]. split; [exact Hpub|]. split.
    + apply Hin. left.
    + rewrite Hout; [reflexivity|].
      intros bytes [H|[H|H%elem_of_nil]%elem_of_cons]%elem_of_cons; [|done..].
      vm_compute in H. discriminate.
Defined.

(** ** Building one article *)

Lemma bind_print (l : ConsoleLine) {B} (k : unit -> M B) (w : World) :
  (print l ≫= k) w = k tt (add_line l w).
Proof. reflexivity. Qed.

Lemma bind_log msg c {B} (k : unit -> M B) (w : World) :
  (log msg c ≫= k) w = k tt (add_line (Line msg c) w).
Proof. reflexivity. Qed.

Lemma bind_blank {B} (k : unit -> M B) (w : World) :
  (console_log_empty ≫= k) w = k tt (add_line Blank w).
Proof. reflexivity. Qed.

Lemma copyImages_view (w : World) :
  exists w', copyImages w = (Ret tt, w') /\
             output_data (fsys w') = output_data (fsys w) /\
             sources (fsys w') = sources (fsys w).
Proof.
  rewrite copyImages_run. eexists. split; [reflexivity|].
  destruct (blog_images (fsys w)); split; reflexivity.
Qed.

(** The end of [build]: the banner. *)
Lemma build_banner_run (w : World) :
  exists w',
    (console_log_empty;;
     box green (js "║       Build completed successfully!      ║");;
     console_log_empty) w = (Ret tt, w') /\ fsys w' = fsys w.
Proof. eexists. split; reflexivity. Qed.

(** Copying and generating, as both branches of [build] do it. *)
Lemma build_generate_run (articles : list Article) (w : World) :
  exists w',
    (console_log_empty;;
     log (js "Copying images...") yellow;;
     copyImages;;
     console_log_empty;;
     log (js "Generating TypeScript files...") yellow;;
     generateTypeScriptFiles articles;;
     console_log_empty;;
     box green (js "║       Build completed successfully!      ║");;
     console_log_empty) w = ((generate_writes articles).2, w') /\
    output_data (fsys w') =
      Some (write_all (generate_writes articles).1 (default ∅ (output_data (fsys w)))).
Proof.
  rewrite bind_blank, bind_log, bind_run.
  destruct (copyImages_view (add_line (Line (js "Copying images...") yellow)
                               (add_line Blank w))) as (w1 & -> & Ho & _).
  rewrite bind_blank, bind_log, bind_run, generateTypeScriptFiles_run.
  simpl in Ho.
  destruct (generate_writes articles) as [gw o] eqn:Hgw. cbn [fst snd].
  destruct o as [[]|c|e| |].
  - match goal with |- context [(_ ≫= _) ?w0] =>
      destruct (build_banner_run w0) as (w2 & Hb & Hfs) end.
    rewrite Hb. eexists. split; [reflexivity|]. rewrite Hfs. simpl. by rewrite Ho.
  - eexists. split; [reflexivity|]. simpl. by rewrite Ho.
  - eexists. split; [reflexivity|]. simpl. by rewrite Ho.
  - eexists. split; [reflexivity|]. simpl. by rewrite Ho.
  - eexists. split; [reflexivity|]. simpl. by rewrite Ho.
Qed.

Lemma map_throw_filter {A B} (f : A -> Exn + B) (P : A -> Prop) `{forall x, Decision (P x)}
    (xs : list A) (ys : list B) :
  map_throw f xs = inr ys -> exists zs, map_throw f (filter P xs) = inr zs.
Proof.
  revert ys. induction xs as [|x xs IH]; intros ys; simpl; [eauto|].
  destruct (f x) as [e|y] eqn:Hx; [done|].
  destruct (map_throw f xs) as [e|ys'] eqn:Hxs; [done|]. intros _.
  destruct (IH ys' eq_refl) as [zs Hzs].
  rewrite filter_cons. case_decide; [|eauto].
  simpl. rewrite Hx, Hzs. eauto.
Qed.

(** What [build] leaves in the output directory and how it ends, for the
    target [all]. *)
Lemma build_all_output (w : World) :
  markdown_files (fsys w) <> [] ->
  exists w',
    build (js "all") w =
      (match map_throw (load (fsys w)) (markdown_files (fsys w)) with
       | inl e => Throw e
       | inr articles => (generate_writes articles).2
       end, w') /\
    output_data (fsys w') =
      match map_throw (load (fsys w)) (markdown_files (fsys w)) with
      | inl e => output_data (fsys w)
      | inr articles =>
          Some (write_all (generate_writes articles).1 (default ∅ (output_data (fsys w))))
      end.
Proof.
  intros Hne.
  assert (Hlen : length (markdown_files (fsys w)) <> 0) by (by destruct (markdown_files (fsys w))).
  unfold build. rewrite bind_blank, bind_log, bind_blank.
  rewrite bind_run, getMarkdownFiles_run. cbn [fst snd add_lines fsys].
  change (fsys (add_line _ (add_line _ (add_line _ w)))) with (fsys w).
  rewrite bool_decide_false by done.
  replace (Js.eqb (js "all") (js "all")) with true by (vm_compute; reflexivity).
  rewrite bool_decide_false by done.
  rewrite bind_log, bind_run.
  match goal with |- context [map_M ?f ?fs ?w0] =>
    destruct (map_M_reading_run fs w0) as (ls & ->) end.
  cbn [fsys add_line add_lines].
  destruct (map_throw (load (fsys w)) (markdown_files (fsys w))) as [e|articles]; simpl.
  - eexists. split; reflexivity.
  - match goal with |- context [(_ ≫= _) ?w0] =>
      destruct (build_generate_run articles w0) as (w' & Hrun & Hout) end.
    exists w'. split; [exact Hrun|exact Hout].
Qed.

(** The same for one target, when the index is there already. *)
Lemma build_one_output (target : jsstring) (w : World) :
  target <> js "all" ->
  output_exists (js "index.ts") (fsys w) = true ->
  filter (fun f => basename_md f = target) (markdown_files (fsys w)) <> [] ->
  exists o w',
    build target w = (o, w') /\
    (o = Ret tt <->
     exists articles,
       map_throw (load (fsys w)) (markdown_files (fsys w)) = inr articles /\
       (generate_writes articles).2 = Ret tt) /\
    output_data (fsys w') =
      match map_throw (load (fsys w)) (markdown_files (fsys w)) with
      | inl e => output_data (fsys w)
      | inr articles =>
          Some (write_all (generate_writes articles).1 (default ∅ (output_data (fsys w))))
      end.
Proof.
  intros Hall Hidx Hsome.
  assert (Hne : markdown_files (fsys w) <> []).
  { intros E. rewrite E in Hsome. done. }
  assert (Hlen : length (markdown_files (fsys w)) <> 0) by (by destruct (markdown_files (fsys w))).
  assert (Hlen' : length (filter (fun f => basename_md f = target) (markdown_files (fsys w)))
                  <> 0) by (by destruct (filter _ (markdown_files (fsys w)))).
  unfold build. rewrite bind_blank, bind_log, bind_blank.
  rewrite bind_run, getMarkdownFiles_run. cbn [fst snd add_lines fsys].
  change (fsys (add_line _ (add_line _ (add_line _ w)))) with (fsys w).
  rewrite bool_decide_false by done.
  rewrite !(Js_eqb_ne target (js "all")) by done.
  rewrite bool_decide_false by done.
  rewrite bind_log, bind_run.
  match goal with |- context [map_M ?f ?fs ?w0] =>
    destruct (map_M_reading_run fs w0) as (ls & ->) end.
  cbn [fsys add_line add_lines negb].
  destruct (map_throw (load (fsys w))
              (filter (fun f => basename_md f = target) (markdown_files (fsys w))))
    as [e|articles1] eqn:Hone; simpl.
  { eexists _, _. split; [reflexivity|]. split.
    - split; [intros [=]|]. intros (articles & Hmap & _).
      destruct (map_throw_filter _ (fun f => basename_md f = target) _ _ Hmap) as [zs Hzs].
      congruence.
    - simpl.
      destruct (map_throw (load (fsys w)) (markdown_files (fsys w))) as [e'|articles] eqn:Hmap;
        [done|].
      destruct (map_throw_filter _ (fun f => basename_md f = target) _ _ Hmap) as [zs Hzs].
      congruence. }
  rewrite bind_blank, bind_log, bind_run.
  match goal with |- context [copyImages ?w0] =>
    destruct (copyImages_view w0) as (w1 & -> & Ho & Hs) end.
  cbn [fsys add_line add_lines] in Ho, Hs.
  rewrite bind_blank, bind_log, bind_run, bind_run. cbn [get_fs fst snd fsys add_line add_lines].
  assert (Hidx1 : output_exists (js "index.ts") (fsys w1) = true).
  { unfold output_exists in *. by rewrite Ho. }
  rewrite Hidx1.
  rewrite bind_run, map_M_processMarkdownFile_run. cbn [fsys add_line add_lines].
  rewrite (sources_load _ _ Hs).
  destruct (map_throw (load (fsys w)) (markdown_files (fsys w))) as [e|articles] eqn:Hmap; simpl.
  { eexists _, _. split; [reflexivity|]. split.
    - split; [intros [=]|]. by intros (articles & [=] & _).
    - simpl. exact Ho. }
  rewrite generateTypeScriptFiles_run.
  destruct (generate_writes articles) as [gw o] eqn:Hgw. cbn [fst snd].
  destruct o as [[]|c|e| |].
  - match goal with |- context [(_ ≫= _) ?w0] =>
      destruct (build_banner_run w0) as (w2 & Hb & Hfs) end.
    rewrite Hb. eexists _, _. split; [reflexivity|]. split.
    + split; [|done]. intros _. exists articles. by rewrite Hgw.
    + cbn [snd]. rewrite Hfs. simpl. by rewrite Ho.
  - eexists _, _. split; [reflexivity|]. split.
    + split; [intros [=]|]. intros (a' & [= <-] & H). rewrite Hgw in H. done.
    + simpl. by rewrite Ho.
  - eexists _, _. split; [reflexivity|]. split.
    + split; [intros [=]|]. intros (a' & [= <-] & H). rewrite Hgw in H. done.
    + simpl. by rewrite Ho.
  - eexists _, _. split; [reflexivity|]. split.
    + split; [intros [=]|]. intros (a' & [= <-] & H). rewrite Hgw in H. done.
    + simpl. by rewrite Ho.
  - eexists _, _. split; [reflexivity|]. split.
    + split; [intros [=]|]. intros (a' & [= <-] & H). rewrite Hgw in H. done.
    + simpl. by rewrite Ho.
Qed.

(** Building one article when an index exists already regenerates the whole
    set: for a target that names a markdown file, the output directory after
    [build target] holds exactly what it holds after build-all, and the one
    returns normally exactly when the other does. *)
Theorem build_one_regenerates_whole_set (target : jsstring) (w : World) (file : jsstring) :
  target <> js "all" ->
  output_exists (js "index.ts") (fsys w) = true ->
  file ∈ markdown_files (fsys w) ->
  basename_md file = target ->
  output_data (fsys (build target w).2) = output_data (fsys (build (js "all") w).2) /\
  ((build target w).1 = Ret tt <-> (build (js "all") w).1 = Ret tt).
Proof.
  intros Hall Hidx Hfile Hbase.
  assert (Hsome : filter (fun f => basename_md f = target) (markdown_files (fsys w)) <> []).
  { intros E.
    by apply (filter_nil_not_elem_of (fun f => basename_md f = target) _ file E). }
  assert (Hne : markdown_files (fsys w) <> []).
  { intros E. rewrite E in Hfile. by apply elem_of_nil in Hfile. }
  destruct (build_one_output target w Hall Hidx Hsome) as (o & w1 & -> & Ho & Hout1).
  destruct (build_all_output w Hne) as (w2 & -> & Hout2).
  cbn [fst snd]. split; [by rewrite Hout1, Hout2|].
  rewrite Ho.
  destruct (map_throw (load (fsys w)) (markdown_files (fsys w))) as [e|articles].
  - split; [by intros (a & [=] & _)|intros [=]].
  - split; [by intros (a & [= <-] & H)|]. intros H. by exists articles.
Qed.

Lemma build_one_witness :
  output_data (fsys (build (js "hello-world") (Sample.world Sample.built)).2) =
    output_data (fsys (build (js "all") (Sample.world Sample.built)).2) /\
  ((build (js "hello-world") (Sample.world Sample.built)).1 = Ret tt <->
   (build (js "all") (Sample.world Sample.built)).1 = Ret tt).
Proof.
  apply (build_one_regenerates_whole_set (js "hello-world") (Sample.world Sample.built)
           (js "hello-world.md")).
  - discriminate.
  - vm_compute. reflexivity.
  - vm_compute. left.
  - vm_compute. reflexivity.
Defined.

(** Building one article when no index exists yet writes an index of that
    article alone: after a [build target] that returns normally the index
    holds one entry for each markdown file whose name is the target, and none
    for the other markdown files on disk. *)
Theorem build_one_without_index_lists_target_only (target : jsstring) (w : World) :
  target <> js "all" ->
  output_exists (js "index.ts") (fsys w) = false ->
  filter (fun f => basename_md f = target) (markdown_files (fsys w)) <> [] ->
  (build target w).1 = Ret tt ->
  exists articles text,
    Forall2 (fun file a => load (fsys w) file = inr a)
      (filter (fun f => basename_md f = target) (markdown_files (fsys w))) articles /\
    indexContent articles = inr text /\
    output_file (fsys (build target w).2) (js "index.ts") = Some text.
Proof.
  intros Hall Hidx Hsome.
  assert (Hne : markdown_files (fsys w) <> []).
  { intros E. rewrite E in Hsome. done. }
  assert (Hlen : length (markdown_files (fsys w)) <> 0) by (by destruct (markdown_files (fsys w))).
  assert (Hlen' : length (filter (fun f => basename_md f = target) (markdown_files (fsys w)))
                  <> 0) by (by destruct (filter _ (markdown_files (fsys w)))).
  unfold build. rewrite bind_blank, bind_log, bind_blank.
  rewrite bind_run, getMarkdownFiles_run. cbn [fst snd add_lines fsys].
  change (fsys (add_line _ (add_line _ (add_line _ w)))) with (fsys w).
  rewrite bool_decide_false by done.
  rewrite !(Js_eqb_ne target (js "all")) by done.
  rewrite bool_decide_false by done.
  rewrite bind_log, bind_run.
  match goal with |- context [map_M ?f ?fs ?w0] =>
    destruct (map_M_reading_run fs w0) as (ls & ->) end.
  cbn [fsys add_line add_lines negb].
  destruct (map_throw (load (fsys w))
              (filter (fun f => basename_md f = target) (markdown_files (fsys w))))
    as [e|articles] eqn:Hone; simpl; [intros [=]|].
  rewrite bind_blank, bind_log, bind_run.
  match goal with |- context [copyImages ?w0] =>
    destruct (copyImages_view w0) as (w1 & -> & Ho & Hs) end.
  cbn [fsys add_line add_lines] in Ho, Hs.
  rewrite bind_blank, bind_log, bind_run, bind_run. cbn [get_fs fst snd fsys add_line add_lines].
  assert (Hidx1 : output_exists (js "index.ts") (fsys w1) = false).
  { unfold output_exists in *. by rewrite Ho. }
  rewrite Hidx1, generateTypeScriptFiles_run.
  destruct (generate_writes articles) as [gw o] eqn:Hgw. cbn [fst snd].
  destruct o as [[]|c|e| |]; [|intros [=]..].
  match goal with |- context [(_ ≫= _) ?w0] =>
    destruct (build_banner_run w0) as (w2 & Hb & Hfs) end.
  rewrite Hb. intros _. cbn [snd]. rewrite Hfs.
  destruct (generate_writes_ok _ _ Hgw) as (aw & text & -> & Htext & _).
  exists articles, text. split; [by apply map_throw_length|]. split; [done|].
  unfold upd. cbn [fsys]. rewrite output_file_upd_fs, write_all_snoc.
  apply lookup_insert_eq.
Qed.

Lemma build_one_without_index_witness :
  exists articles text,
    length articles = 1 /\
    indexContent articles = inr text /\
    output_file
      (fsys (build (js "hello-world")
               (Sample.world
                  {| BLOG_CONTENT_DIR := js "/site/blog-content";
                     blog_content := Some [(js "hello-world.md", Sample.hello_md);
                                           (js "draft.md", Broken.draft_md)];
                     blog_images := None; output_data := None;
                     public_images := None |})).2) (js "index.ts") = Some text.
Proof.
  destruct (build_one_without_index_lists_target_only (js "hello-world")
              (Sample.world
                 {| BLOG_CONTENT_DIR := js "/site/blog-content";
                    blog_content := Some [(js "hello-world.md", Sample.hello_md);
                                          (js "draft.md", Broken.draft_md)];
                    blog_images := None; output_data := None;
                    public_images := None |}))
    as (articles & text & HF & Ht & Hout).
  - discriminate.
  - reflexivity.
  - vm_compute. discriminate.
  - vm_compute. reflexivity.
  - exists articles, text. split; [|split; [exact Ht|exact Hout]].
    apply Forall2_length in HF. rewrite <- HF. vm_compute. reflexivity.
Defined.

(** ** The list of generated articles *)

Lemma endsWith_app (p s : jsstring) : Js.endsWith p (s ++ p) = true.
Proof. unfold Js.endsWith. rewrite rev_app_distr. apply startsWith_app. Qed.

Lemma indexOf_ts_module (slug : jsstring) :
  Js.includes (js ".ts") slug = false ->
  Js.indexOf (js ".ts") (slug ++ js ".ts") = Some (length slug).
Proof.
  induction slug as [|c slug IH]; intros Hs; [reflexivity|].
  apply includes_false_cons in Hs as [Hc Hs].
  change (Js.indexOf (js ".ts") ((c :: slug) ++ js ".ts")) with
    (if Js.startsWith (js ".ts") ((c :: slug) ++ js ".ts") then Some 0
     else S <$> Js.indexOf (js ".ts") (slug ++ js ".ts")).
  destruct (Js.startsWith (js ".ts") ((c :: slug) ++ js ".ts")) eqn:E.
  - apply startsWith_straddle in E as [E|[Hlen E]]; [congruence|].
    exfalso. change (length (js ".ts")) with 3 in Hlen.
    remember (length (c :: slug)) as k eqn:Hk. simpl in Hk.
    destruct k as [|k]; [lia|].
    do 2 (destruct k as [|k]; [vm_compute in E; discriminate|]). lia.
  - rewrite IH by done. reflexivity.
Qed.

Lemma remove_first_ts_module (slug : jsstring) :
  Js.includes (js ".ts") slug = false -> remove_first_ts (slug ++ js ".ts") = slug.
Proof.
  intros Hs. unfold remove_first_ts. rewrite (indexOf_ts_module slug Hs).
  rewrite take_app_length.
  replace (length slug + 3) with (length slug + length (js ".ts")) by reflexivity.
  rewrite drop_app_add, drop_all. apply app_nil_r.
Qed.

(** Every module that [deleteArticle] can delete is offered by the delete
    prompt under its slug: when the module file of a slug exists, and the
    slug is not [index] and does not itself contain [.ts],
    [getGeneratedArticles] lists the slug, and it changes nothing. *)
Theorem generated_module_is_listed
    (slug : jsstring) (w : World) (m : gmap (list ascii) (list ascii)) :
  output_data (fsys w) = Some m ->
  is_Some (m !! (slug ++ js ".ts")) ->
  slug <> js "index" ->
  Js.includes (js ".ts") slug = false ->
  exists listed, getGeneratedArticles w = (Ret listed, w) /\ slug ∈ listed.
Proof.
  intros Hm [text Hn] Hidx Hts.
  unfold getGeneratedArticles. rewrite bind_run. cbn [get_fs fst snd]. rewrite Hm.
  eexists. split; [reflexivity|].
  rewrite <- (remove_first_ts_module slug Hts) at 1.
  apply list_elem_of_fmap. exists (slug ++ js ".ts"). split; [reflexivity|].
  apply list_elem_of_filter. split.
  - split; [by rewrite endsWith_app|].
    change (js "index.ts") with (js "index" ++ js ".ts").
    intros E. by apply app_inv_tail in E.
  - unfold readdir. rewrite merge_sort_Permutation.
    apply list_elem_of_fmap. exists (slug ++ js ".ts", text). split; [done|].
    by apply elem_of_map_to_list.
Qed.

Lemma generated_module_is_listed_witness :
  exists listed,
    getGeneratedArticles (Sample.world Sample.built) = (Ret listed, Sample.world Sample.built) /\
    js "hello-world" ∈ listed.
Proof.
  apply (generated_module_is_listed (js "hello-world") (Sample.world Sample.built)
           {[ js "hello-world.ts" := Sample.hello_ts; js "index.ts" := Sample.hello_index ]}).
  - reflexivity.
  - vm_compute. eauto.
  - discriminate.
  - vm_compute. reflexivity.
Defined.

(** The first [.ts] is removed, wherever it stands: the module of a slug
    that contains [.ts] is listed under another name, for which
    [deleteArticle] finds no module. *)
Lemma generated_module_listed_under_other_name :
  let w := Sample.world
             {| BLOG_CONTENT_DIR := js "/site/blog-content"; blog_content := None;
                blog_images := None;
                output_data := Some {[ js "notes.tsx.ts" := js "x" ]};
                public_images := None |} in
  (getGeneratedArticles w).1 = Ret [js "notesx.ts"] /\
  output_exists (js "notesx.ts" ++ js ".ts") (fsys w) = false.
Proof. split; vm_compute; reflexivity. Qed.

(** ** Headings *)

Lemma header_pass_skip (level : nat) (open l : jsstring) :
  one_line l ->
  Js.startsWith (repeat "#"%char level ++ js " ") l = false ->
  header_pass level open l = l.
Proof.
  intros Hl Hs. unfold header_pass.
  rewrite replace_lines_one_line by (apply header_pattern || done).
  unfold line_rule. by rewrite Hs.
Qed.

Lemma one_line_marked (level : nat) (text : jsstring) :
  one_line text -> one_line (repeat "#"%char level ++ js " " ++ text).
Proof.
  intros Ht. rewrite app_assoc. apply one_line_app_l; [apply header_pattern|done].
Qed.

Lemma header_pass_hit (level : nat) (open text : jsstring) :
  one_line text ->
  header_pass level open (repeat "#"%char level ++ js " " ++ text) =
    open ++ text ++ heading_close level.
Proof.
  intros Ht. unfold header_pass.
  rewrite replace_lines_one_line by (apply header_pattern || by apply one_line_marked).
  unfold line_rule. rewrite (app_assoc (repeat "#"%char level)).
  rewrite startsWith_app, drop_app_length. reflexivity.
Qed.

(** A heading stays on its line. *)
Lemma one_line_heading (open text close : jsstring) :
  Forall (fun c => is_line_terminator c = false /\ c <> ascii_of_nat 226) open ->
  Forall (fun c => is_line_terminator c = false /\ c <> ascii_of_nat 226) close ->
  starts_char close = true ->
  one_line text -> one_line (open ++ text ++ close).
Proof.
  intros Ho Hc Hs Ht. apply one_line_app_l; [done|].
  apply one_line_app; [done| |done]. by apply one_line_bytes.
Qed.

Ltac heading_steps Ht :=
  repeat match goal with
    | |- context [header_pass ?k ?o (repeat "#"%char ?n ++ js " " ++ ?t)] =>
        first
          [ rewrite (header_pass_hit k o t Ht)
          | rewrite (header_pass_skip k o (repeat "#"%char n ++ js " " ++ t));
            [ | exact (one_line_marked n t Ht)
              | vm_compute; reflexivity ] ]
    | |- context [header_pass ?k ?o (?a ++ ?t ++ heading_close ?n)] =>
        rewrite (header_pass_skip k o (a ++ t ++ heading_close n));
        [ | apply one_line_heading;
            [decide_by_compute|decide_by_compute|reflexivity|exact Ht]
          | vm_compute; reflexivity ]
    end.

(** A line of one to six [#] and a space is turned into the heading of that
    level, with the rest of the line as its content: the longer markers are
    tried first, and a line that has become a heading is left alone by the
    passes for the shorter ones. *)
Theorem headers_make_heading_of_level (level : nat) (text : jsstring) :
  1 <= level <= 6 ->
  one_line text ->
  headers (repeat "#"%char level ++ js " " ++ text) =
    heading_open level ++ text ++ heading_close level.
Proof.
  intros Hlevel Ht. unfold headers.
  destruct level as [|[|[|[|[|[|[|level]]]]]]]; [lia| | | | | | |lia];
    heading_steps Ht; reflexivity.
Qed.

Lemma headers_make_heading_witness :
  headers (js "### Getting there") = Html.H3_OPEN ++ js "Getting there" ++ js "</h3>".
Proof.
  apply (headers_make_heading_of_level 3 (js "Getting there")); [lia|].
  vm_compute. reflexivity.
Defined.
(** ** What a processed article holds *)

Lemma parseFrontmatter_tags (content : jsstring) (fm : Frontmatter) (body : jsstring) :
  parseFrontmatter content = inr (fm, body) ->
  exists items, fm !! js "tags" = Some (VArr items).
Proof.
  unfold parseFrontmatter. destruct (frontmatterRegex content) as [[h b]|]; [|done].
  intros [= <- _].
  match goal with
  | |- context [if is_array (?m !! _) then _ else _] => generalize m; intros fm0
  end.
  destruct (fm0 !! js "tags") as [[s|items]|] eqn:E; simpl.
  - exists []. apply lookup_insert_eq.
  - by exists items.
  - exists []. apply lookup_insert_eq.
Qed.

Lemma featuredImage_ne_tags : js "featuredImage" <> js "tags".
Proof. intros H. vm_compute in H. discriminate. Qed.

(** Whatever the header of a markdown file says about [tags] (nothing, a
    scalar, a list), the article made from it carries a list of tags. *)
Theorem processed_article_tags_is_list (content : jsstring) (a : Article) :
  process_content content = inr a ->
  exists items, meta a !! js "tags" = Some (VArr items).
Proof.
  unfold process_content.
  destruct (parseFrontmatter content) as [e|[fm body]] eqn:E; [done|].
  destruct (parseFrontmatter_tags _ _ _ E) as [items Ht].
  destruct (fm !! js "featuredImage") as [[image|xs]|]; [| done |].
  - intros [= <-]. cbn [meta]. exists items.
    destruct (negb (Js.eqb image []) && Js.startsWith (js "images/") image); [|done].
    rewrite lookup_insert_ne by apply featuredImage_ne_tags. done.
  - intros [= <-]. by exists items.
Qed.

Lemma processed_article_tags_witness :
  exists items, meta Sample.hello !! js "tags" = Some (VArr items).
Proof.
  apply (processed_article_tags_is_list Sample.hello_md).
  vm_compute. reflexivity.
Defined.

(** The featured image of a processed article, when it has one, is a string
    that does not start with [images/]: a path relative to the images of the
    content directory has been rewritten to the public one. *)
Theorem processed_article_image_is_rewritten (content : jsstring) (a : Article)
    (v : FmValue) :
  process_content content = inr a ->
  meta a !! js "featuredImage" = Some v ->
  exists image, v = VStr image /\ Js.startsWith (js "images/") image = false.
Proof.
  unfold process_content.
  destruct (parseFrontmatter content) as [e|[fm body]] eqn:E; [done|].
  destruct (fm !! js "featuredImage") as [[image|xs]|] eqn:Hf; [| done |].
  - intros [= <-]. cbn [meta].
    destruct (Js.eqb image []) eqn:He; cbn [negb andb].
    + rewrite Hf. intros [= <-]. exists image. split; [done|].
      apply Js_eqb_eq in He as ->. vm_compute. reflexivity.
    + destruct (Js.startsWith (js "images/") image) eqn:Hs.
      * rewrite lookup_insert_eq. intros [= <-]. eexists. split; [done|].
        vm_compute. reflexivity.
      * rewrite Hf. intros [= <-]. by exists image.
  - intros [= <-]. cbn [meta]. by rewrite Hf.
Qed.

Lemma processed_article_image_witness :
  exists image,
    VStr (js "/images/blog/hello.png") = VStr image /\
    Js.startsWith (js "images/") image = false.
Proof.
  apply (processed_article_image_is_rewritten Sample.hello_md Sample.hello).
  - vm_compute. reflexivity.
  - vm_compute. reflexivity.
Defined.

(** ** The prompts *)

Lemma files_ret {A} (a : A) : keeps_files (mret a).
Proof. intros w. reflexivity. Qed.

Lemma files_bind {A B} (m : M A) (k : A -> M B) :
  keeps_files m -> (forall a, keeps_files (k a)) -> keeps_files (m ≫= k).
Proof.
  intros Hm Hk w. rewrite bind_run. specialize (Hm w).
  destruct (m w) as [[a|c|e| |] w1]; simpl in *; [|done..].
  by rewrite Hk.
Qed.

Lemma files_print (l : ConsoleLine) : keeps_files (print l).
Proof. intros w. reflexivity. Qed.

Lemma files_box c middle : keeps_files (box c middle).
Proof. unfold box, log. repeat (apply files_bind; [|intros _]); apply files_print. Qed.

Lemma files_question q : keeps_files (question q).
Proof. intros w. unfold question. by destruct (stdin w). Qed.

Lemma files_process_exit {A} c : keeps_files (@process_exit A c).
Proof. intros w. reflexivity. Qed.

Lemma files_lower_case s : keeps_files (lower_case s).
Proof. intros w. unfold lower_case. by destruct (Js.toLowerCase s). Qed.

Lemma files_for_each {A} (xs : list A) (body : A -> M unit) :
  (forall x, keeps_files (body x)) -> keeps_files (for_each xs body).
Proof.
  intros H. induction xs as [|x xs IH]; simpl; [apply files_ret|].
  apply files_bind; [apply H|]. intros _. apply IH.
Qed.

Lemma files_getMarkdownFiles : keeps_files getMarkdownFiles.
Proof. intros w. by rewrite getMarkdownFiles_run. Qed.

Lemma files_getGeneratedArticles : keeps_files getGeneratedArticles.
Proof.
  intros w. unfold getGeneratedArticles. rewrite bind_run. simpl.
  by destruct (output_data (fsys w)).
Qed.

Ltac files_auto :=
  repeat first
    [ apply files_ret | apply files_print | apply files_box | apply files_question
    | apply files_process_exit | apply files_lower_case | apply files_getMarkdownFiles
    | apply files_getGeneratedArticles
    | apply files_for_each; intros ?
    | apply files_bind; [|intros ?]
    | match goal with
      | |- keeps_files (log _ _) => apply files_print
      | |- keeps_files console_log_empty => apply files_print
      | |- keeps_files (if ?b then _ else _) => destruct b
      | |- keeps_files (match ?x with _ => _ end) => destruct x
      end ].

(** The three prompts print and ask, and leave every file as it is, whatever
    is answered and however they end (an answer, an exit with status 1, a
    wait for input that never comes). *)
Theorem prompts_change_no_file :
  keeps_files promptAction /\ keeps_files promptUser /\ keeps_files promptDelete.
Proof.
  split; [|split].
  - unfold promptAction. files_auto.
  - unfold promptUser. files_auto.
  - unfold promptDelete. files_auto.
Qed.

Lemma for_each_log_run (ls : list jsstring) (c : Color) (w : World) :
  for_each ls (fun l => log l c) w = (Ret tt, add_lines (map (fun l => Line l c) ls) w).
Proof.
  revert w. induction ls as [|l ls IH]; intros w.
  - simpl. unfold add_lines. rewrite app_nil_r. by destruct w.
  - cbn [for_each map]. rewrite bind_log, IH. unfold add_lines, add_line. simpl.
    by rewrite <- app_assoc.
Qed.

Lemma getGeneratedArticles_run (w : World) :
  exists articles, getGeneratedArticles w = (Ret articles, w).
Proof.
  unfold getGeneratedArticles. rewrite bind_run. simpl.
  destruct (output_data (fsys w)); eexists; reflexivity.
Qed.

Lemma promptDelete_cancel (w : World) (answer : jsstring) (rest : list jsstring) :
  stdin w = answer :: rest -> cancels answer = true ->
  exists w', promptDelete w = (Ret None, w') /\ fsys w' = fsys w.
Proof.
  intros Hin Hc. unfold promptDelete. rewrite bind_run.
  destruct (getGeneratedArticles_run w) as [articles ->].
  case_bool_decide.
  - eexists. split; reflexivity.
  - rewrite bind_blank. unfold box.
    rewrite bind_run, bind_log, bind_log. cbn [log print].
    rewrite bind_blank, bind_log, bind_run, for_each_log_run, bind_blank, bind_run.
    unfold question at 1. cbn [stdin add_line add_lines]. rewrite Hin.
    unfold cancels in Hc. rewrite bind_run. unfold lower_case.
    destruct (Js.toLowerCase (Js.trim answer)) as [trimmed|]; [|done].
    cbn [mret M_ret]. rewrite Hc.
    eexists. split; reflexivity.
Qed.

(** With [--delete], an answer of [c], [cancel] or nothing at the prompt (in
    any case, with blanks around it) ends the run with status 0 and leaves
    every file as it was: in particular nothing is deleted. *)
Theorem delete_cancelled_changes_nothing (args : list jsstring) (w : World)
    (answer : jsstring) (rest : list jsstring) :
  js "--delete" ∈ args ->
  stdin w = answer :: rest ->
  cancels answer = true ->
  exit_status (script args w).1 = Some 0%Z /\ fsys (script args w).2 = fsys w.
Proof.
  intros Hflag Hin Hc.
  destruct (promptDelete_cancel w answer rest Hin Hc) as (w' & Hrun & Hfs).
  unfold script, main, args_include. rewrite bool_decide_true by done.
  rewrite bind_run, Hrun. simpl. by rewrite Hfs.
Qed.

Lemma delete_cancelled_witness :
  exit_status
    (script [js "--delete"]
       {| fsys := Sample.built; console := []; stdin := [js " Cancel "] |}).1 = Some 0%Z /\
  fsys
    (script [js "--delete"]
       {| fsys := Sample.built; console := []; stdin := [js " Cancel "] |}).2 = Sample.built.
Proof.
  apply (delete_cancelled_changes_nothing [js "--delete"]
           {| fsys := Sample.built; console := []; stdin := [js " Cancel "] |}
           (js " Cancel ") []).
  - apply list_elem_of_singleton. reflexivity.
  - reflexivity.
  - vm_compute. reflexivity.
Defined.

(** ** Links and images *)

Lemma replace_g_miss (m : matcher) (c : ascii) (t : jsstring) :
  m (c :: t) = None -> replace_g m (c :: t) = c :: replace_g m t.
Proof. intros H. by rewrite replace_g_cons, H. Qed.

Lemma replace_g_hit (m : matcher) (c : ascii) (t out : jsstring) (n : nat) :
  m (c :: t) = Some (out, n) -> replace_g m (c :: t) = out ++ replace_g m (drop n t).
Proof. intros H. by rewrite replace_g_cons, H. Qed.

Lemma replace_g_skip (x : ascii) (m : matcher) (a b : jsstring) :
  triggered_by x m -> x ∉ a -> replace_g m (a ++ b) = a ++ replace_g m b.
Proof.
  intros Hm. induction a as [|c a IH]; intros Ha; [reflexivity|].
  apply not_elem_of_cons in Ha as [Hc Ha]. cbn [app].
  rewrite replace_g_miss by (apply Hm; congruence). by rewrite IH.
Qed.

Lemma replace_g_untriggered (x : ascii) (m : matcher) (s : jsstring) :
  triggered_by x m -> x ∉ s -> replace_g m s = s.
Proof.
  intros Hm Hs. rewrite <- (app_nil_r s) at 1.
  rewrite (replace_g_skip x) by done. by rewrite replace_g_nil, app_nil_r.
Qed.

Lemma startsWith_head_ne (x c : ascii) (p t : jsstring) :
  c <> x -> Js.startsWith (x :: p) (c :: t) = false.
Proof.
  intros H. cbn [Js.startsWith].
  destruct (Ascii.eqb x c) eqn:E; [|done]. apply Ascii.eqb_eq in E. congruence.
Qed.

Lemma emphasis_triggered (k : nat) (A B : jsstring) :
  triggered_by "*" (emphasis_matcher (repeat "*"%char (S k)) A B).
Proof.
  intros c t Hc. unfold emphasis_matcher. cbn [repeat].
  by rewrite startsWith_head_ne.
Qed.

Lemma ul_triggered : triggered_by "<" ul_matcher.
Proof.
  intros c t Hc. unfold ul_matcher. simp li_run.
  assert (E : li_fragment (c :: t) = None).
  { unfold li_fragment.
    replace Html.LI_OPEN with ("<"%char :: drop 1 Html.LI_OPEN) by reflexivity.
    by rewrite startsWith_head_ne. }
  rewrite E. reflexivity.
Qed.

Lemma literal_triggered (x : ascii) (p out : jsstring) :
  triggered_by x (literal_matcher (x :: p) out).
Proof.
  intros c t Hc. unfold literal_matcher. by rewrite startsWith_head_ne.
Qed.

Lemma link_triggered : triggered_by "[" link_matcher.
Proof.
  intros c t Hc. unfold link_matcher.
  destruct c as [[] [] [] [] [] [] [] []]; try reflexivity. done.
Qed.

Lemma image_triggered : triggered_by "!" image_matcher.
Proof.
  intros c t Hc. unfold image_matcher.
  destruct c as [[] [] [] [] [] [] [] []]; try reflexivity. done.
Qed.

Lemma indexOf_untriggered (x : ascii) (p s : jsstring) :
  x ∉ s -> Js.indexOf (x :: p) s = None.
Proof.
  induction s as [|c s IH]; intros Hs; [reflexivity|].
  apply not_elem_of_cons in Hs as [Hc Hs]. cbn [Js.indexOf].
  rewrite startsWith_head_ne by congruence. by rewrite IH.
Qed.

Lemma split_one_line (s : jsstring) : LF ∉ s -> Js.split LF s = [s].
Proof.
  induction s as [|c s IH]; intros Hs; [reflexivity|].
  apply not_elem_of_cons in Hs as [Hc Hs]. cbn [Js.split].
  destruct (Ascii.eqb c LF) eqn:E; [apply Ascii.eqb_eq in E; done|].
  by rewrite IH.
Qed.

Lemma one_line_cons_byte (c : ascii) (s : jsstring) :
  is_line_terminator c = false -> c <> ascii_of_nat 226 -> one_line s -> one_line (c :: s).
Proof. intros H1 H2 Hs. apply one_line_cons. split; [by apply terminator_ascii|done]. Qed.

Lemma span_while_stop (x : ascii) (a r : jsstring) :
  x ∉ a -> span_while (not_char x) (a ++ x :: r) = (a, x :: r).
Proof.
  induction a as [|c a IH]; intros Ha.
  - cbn [app span_while]. unfold not_char. by rewrite Ascii.eqb_refl.
  - apply not_elem_of_cons in Ha as [Hc Ha]. cbn [app span_while].
    unfold not_char at 1. destruct (Ascii.eqb c x) eqn:E.
    { apply Ascii.eqb_eq in E. done. }
    cbn [negb]. by rewrite IH.
Qed.

Lemma bracket_paren_hit (k : nat) (text url r : jsstring) :
  k <= length text -> "]"%char ∉ text -> url <> [] -> ")"%char ∉ url ->
  bracket_paren k (text ++ "]"%char :: "("%char :: url ++ ")"%char :: r) =
    Some (text, url, length text + 2 + length url + 1).
Proof.
  intros Hk Ht Hu Hp. unfold bracket_paren.
  rewrite span_while_stop by done.
  rewrite (proj2 (Nat.leb_le _ _) Hk).
  rewrite span_while_stop by done.
  by destruct url.
Qed.

Lemma drop_bracket_paren (text url r : jsstring) :
  drop (length text + 2 + length url + 1)
    (text ++ "]"%char :: "("%char :: url ++ ")"%char :: r) = r.
Proof.
  replace (length text + 2 + length url + 1)
    with (length (text ++ "]"%char :: "("%char :: url ++ [")"%char])).
  2:{ rewrite length_app. cbn [length]. rewrite length_app. simpl. lia. }
  replace (text ++ "]"%char :: "("%char :: url ++ ")"%char :: r)
    with ((text ++ "]"%char :: "("%char :: url ++ [")"%char]) ++ r).
  2:{ rewrite <- app_assoc. cbn [app]. rewrite <- app_assoc. reflexivity. }
  apply drop_app_length.
Qed.

Lemma plain_text_not_special (s : jsstring) (x : ascii) :
  plain_text s -> x ∈ special -> x ∉ s.
Proof.
  intros [_ Hs] Hx Hin. rewrite Forall_forall in Hs. by apply (Hs x).
Qed.

Lemma plain_text_one_line (s : jsstring) : plain_text s -> one_line s.
Proof. by intros [Hs _]. Qed.

(** [trim] leaves a text that neither begins nor ends with white space. *)
Lemma trim_kept (s : jsstring) :
  Js.space_at Js.WHITE_SPACE s = 0 ->
  Js.space_at (map (@rev ascii) Js.WHITE_SPACE) (rev s) = 0 ->
  Js.trim s = s.
Proof.
  intros H1 H2. unfold Js.trim, Js.trimEnd, Js.trimStart.
  assert (E : forall seqs n x, Js.space_at seqs x = 0 -> Js.strip seqs n x = x).
  { intros seqs n x Hx. destruct n; simpl; [done|]. by rewrite Hx. }
  rewrite (E _ _ s H1), (E _ _ (rev s) H2). apply rev_involutive.
Qed.

Lemma replace_g_between (x : ascii) (m : matcher) (po s pc : jsstring) :
  triggered_by x m -> x ∉ po -> x ∉ s -> x ∉ pc ->
  m ((x :: po) ++ s ++ x :: pc) = None -> m (x :: pc) = None ->
  replace_g m ((x :: po) ++ s ++ x :: pc) = (x :: po) ++ s ++ x :: pc.
Proof.
  intros Hm Hpo Hs Hpc E0 E1. cbn [app] in *.
  rewrite (replace_g_miss _ _ _ E0). rewrite app_assoc.
  rewrite (replace_g_skip x) by (done || by apply not_elem_of_app).
  rewrite (replace_g_miss _ _ _ E1).
  by rewrite (replace_g_untriggered x) by done.
Qed.


(** The passes before the link pass, on a line that opens with [!] or a
    bracket, closes with a parenthesis and has no asterisk, no [<] and no
    line terminator: the line becomes a paragraph. *)
Lemma inline_line_paragraph (c : ascii) (body : jsstring) :
  c = "!"%char \/ c = "["%char ->
  one_line body -> "*"%char ∉ body -> "<"%char ∉ body ->
  markdownToHtml (c :: body ++ [")"%char]) =
    replace_g image_matcher
      (replace_g link_matcher (Html.P_OPEN ++ (c :: body ++ [")"%char]) ++ Html.P_CLOSE)).
Proof.
  intros Hc Hl Hs Ha.
  set (s := c :: body ++ [")"%char]).
  assert (Hone : one_line s).
  { apply one_line_cons_byte; [by destruct Hc as [-> | ->]..|].
    apply one_line_app; [done|vm_compute; reflexivity|reflexivity]. }
  assert (Hstar : "*"%char ∉ s).
  { apply not_elem_of_cons. split; [by destruct Hc as [-> | ->]|].
    apply not_elem_of_app. split; [done|]. by apply not_elem_of_cons; split; [|apply not_elem_of_nil]. }
  assert (Hlt : "<"%char ∉ s).
  { apply not_elem_of_cons. split; [by destruct Hc as [-> | ->]|].
    apply not_elem_of_app. split; [done|]. by apply not_elem_of_cons; split; [|apply not_elem_of_nil]. }
  assert (Hh : headers s = s).
  { assert (Hk : forall k o, header_pass (S k) o s = s).
    { intros k o. apply header_pass_skip; [done|]. subst s. cbn [repeat app].
      apply startsWith_head_ne. by destruct Hc as [-> | ->]. }
    unfold headers. by rewrite !Hk. }
  assert (He : emphasis s = s).
  { unfold emphasis, triple_pass, double_pass, single_pass.
    change (js "***") with (repeat "*"%char 3).
    change (js "**") with (repeat "*"%char 2).
    change (js "*") with (repeat "*"%char 1).
    assert (Hk : forall k A B, replace_g (emphasis_matcher (repeat "*"%char (S k)) A B) s = s).
    { intros k A B. by apply (replace_g_untriggered "*"); [apply emphasis_triggered|]. }
    by rewrite !Hk. }
  assert (Hq : blockquote_pass s = s).
  { unfold blockquote_pass. rewrite replace_lines_one_line by (apply quote_pattern || done).
    unfold line_rule. subst s. by destruct Hc as [-> | ->]. }
  assert (Hi : list_item_pass s = s).
  { unfold list_item_pass. rewrite replace_lines_one_line by (apply item_pattern || done).
    unfold line_rule. subst s. by destruct Hc as [-> | ->]. }
  assert (Hu : ul_wrap_pass s = s).
  { unfold ul_wrap_pass. by apply (replace_g_untriggered "<"); [apply ul_triggered|]. }
  assert (Htrim : Js.trim s = s).
  { apply trim_kept.
    - subst s. by destruct Hc as [-> | ->].
    - subst s. cbn [rev]. rewrite rev_app_distr. reflexivity. }
  assert (Hp : paragraph_pass s = Html.P_OPEN ++ s ++ Html.P_CLOSE).
  { unfold paragraph_pass. rewrite split_one_line by by apply one_line_no_LF.
    cbn [map Js.join]. unfold paragraph_line. rewrite Htrim.
    rewrite Js_eqb_ne by done.
    assert (E1 : Js.startsWith (js "<") s = false)
      by (subst s; by destruct Hc as [-> | ->]).
    assert (E2 : Js.startsWith (js "</") s = false)
      by (subst s; by destruct Hc as [-> | ->]).
    rewrite E1, E2. unfold Js.includes.
    replace Html.LI_CLOSE with ("<"%char :: drop 1 Html.LI_CLOSE) by reflexivity.
    replace Html.UL_CLOSE with ("<"%char :: drop 1 Html.UL_CLOSE) by reflexivity.
    by rewrite !indexOf_untriggered by done. }
  assert (Hm : empty_paragraph_pass (Html.P_OPEN ++ s ++ Html.P_CLOSE) =
               Html.P_OPEN ++ s ++ Html.P_CLOSE).
  { unfold empty_paragraph_pass.
    assert (E0 : literal_matcher (Html.P_OPEN ++ Html.P_CLOSE) []
                   (Html.P_OPEN ++ s ++ Html.P_CLOSE) = None).
    { unfold literal_matcher.
      assert (E : Js.startsWith (Html.P_OPEN ++ Html.P_CLOSE)
                    (Html.P_OPEN ++ s ++ Html.P_CLOSE) = false).
      { destruct (Js.startsWith _ _) eqn:E; [|done]. exfalso.
        apply startsWith_true in E as [r E].
        rewrite <- app_assoc in E. apply app_inv_head in E.
        subst s. destruct Hc as [-> | ->]; vm_compute in E; discriminate. }
      by rewrite E. }
    assert (E1 : literal_matcher (Html.P_OPEN ++ Html.P_CLOSE) [] Html.P_CLOSE = None)
      by (vm_compute; reflexivity).
    assert (Ht : triggered_by "<" (literal_matcher (Html.P_OPEN ++ Html.P_CLOSE) [])).
    { change (triggered_by "<"
                (literal_matcher ("<"%char :: (drop 1 Html.P_OPEN ++ Html.P_CLOSE)) [])).
      apply literal_triggered. }
    exact (replace_g_between "<" _ (drop 1 Html.P_OPEN) s (drop 1 Html.P_CLOSE)
             Ht ltac:(decide_by_compute) Hlt ltac:(decide_by_compute) E0 E1). }
  unfold markdownToHtml. fold s. cbv zeta.
  by rewrite Hh, He, Hq, Hi, Hu, Hp, Hm.
Qed.

Ltac not_special H :=
  apply plain_text_not_special; [exact H|unfold special; decide_by_compute].

Ltac not_in_parts :=
  repeat (apply not_elem_of_app; split);
  first
    [ decide_by_compute
    | match goal with
      | H : plain_text ?s |- _ ∉ ?s => not_special H
      end ].

Lemma link_matcher_hit (text url r : jsstring) :
  text <> [] -> "]"%char ∉ text -> url <> [] -> ")"%char ∉ url ->
  link_matcher ("["%char :: text ++ "]"%char :: "("%char :: url ++ ")"%char :: r) =
    Some (Html.A_HREF ++ url ++ Html.A_CLASS ++ text ++ Html.A_CLOSE,
          length text + 2 + length url + 1).
Proof.
  intros Ht Hb Hu Hp. unfold link_matcher.
  rewrite bracket_paren_hit; [done| |done..].
  destruct text; [done|simpl; lia].
Qed.

Lemma link_pass_hit (a text url r : jsstring) :
  "["%char ∉ a -> "["%char ∉ r ->
  text <> [] -> "]"%char ∉ text -> url <> [] -> ")"%char ∉ url ->
  replace_g link_matcher
    (a ++ "["%char :: text ++ "]"%char :: "("%char :: url ++ ")"%char :: r) =
    a ++ (Html.A_HREF ++ url ++ Html.A_CLASS ++ text ++ Html.A_CLOSE) ++ r.
Proof.
  intros Ha Hr Ht Hb Hu Hp.
  rewrite (replace_g_skip "[") by (done || apply link_triggered).
  rewrite (replace_g_hit _ _ _ _ _ (link_matcher_hit text url r Ht Hb Hu Hp)).
  rewrite drop_bracket_paren.
  by rewrite (replace_g_untriggered "[") by (done || apply link_triggered).
Qed.

(** A body that is one link, [[text](url)] with a text and a url of plain
    characters, is rendered as a paragraph that holds the anchor. *)
Theorem markdownToHtml_link_line (text url : jsstring) :
  text <> [] -> url <> [] -> plain_text text -> plain_text url ->
  markdownToHtml (js "[" ++ text ++ js "](" ++ url ++ js ")") =
    Html.P_OPEN ++ (Html.A_HREF ++ url ++ Html.A_CLASS ++ text ++ Html.A_CLOSE)
      ++ Html.P_CLOSE.
Proof.
  intros Ht Hu Hpt Hpu.
  replace (js "[" ++ text ++ js "](" ++ url ++ js ")")
    with ("["%char :: (text ++ "]"%char :: "("%char :: url) ++ [")"%char])
    by (rewrite <- app_assoc; reflexivity).
  rewrite inline_line_paragraph.
  2:{ by right. }
  2:{ apply one_line_app; [by apply plain_text_one_line| |reflexivity].
      repeat (apply one_line_cons_byte; [done|done|]). by apply plain_text_one_line. }
  2:{ apply not_elem_of_app. split; [not_special Hpt|].
      repeat (apply not_elem_of_cons; split; [done|]). not_special Hpu. }
  2:{ apply not_elem_of_app. split; [not_special Hpt|].
      repeat (apply not_elem_of_cons; split; [done|]). not_special Hpu. }
  replace (Html.P_OPEN ++ ("["%char :: (text ++ "]"%char :: "("%char :: url) ++ [")"%char])
             ++ Html.P_CLOSE)
    with (Html.P_OPEN ++ "["%char :: text ++ "]"%char :: "("%char :: url ++ ")"%char
            :: Html.P_CLOSE)
    by (cbn [app]; rewrite <- ?app_assoc; reflexivity).
  rewrite link_pass_hit; [|decide_by_compute|decide_by_compute|done|not_special Hpt
                          |done|not_special Hpu].
  apply (replace_g_untriggered "!"); [apply image_triggered|].
  not_in_parts.
Qed.

Lemma plain_sample : plain_text (js "our site") /\ plain_text (js "https://example.org/a(b").
Proof. split; (split; [vm_compute; reflexivity|decide_by_compute]). Qed.

Lemma markdownToHtml_link_witness :
  markdownToHtml (js "[our site](https://example.org/a(b)") =
    js "<p class=~text-gray-600 my-4~><a href=~https://example.org/a(b~ class=~text-accent hover:underline~>our site</a></p>".
Proof.
  apply (markdownToHtml_link_line (js "our site") (js "https://example.org/a(b"));
    [intros H; vm_compute in H; discriminate..|apply plain_sample|apply plain_sample].
Defined.

(** An image with an alternative text never becomes an [img]: the link pass,
    which runs first, takes the bracket and the parenthesis, and what is
    rendered is an exclamation mark followed by an anchor. *)
Theorem markdownToHtml_image_with_alt_is_link (alt url : jsstring) :
  alt <> [] -> url <> [] -> plain_text alt -> plain_text url ->
  markdownToHtml (js "![" ++ alt ++ js "](" ++ url ++ js ")") =
    Html.P_OPEN ++ js "!" ++ (Html.A_HREF ++ url ++ Html.A_CLASS ++ alt ++ Html.A_CLOSE)
      ++ Html.P_CLOSE.
Proof.
  intros Ht Hu Hpt Hpu.
  replace (js "![" ++ alt ++ js "](" ++ url ++ js ")")
    with ("!"%char :: ("["%char :: alt ++ "]"%char :: "("%char :: url) ++ [")"%char])
    by (cbn [app]; rewrite <- app_assoc; reflexivity).
  rewrite inline_line_paragraph.
  2:{ by left. }
  2:{ apply one_line_cons_byte; [done|done|].
      apply one_line_app; [by apply plain_text_one_line| |reflexivity].
      repeat (apply one_line_cons_byte; [done|done|]). by apply plain_text_one_line. }
  2:{ apply not_elem_of_cons; split; [done|].
      apply not_elem_of_app. split; [not_special Hpt|].
      repeat (apply not_elem_of_cons; split; [done|]). not_special Hpu. }
  2:{ apply not_elem_of_cons; split; [done|].
      apply not_elem_of_app. split; [not_special Hpt|].
      repeat (apply not_elem_of_cons; split; [done|]). not_special Hpu. }
  replace (Html.P_OPEN
             ++ ("!"%char :: ("["%char :: alt ++ "]"%char :: "("%char :: url) ++ [")"%char])
             ++ Html.P_CLOSE)
    with ((Html.P_OPEN ++ ["!"%char]) ++ "["%char :: alt ++ "]"%char :: "("%char :: url
            ++ ")"%char :: Html.P_CLOSE)
    by (cbn [app]; rewrite <- ?app_assoc; reflexivity).
  rewrite link_pass_hit; [|decide_by_compute|decide_by_compute|done|not_special Hpt
                          |done|not_special Hpu].
  rewrite <- (app_assoc Html.P_OPEN).
  rewrite (replace_g_skip "!") by (apply image_triggered || decide_by_compute).
  change (js "!") with ["!"%char]. cbn [app].
  rewrite replace_g_miss.
  2:{ replace Html.A_HREF with ("<"%char :: drop 1 Html.A_HREF) by reflexivity.
      reflexivity. }
  rewrite (replace_g_untriggered "!"); [reflexivity|apply image_triggered|].
  not_in_parts.
Qed.

Lemma markdownToHtml_image_with_alt_witness :
  markdownToHtml (js "![our site](https://example.org/a(b)") =
    js "<p class=~text-gray-600 my-4~>!<a href=~https://example.org/a(b~ class=~text-accent hover:underline~>our site</a></p>".
Proof.
  apply (markdownToHtml_image_with_alt_is_link (js "our site") (js "https://example.org/a(b"));
    [intros H; vm_compute in H; discriminate..|apply plain_sample|apply plain_sample].
Defined.

(** An image without an alternative text is the only one that becomes an
    [img]: the link pass wants a text of one character at least and leaves
    it to the image pass. *)
Theorem markdownToHtml_image_without_alt (url : jsstring) :
  url <> [] -> plain_text url ->
  markdownToHtml (js "![](" ++ url ++ js ")") =
    Html.P_OPEN ++ (Html.IMG_SRC ++ url ++ Html.IMG_ALT ++ Html.IMG_CLASS) ++ Html.P_CLOSE.
Proof.
  intros Hu Hpu.
  replace (js "![](" ++ url ++ js ")")
    with ("!"%char :: ("["%char :: "]"%char :: "("%char :: url) ++ [")"%char])
    by reflexivity.
  rewrite inline_line_paragraph.
  2:{ by left. }
  2:{ repeat (apply one_line_cons_byte; [done|done|]). by apply plain_text_one_line. }
  2:{ repeat (apply not_elem_of_cons; split; [done|]). not_special Hpu. }
  2:{ repeat (apply not_elem_of_cons; split; [done|]). not_special Hpu. }
  replace (Html.P_OPEN
             ++ ("!"%char :: ("["%char :: "]"%char :: "("%char :: url) ++ [")"%char])
             ++ Html.P_CLOSE)
    with ((Html.P_OPEN ++ ["!"%char]) ++ "["%char :: "]"%char :: "("%char :: url
            ++ ")"%char :: Html.P_CLOSE)
    by (cbn [app]; rewrite <- ?app_assoc; reflexivity).
  rewrite (replace_g_skip "[" link_matcher) by (apply link_triggered || decide_by_compute).
  rewrite (replace_g_miss link_matcher) by reflexivity.
  rewrite (replace_g_untriggered "[" link_matcher).
  2:{ apply link_triggered. }
  2:{ repeat (apply not_elem_of_cons; split; [done|]).
      apply not_elem_of_app. split; [not_special Hpu|]. decide_by_compute. }
  rewrite <- (app_assoc Html.P_OPEN). cbn [app].
  rewrite (replace_g_skip "!" image_matcher) by (apply image_triggered || decide_by_compute).
  rewrite (replace_g_hit image_matcher _ _
             (Html.IMG_SRC ++ url ++ Html.IMG_ALT ++ [] ++ Html.IMG_CLASS)
             (S (0 + 2 + length url + 1))).
  2:{ unfold image_matcher.
      pose proof (bracket_paren_hit 0 [] url Html.P_CLOSE (Nat.le_0_l _)
                    (not_elem_of_nil _) Hu ltac:(not_special Hpu)) as E.
      cbn [app] in E. by rewrite E. }
  pose proof (drop_bracket_paren [] url Html.P_CLOSE) as Ed.
  cbn [app length] in Ed. cbn [drop]. rewrite Ed.
  rewrite (replace_g_untriggered "!" image_matcher) by (apply image_triggered || decide_by_compute).
  reflexivity.
Qed.

Lemma markdownToHtml_image_without_alt_witness :
  markdownToHtml (js "![](https://example.org/a(b)") =
    js "<p class=~text-gray-600 my-4~><img src=~https://example.org/a(b~ alt=~~ class=~rounded-lg my-6 w-full~ /></p>".
Proof.
  apply (markdownToHtml_image_without_alt (js "https://example.org/a(b"));
    [intros H; vm_compute in H; discriminate|apply plain_sample].
Defined.

(** ** The exit status *)

Lemma exits_ret {A} (a : A) : exits_with_1 (mret a).
Proof. intros w c H. discriminate. Qed.

Lemma exits_bind {A B} (m : M A) (k : A -> M B) :
  exits_with_1 m -> (forall a, exits_with_1 (k a)) -> exits_with_1 (m ≫= k).
Proof.
  intros Hm Hk w c. rewrite bind_run. specialize (Hm w).
  destruct (m w) as [[a|c'|e| |] w1]; simpl in *.
  - apply Hk.
  - intros [= <-]. by apply Hm.
  - discriminate.
  - discriminate.
  - discriminate.
Qed.

Lemma exits_print (l : ConsoleLine) : exits_with_1 (print l).
Proof. intros w c H. discriminate. Qed.

Lemma exits_question q : exits_with_1 (question q).
Proof. intros w c. unfold question. by destruct (stdin w). Qed.

Lemma exits_throw {A} e : exits_with_1 (@throw A e).
Proof. intros w c H. discriminate. Qed.

Lemma exits_elsewhere {A} : exits_with_1 (@elsewhere A).
Proof. intros w c H. discriminate. Qed.

Lemma exits_process_exit {A} : exits_with_1 (@process_exit A 1).
Proof. intros w c [= <-]. reflexivity. Qed.

Lemma exits_get_fs : exits_with_1 get_fs.
Proof. intros w c H. discriminate. Qed.

Lemma exits_put_fs fs : exits_with_1 (put_fs fs).
Proof. intros w c H. discriminate. Qed.

Lemma exits_for_each {A} (xs : list A) (body : A -> M unit) :
  (forall x, exits_with_1 (body x)) -> exits_with_1 (for_each xs body).
Proof.
  intros H. induction xs as [|x xs IH]; simpl; [apply exits_ret|].
  apply exits_bind; [apply H|]. intros _. apply IH.
Qed.

Lemma exits_map_M {A B} (f : A -> M B) (xs : list A) :
  (forall x, exits_with_1 (f x)) -> exits_with_1 (map_M f xs).
Proof.
  intros H. induction xs as [|x xs IH]; simpl; [apply exits_ret|].
  apply exits_bind; [apply H|]. intros y.
  apply exits_bind; [apply IH|]. intros ys. apply exits_ret.
Qed.

Ltac exits_auto :=
  repeat first
    [ apply exits_ret | apply exits_print | apply exits_question | apply exits_throw
    | apply exits_elsewhere
    | apply exits_process_exit | apply exits_get_fs | apply exits_put_fs
    | apply exits_for_each; intros ?
    | apply exits_map_M; intros ?
    | apply exits_bind; [|intros ?]
    | match goal with
      | |- exits_with_1 (log _ _) => apply exits_print
      | |- exits_with_1 console_log_empty => apply exits_print
      | |- exits_with_1 (box _ _) => unfold box
      | |- exits_with_1 (lower_case _) => unfold lower_case
      | |- exits_with_1 (lift ?r) => destruct r; simpl
      | |- exits_with_1 (write_output _ _) => unfold write_output
      | |- exits_with_1 (unlink_output _) => unfold unlink_output
      | |- exits_with_1 (existsSync_output _) => unfold existsSync_output
      | |- exits_with_1 (read_content _) => unfold read_content
      | |- exits_with_1 getMarkdownFiles => unfold getMarkdownFiles
      | |- exits_with_1 getGeneratedArticles => unfold getGeneratedArticles
      | |- exits_with_1 (processMarkdownFile _) => unfold processMarkdownFile
      | |- exits_with_1 copyImages => unfold copyImages
      | |- exits_with_1 (generateTypeScriptFiles _) => unfold generateTypeScriptFiles
      | |- exits_with_1 (if ?b then _ else _) => destruct b
      | |- exits_with_1 (match ?x with _ => _ end) => destruct x
      | |- exits_with_1 (let '(_, _) := ?x in _) => destruct x
      end ].

Lemma exits_build target : exits_with_1 (build target).
Proof. unfold build. exits_auto. Qed.

Lemma exits_deleteArticle slug : exits_with_1 (deleteArticle slug).
Proof. unfold deleteArticle. exits_auto. Qed.

Lemma exits_promptUser : exits_with_1 promptUser.
Proof. unfold promptUser. exits_auto. Qed.

Lemma exits_promptDelete : exits_with_1 promptDelete.
Proof. unfold promptDelete. exits_auto. Qed.

Lemma exits_promptAction : exits_with_1 promptAction.
Proof. unfold promptAction. exits_auto. Qed.

Lemma exits_delete_if_truthy slug : exits_with_1 (delete_if_truthy slug).
Proof.
  destruct slug as [[|c s]|]; simpl;
    [apply exits_ret|apply exits_deleteArticle|apply exits_ret].
Qed.

Lemma exits_main args : exits_with_1 (main args).
Proof.
  unfold main.
  repeat first
    [ apply exits_build | apply exits_deleteArticle | apply exits_promptUser
    | apply exits_promptDelete | apply exits_promptAction | apply exits_delete_if_truthy
    | apply exits_ret | apply exits_print | apply exits_process_exit
    | apply exits_bind; [|intros ?]
    | match goal with
      | |- exits_with_1 (log _ _) => apply exits_print
      | |- exits_with_1 (if ?b then _ else _) => destruct b
      | |- exits_with_1 (match ?x with _ => _ end) => destruct x
      end ].
Qed.

(** However the script is invoked and whatever is answered, no exception
    escapes it, and when the process ends its status is 0 or 1. *)
Theorem script_status_is_0_or_1 (args : list jsstring) (w : World) :
  (forall e, (script args w).1 <> Throw e) /\
  (forall c, exit_status (script args w).1 = Some c -> c = 0%Z \/ c = 1%Z).
Proof.
  pose proof (exits_main args w) as Hm. unfold script.
  destruct (main args w) as [[a|c'|e| |] w1]; simpl in *.
  - split; [done|]. intros c [= <-]. by left.
  - split; [done|]. intros c [= <-]. right. by apply Hm.
  - split; [done|]. intros c [= <-]. by right.
  - split; [done|]. done.
  - split; [done|]. done.
Qed.
